(** * wiz2joplin: the synchronisation core of [w2j.parser] and [w2j.adapter]

    A shallow embedding of the identifier conversion, the link rewriter,
    the location decomposition, the conversion cache ([ConvertUtil]) and
    the orchestrator ([Adapter]), with the properties of the
    specification stated and settled against it.

    Python [str] values are modelled as [string]; one [ascii] stands for
    one character of the Python string.  Python [int] is [Z], [None]-able
    values are [option]s; a computation that reads or writes the cache or
    the target is a function from the state to an outcome, which is a
    returned value or a raised exception, with the state reached. *)

From Stdlib Require Import String Ascii List ZArith Lia Bool.
From Stdlib Require Import Sorting.Sorted Sorting.Permutation.
From stdpp Require Import gmap strings list fin_maps.

#[local] Arguments String.append _ _ : simpl nomatch.

(** ** Python string primitives used by the source *)

Module PyStr.

(** [s[:n]] *)
Fixpoint take (n : nat) (s : string) : string :=
  match n, s with
  | S k, String c s' => String c (take k s')
  | _, _ => ""
  end.

(** [s[n:]] *)
Fixpoint drop (n : nat) (s : string) : string :=
  match n, s with
  | S k, String _ s' => drop k s'
  | _, _ => s
  end.

(** [s[a:b]] for non-negative bounds; out-of-range bounds are clipped. *)
Definition slice (a b : nat) (s : string) : string := take (b - a) (drop a s).

(** [s[1:-1]]: the negative bound counts from the end. *)
Definition slice_1_m1 (s : string) : string :=
  slice 1 (String.length s - 1) s.

(** [s.split(sep)] for a one-character separator, the only kind the
    source passes.  The result is never empty: [''.split('/') == ['']]. *)
Fixpoint split (sep : ascii) (s : string) : list string :=
  match s with
  | "" => [""]
  | String c s' =>
      if Ascii.eqb c sep then "" :: split sep s'
      else match split sep s' with
           | [] => [String c ""]
           | h :: t => String c h :: t
           end
  end.

(** [sep.join(l)] *)
Fixpoint join (sep : string) (l : list string) : string :=
  match l with
  | [] => ""
  | [x] => x
  | x :: rest => x +:+ sep +:+ join sep rest
  end.

(** The scan of [s.replace(old, new)] for a non-empty [old]: leftmost
    occurrences, not overlapping.  [skip] counts the characters of a
    matched occurrence that are still to be passed over. *)
Fixpoint replace_go (old new : string) (skip : nat) (s : string) : string :=
  match s with
  | "" => ""
  | String c s' =>
      match skip with
      | S k => replace_go old new k s'
      | O =>
          if String.prefix old s
          then new +:+ replace_go old new (String.length old - 1) s'
          else String c (replace_go old new 0 s')
      end
  end.

(** With an empty [old] Python puts [new] before every character and at
    the end. *)
Fixpoint replace_empty (new s : string) : string :=
  match s with
  | "" => new
  | String c s' => new +:+ String c (replace_empty new s')
  end.

(** [s.replace(old, new)] *)
Definition replace (s old new : string) : string :=
  match old with
  | "" => replace_empty new s
  | _ => replace_go old new 0 s
  end.

(** [old in s] *)
Fixpoint occursb (old s : string) : bool :=
  String.prefix old s ||
  match s with
  | "" => false
  | String _ s' => occursb old s'
  end.

(** [s.count(old)] for a non-empty [old], with the scan of [replace]. *)
Fixpoint count_go (old : string) (skip : nat) (s : string) : nat :=
  match s with
  | "" => 0
  | String c s' =>
      match skip with
      | S k => count_go old k s'
      | O =>
          if String.prefix old s
          then S (count_go old (String.length old - 1) s')
          else count_go old 0 s'
      end
  end.

Definition count (s old : string) : nat := count_go old 0 s.

(** Truth value of a string: [if s:] *)
Definition truthy (s : string) : bool :=
  match s with "" => false | _ => true end.

(** Every character of [s] satisfies [p]. *)
Fixpoint all_chars (p : ascii -> bool) (s : string) : bool :=
  match s with
  | "" => true
  | String c s' => p c && all_chars p s'
  end.

(** No character of [s] is the separator [c]. *)
Definition sep_free (c : ascii) (s : string) : bool :=
  all_chars (fun x => negb (Ascii.eqb x c)) s.

End PyStr.

(** ** [w2j.parser]: identifier conversion *)

(** [towizid]: from the 32-character Joplin id to the hyphenated guid. *)
Definition towizid (id : string) : string :=
  let one := PyStr.slice 0 8 id in
  let two := PyStr.slice 8 12 id in
  let three := PyStr.slice 12 16 id in
  let four := PyStr.slice 16 20 id in
  let five := PyStr.drop 20 id in
  PyStr.join "-" [one; two; three; four; five].

(** [tojoplinid]: from the hyphenated guid to the Joplin id. *)
Definition tojoplinid (guid : string) : string :=
  PyStr.join "" (PyStr.split "-"%char guid).

(** A hexadecimal digit. *)
Definition is_hex (c : ascii) : bool :=
  let n := nat_of_ascii c in
  (((48 <=? n) && (n <=? 57)) || ((97 <=? n) && (n <=? 102))
   || ((65 <=? n) && (n <=? 70)))%nat.

(** [n] hexadecimal digits at the front of [s]; the rest is returned. *)
Fixpoint hex_group (n : nat) (s : string) : option string :=
  match n with
  | O => Some s
  | S k =>
      match s with
      | String c s' => if is_hex c then hex_group k s' else None
      | "" => None
      end
  end.

(** Groups of hexadecimal digits of the given sizes, a hyphen between
    two groups, and nothing after the last one. *)
Fixpoint hex_groups (sizes : list nat) (s : string) : bool :=
  match sizes with
  | [] => match s with "" => true | _ => false end
  | [n] => match hex_group n s with Some "" => true | _ => false end
  | n :: rest =>
      match hex_group n s with
      | Some (String c s') => Ascii.eqb c "-"%char && hex_groups rest s'
      | _ => false
      end
  end.

(** The canonical hyphen-delimited UUID text, 8-4-4-4-12. *)
Definition is_canonical_uuid (guid : string) : bool :=
  hex_groups [8; 4; 4; 4; 12]%nat guid.

(** ** [w2j.parser]: the link rewriter *)

(** [JoplinInternalLink]: a link of a note to a resource or to another
    note.  [link_type] is [image], [open_attachment] or [open_document];
    [outertext] is the literal text of the link in the body, empty when
    the link was never written inline. *)
Record JoplinInternalLink := mkJIL {
  jil_note_id : string;
  jil_resource_id : string;
  jil_title : string;
  jil_link_type : string;
  jil_outertext : string
}.

(** The [id] property: [f"{self.note_id}-{self.resource_id}"]. *)
Definition jil_id (jil : JoplinInternalLink) : string :=
  jil_note_id jil +:+ "-" +:+ jil_resource_id jil.

(** The double quote and the line feed, used in the literals below. *)
Definition dq : string := String "034"%char EmptyString.
Definition nl : string := String "010"%char EmptyString.

(** [gen_ilstr]: the target-addressed form of a link. *)
Definition gen_ilstr (is_markdown : bool) (jil : JoplinInternalLink) : string :=
  if is_markdown then
    let body := "[" +:+ jil_title jil +:+ "](:/" +:+ jil_resource_id jil +:+ ")" in
    if String.eqb (jil_link_type jil) "image" then "!" +:+ body else body
  else if String.eqb (jil_link_type jil) "image" then
    "<img src=" +:+ dq +:+ ":/" +:+ jil_resource_id jil +:+ dq
      +:+ " alt=" +:+ dq +:+ jil_title jil +:+ dq +:+ ">"
  else
    "<a href=" +:+ dq +:+ ":/" +:+ jil_resource_id jil +:+ dq +:+ ">"
      +:+ jil_title jil +:+ "</a>".

(** The fixed heading of the trailing block, in both markups. *)
Definition end_heading_md : string := nl +:+ nl +:+ "# 附件链接" +:+ nl +:+ nl.
Definition end_heading_html : string := "<br><br><h1>附件链接</h1><ul>".

(** [gen_end_ilstr]: the block put at the end of the body. *)
Definition gen_end_ilstr (is_markdown : bool) (jils : list JoplinInternalLink)
  : string :=
  if is_markdown then
    end_heading_md
      +:+ PyStr.join nl (map (fun jil => "- " +:+ gen_ilstr is_markdown jil) jils)
  else
    let body :=
      PyStr.join ""
        (map (fun jil => "<li>" +:+ gen_ilstr is_markdown jil +:+ "</li>") jils) in
    end_heading_html +:+ body +:+ "</ul>".

Section Rewriter.

(** [inscriptis.get_text], the HTML-to-text library applied to markdown
    notes; an external collaborator. *)
Variable get_text : string -> string.

(** One turn of the loop of [convert_joplin_body]: the state is the body
    and the list [insert_to_end]. *)
Definition convert_step (is_markdown : bool)
    (st : string * list JoplinInternalLink) (jil : JoplinInternalLink)
  : string * list JoplinInternalLink :=
  let '(body, insert_to_end) := st in
  let body :=
    if PyStr.truthy (jil_outertext jil)
    then PyStr.replace body (jil_outertext jil) (gen_ilstr is_markdown jil)
    else body in
  let insert_to_end :=
    if String.eqb (jil_link_type jil) "open_attachment"
    then insert_to_end ++ [jil]
    else insert_to_end in
  (body, insert_to_end).

(** [convert_joplin_body] *)
Definition convert_joplin_body (body : string) (is_markdown : bool)
    (internal_links : list JoplinInternalLink) : string :=
  let '(body, insert_to_end) :=
    fold_left (convert_step is_markdown) internal_links (body, []) in
  let body := if is_markdown then get_text body else body in
  match insert_to_end with
  | [] => body
  | _ => body +:+ gen_end_ilstr is_markdown insert_to_end
  end.

End Rewriter.

(** ** Python dictionaries whose order is observed

    A [dict] keeps its keys in insertion order and [values()] follows it;
    [d[k] = v] on a present key keeps the key's position. *)

Module PyDict.
Section Dict.
Context {V : Type}.

Fixpoint get (k : string) (d : list (string * V)) : option V :=
  match d with
  | [] => None
  | (k', v) :: r => if String.eqb k k' then Some v else get k r
  end.

Fixpoint set (k : string) (v : V) (d : list (string * V)) : list (string * V) :=
  match d with
  | [] => [(k, v)]
  | (k', v') :: r =>
      if String.eqb k k' then (k', v) :: r else (k', v') :: set k v r
  end.

Definition values (d : list (string * V)) : list V := map snd d.

End Dict.
End PyDict.

(** ** Exceptions and the state-and-exception monad

    A raised exception keeps the state reached when it was raised: what
    was written before is not rolled back. *)

Inductive exn : Type :=
| ValueError (msg : string)
| KeyError
| AttributeError
| IntegrityError
| OverflowError
| OtherError (msg : string).

Inductive result (A : Type) : Type :=
| Ok (a : A)
| Err (e : exn).
Arguments Ok {A} a.
Arguments Err {A} e.

Inductive outcome (S A : Type) : Type :=
| Ret (a : A) (s : S)
| Raise (e : exn) (s : S).
Arguments Ret {S A} a s.
Arguments Raise {S A} e s.

Definition M (S A : Type) : Type := S -> outcome S A.

Definition ret {S A} (a : A) : M S A := fun s => Ret a s.
Definition raise {S A} (e : exn) : M S A := fun s => Raise e s.
Definition bind {S A B} (c : M S A) (k : A -> M S B) : M S B :=
  fun s => match c s with
           | Ret a s' => k a s'
           | Raise e s' => Raise e s'
           end.
Definition gets {S A} (f : S -> A) : M S A := fun s => Ret (f s) s.
Definition modify {S} (f : S -> S) : M S unit := fun s => Ret tt (f s).

(** [try: c except Exception: h] *)
Definition try_except {S A} (c : M S A) (h : exn -> M S A) : M S A :=
  fun s => match c s with
           | Ret a s' => Ret a s'
           | Raise e s' => h e s'
           end.

Notation "'do' x <- c ; k" := (bind c (fun x => k))
  (at level 10, x name, c at level 100, k at level 200).
Notation "'do_' c ; k" := (bind c (fun _ => k))
  (at level 10, c at level 100, k at level 200).

(** [for x in l: f x] *)
Fixpoint for_each {S A} (f : A -> M S unit) (l : list A) : M S unit :=
  match l with
  | [] => ret tt
  | x :: r => do_ f x; for_each f r
  end.

(** The state an outcome ends in. *)
Definition final {S A} (o : outcome S A) : S :=
  match o with Ret _ s => s | Raise _ s => s end.

(** ** [w2j.adapter]: [Location2Folder] *)

Record Location2Folder := mkL2F {
  l2f_location : string;
  l2f_title : string;
  l2f_parent_location : option string;
  l2f_level : Z;
  l2f_id : option string;
  l2f_parent_id : option string
}.

(** [Location2Folder.__init__]: when no title is given, title, level and
    parent location are computed from the location. *)
Definition Location2Folder_init (location : string) (title : option string)
    (parent_location : option string) (level : Z)
    (id parent_id : option string) : Location2Folder :=
  match title with
  | None =>
      let titles := PyStr.split "/"%char (PyStr.slice_1_m1 location) in
      let level := Z.of_nat (length titles) in
      {| l2f_location := location;
         l2f_title := List.last titles "";
         l2f_parent_location :=
           if (1 <? level)%Z
           then Some ("/" +:+ PyStr.join "/" (removelast titles) +:+ "/")
           else None;
         l2f_level := level;
         l2f_id := id;
         l2f_parent_id := parent_id |}
  | Some t =>
      {| l2f_location := location;
         l2f_title := t;
         l2f_parent_location := parent_location;
         l2f_level := level;
         l2f_id := id;
         l2f_parent_id := parent_id |}
  end.

(** [Location2Folder(location)] *)
Definition Location2Folder_of (location : string) : Location2Folder :=
  Location2Folder_init location None None 0 None None.

(** ** The entities of [w2j.joplin] *)

(** Modelled from the spec: the module [w2j.joplin] is not among the
    sources; the records below carry the attributes that [w2j.adapter]
    reads and writes, with the columns of the cache schema.  A folder
    built by [load_folders] for an entry not yet created has no id. *)
Record JoplinFolder := mkFolder {
  jf_id : option string;
  jf_title : string;
  jf_created_time : Z;
  jf_updated_time : Z;
  jf_parent_id : option string
}.

Record JoplinTag := mkTag {
  jt_id : string;
  jt_title : string;
  jt_created_time : Z;
  jt_updated_time : Z
}.

Record JoplinResource := mkResource {
  jr_id : string;
  jr_title : string;
  jr_filename : string;
  jr_created_time : Z;
  jr_resource_type : Z
}.

Record JoplinNote := mkNote {
  jn_id : string;
  jn_title : string;
  jn_parent_id : string;
  jn_markup_language : bool;
  jn_location : string;
  jn_created_time : Z;
  jn_updated_time : Z;
  jn_folder : option JoplinFolder;
  jn_internal_links : list (string * JoplinInternalLink);
  jn_tags : list (string * JoplinTag)
}.

(** ** The entities of [w2j.wiz_mac] and [w2j.parser] read by the adapter *)

Record WizInternalLink := mkWIL {
  wil_outerhtml : string;
  wil_guid : string;
  wil_title : string;
  wil_link_type : string
}.

(** [outerhtml] is only tested for truth and, when true, used as a text:
    [None] is represented by the empty string. *)
Record WizImage := mkImage {
  wi_outerhtml : string;
  wi_src : string;
  wi_file : string
}.

(** The class of [w2j.wiz_mac], the one the adapter imports on every
    platform but one; the class of that other platform is not among the
    sources.  [doc_guid] and [modified] are not read by the adapter;
    [file] is the path of the file. *)
Record WizAttachment := mkAttachment {
  wa_guid : string;
  wa_name : string;
  wa_file_name : string;
  wa_file : string
}.

(** [wiz_attachment.file_path]: the class has no such attribute, neither
    on the class nor set by [__init__], so reading it raises
    [AttributeError]. *)
Definition wa_file_path (wiz_attachment : WizAttachment) : result string :=
  Err AttributeError.

Record WizTag := mkWizTag {
  wt_guid : string;
  wt_name : string;
  wt_modified : Z
}.

Record WizDocument := mkDocument {
  wd_guid : string;
  wd_title : string;
  wd_location : string;
  wd_url : option string;
  wd_created : Z;
  wd_modified : Z;
  wd_body : string;
  wd_is_markdown : bool;
  wd_attachments : list WizAttachment;
  wd_images : list WizImage;
  wd_internal_links : list WizInternalLink
}.

Record WizStorage := mkStorage {
  ws_tags : list WizTag;
  ws_documents : list WizDocument
}.

(** ** [ConvertUtil]: the conversion cache *)

(** A row of the table [note]. *)
Record NoteRow := mkNoteRow {
  nr_title : string;
  nr_joplin_folder : string;
  nr_markup_language : bool;
  nr_wiz_location : string;
  nr_created_time : Z;
  nr_updated_time : Z
}.

(** The sqlite tables, each keyed by its primary key, and the
    dictionaries held in memory.  [l2f_cache] is iterated, so its order
    is kept. *)
Record ConvertUtil := mkCU {
  db_l2f : gmap string Location2Folder;
  db_note : gmap string NoteRow;
  db_resource : gmap string JoplinResource;
  db_internal_link : gmap (string * string) (string * string);
  db_tag : gmap string JoplinTag;
  db_note_tag : gmap (string * string) (string * Z);
  l2f_cache : list (string * Location2Folder);
  folders : gmap (option string) JoplinFolder;
  tags : gmap string JoplinTag;
  notes : gmap string JoplinNote;
  resources : gmap string JoplinResource;
  internal_links : gmap string JoplinInternalLink
}.

Definition set_db_l2f (f : gmap string Location2Folder -> gmap string Location2Folder)
    (cu : ConvertUtil) : ConvertUtil :=
  mkCU (f (db_l2f cu)) (db_note cu) (db_resource cu) (db_internal_link cu)
       (db_tag cu) (db_note_tag cu) (l2f_cache cu) (folders cu) (tags cu)
       (notes cu) (resources cu) (internal_links cu).
Definition set_db_note (f : gmap string NoteRow -> gmap string NoteRow)
    (cu : ConvertUtil) : ConvertUtil :=
  mkCU (db_l2f cu) (f (db_note cu)) (db_resource cu) (db_internal_link cu)
       (db_tag cu) (db_note_tag cu) (l2f_cache cu) (folders cu) (tags cu)
       (notes cu) (resources cu) (internal_links cu).
Definition set_db_resource (f : gmap string JoplinResource -> gmap string JoplinResource)
    (cu : ConvertUtil) : ConvertUtil :=
  mkCU (db_l2f cu) (db_note cu) (f (db_resource cu)) (db_internal_link cu)
       (db_tag cu) (db_note_tag cu) (l2f_cache cu) (folders cu) (tags cu)
       (notes cu) (resources cu) (internal_links cu).
Definition set_db_internal_link
    (f : gmap (string * string) (string * string) -> gmap (string * string) (string * string))
    (cu : ConvertUtil) : ConvertUtil :=
  mkCU (db_l2f cu) (db_note cu) (db_resource cu) (f (db_internal_link cu))
       (db_tag cu) (db_note_tag cu) (l2f_cache cu) (folders cu) (tags cu)
       (notes cu) (resources cu) (internal_links cu).
Definition set_db_tag (f : gmap string JoplinTag -> gmap string JoplinTag)
    (cu : ConvertUtil) : ConvertUtil :=
  mkCU (db_l2f cu) (db_note cu) (db_resource cu) (db_internal_link cu)
       (f (db_tag cu)) (db_note_tag cu) (l2f_cache cu) (folders cu) (tags cu)
       (notes cu) (resources cu) (internal_links cu).
Definition set_db_note_tag
    (f : gmap (string * string) (string * Z) -> gmap (string * string) (string * Z))
    (cu : ConvertUtil) : ConvertUtil :=
  mkCU (db_l2f cu) (db_note cu) (db_resource cu) (db_internal_link cu)
       (db_tag cu) (f (db_note_tag cu)) (l2f_cache cu) (folders cu) (tags cu)
       (notes cu) (resources cu) (internal_links cu).
Definition set_l2f_cache
    (f : list (string * Location2Folder) -> list (string * Location2Folder))
    (cu : ConvertUtil) : ConvertUtil :=
  mkCU (db_l2f cu) (db_note cu) (db_resource cu) (db_internal_link cu)
       (db_tag cu) (db_note_tag cu) (f (l2f_cache cu)) (folders cu) (tags cu)
       (notes cu) (resources cu) (internal_links cu).
Definition set_folders
    (f : gmap (option string) JoplinFolder -> gmap (option string) JoplinFolder)
    (cu : ConvertUtil) : ConvertUtil :=
  mkCU (db_l2f cu) (db_note cu) (db_resource cu) (db_internal_link cu)
       (db_tag cu) (db_note_tag cu) (l2f_cache cu) (f (folders cu)) (tags cu)
       (notes cu) (resources cu) (internal_links cu).
Definition set_tags (f : gmap string JoplinTag -> gmap string JoplinTag)
    (cu : ConvertUtil) : ConvertUtil :=
  mkCU (db_l2f cu) (db_note cu) (db_resource cu) (db_internal_link cu)
       (db_tag cu) (db_note_tag cu) (l2f_cache cu) (folders cu) (f (tags cu))
       (notes cu) (resources cu) (internal_links cu).
Definition set_notes (f : gmap string JoplinNote -> gmap string JoplinNote)
    (cu : ConvertUtil) : ConvertUtil :=
  mkCU (db_l2f cu) (db_note cu) (db_resource cu) (db_internal_link cu)
       (db_tag cu) (db_note_tag cu) (l2f_cache cu) (folders cu) (tags cu)
       (f (notes cu)) (resources cu) (internal_links cu).
Definition set_resources (f : gmap string JoplinResource -> gmap string JoplinResource)
    (cu : ConvertUtil) : ConvertUtil :=
  mkCU (db_l2f cu) (db_note cu) (db_resource cu) (db_internal_link cu)
       (db_tag cu) (db_note_tag cu) (l2f_cache cu) (folders cu) (tags cu)
       (notes cu) (f (resources cu)) (internal_links cu).
Definition set_internal_links
    (f : gmap string JoplinInternalLink -> gmap string JoplinInternalLink)
    (cu : ConvertUtil) : ConvertUtil :=
  mkCU (db_l2f cu) (db_note cu) (db_resource cu) (db_internal_link cu)
       (db_tag cu) (db_note_tag cu) (l2f_cache cu) (folders cu) (tags cu)
       (notes cu) (resources cu) (f (internal_links cu)).

(** [INSERT INTO t ...] on a table keyed by its primary key: a present
    key raises [sqlite3.IntegrityError]. *)
Definition sql_insert {K V} `{Countable K} (k : K) (v : V) (t : gmap K V)
  : result (gmap K V) :=
  match t !! k with
  | Some _ => Err IntegrityError
  | None => Ok (<[k := v]> t)
  end.

(** An integer bound to a statement has to fit the 64-bit [INTEGER] of
    sqlite: for any other the module [sqlite3] raises [OverflowError]
    when it binds the parameters, before the statement runs. *)
Definition sqlite_int (z : Z) : bool :=
  ((- 2 ^ 63 <=? z) && (z <? 2 ^ 63))%Z.

(** [SELECT count( * ) ... .fetchone()]: always one row, holding the count. *)
Definition fetchone_count (n : Z) : option (list Z) := Some [n].

(** Truth value of what [fetchone] returns: [None] and the empty tuple
    are false, any other tuple is true. *)
Definition row_truthy (row : option (list Z)) : bool :=
  match row with
  | None => false
  | Some [] => false
  | Some (_ :: _) => true
  end.

(** [get_note] *)
Definition get_note (note_id : string) (cu : ConvertUtil) : option JoplinNote :=
  notes cu !! note_id.

(** [get_folder(location=...)]: the caller passes no [id]; an empty
    location is false. *)
Definition get_folder_by_location (location : string) (cu : ConvertUtil)
  : option JoplinFolder :=
  if PyStr.truthy location then
    match PyDict.get location (l2f_cache cu) with
    | Some l2f => folders cu !! l2f_id l2f
    | None => None
    end
  else None.

(** [load_folders]: the folders are rebuilt from the chain entries. *)
Definition load_folders (cu : ConvertUtil) : ConvertUtil :=
  set_folders
    (fun _ =>
       fold_left
         (fun m l2f =>
            <[l2f_id l2f :=
                mkFolder (l2f_id l2f) (l2f_title l2f) 0 0 (l2f_parent_id l2f)]> m)
         (PyDict.values (l2f_cache cu)) ∅)
    cu.

(** [get_tags]: the rows of [note_tag] of one note; the second column,
    the title, is what the source uses as the key into [tags]. *)
Definition get_tags (guid : string) : M ConvertUtil (list (string * JoplinTag)) :=
  fun cu =>
    let items :=
      omap (fun '((note_id, tag_id), (title, _)) =>
              if String.eqb note_id guid then Some (tag_id, title) else None)
           (map_to_list (db_note_tag cu)) in
    (fix go (items : list (string * string)) (tag_dict : list (string * JoplinTag)) :=
       match items with
       | [] => Ret tag_dict cu
       | item :: rest =>
           let tag_id := snd item in
           match tags cu !! tag_id with
           | Some t => go rest (PyDict.set tag_id t tag_dict)
           | None => Raise KeyError cu
           end
       end) items [].

(** [add_tag] *)
Definition add_tag (tag : JoplinTag) : M ConvertUtil unit :=
  fun cu =>
    match tags cu !! jt_id tag with
    | Some _ => Ret tt cu
    | None =>
        if negb (sqlite_int (jt_created_time tag) && sqlite_int (jt_updated_time tag))
        then Raise OverflowError cu
        else if bool_decide
                  (map_Exists (fun _ t => jt_title t = jt_title tag) (db_tag cu))
        then Raise IntegrityError cu
        else
          match sql_insert (jt_id tag) tag (db_tag cu) with
          | Err e => Raise e cu
          | Ok t =>
              Ret tt (set_tags (insert (jt_id tag) tag) (set_db_tag (fun _ => t) cu))
          end
    end.

(** [add_resource] *)
Definition add_resource (jr : JoplinResource) : M ConvertUtil unit :=
  fun cu =>
    match resources cu !! jr_id jr with
    | Some _ => Ret tt cu
    | None =>
        if negb (sqlite_int (jr_created_time jr) && sqlite_int (jr_resource_type jr))
        then Raise OverflowError cu
        else
          match sql_insert (jr_id jr) jr (db_resource cu) with
          | Err e => Raise e cu
          | Ok t =>
              Ret tt (set_resources (insert (jr_id jr) jr)
                        (set_db_resource (fun _ => t) cu))
          end
    end.

(** [add_internal_lnk] *)
Definition add_internal_lnk (jil : JoplinInternalLink) : M ConvertUtil unit :=
  fun cu =>
    match internal_links cu !! jil_id jil with
    | Some _ => Ret tt cu
    | None =>
        match sql_insert (jil_note_id jil, jil_resource_id jil)
                (jil_title jil, jil_link_type jil) (db_internal_link cu) with
        | Err e => Raise e cu
        | Ok t =>
            Ret tt (set_internal_links (insert (jil_id jil) jil)
                      (set_db_internal_link (fun _ => t) cu))
        end
    end.

(** [add_note_tag]: the row that [fetchone] returns is tested for truth,
    not the count it holds. *)
Definition add_note_tag (note : JoplinNote) (tag : JoplinTag) : M ConvertUtil unit :=
  fun cu =>
    let note_tag_item :=
      fetchone_count
        (match db_note_tag cu !! (jn_id note, jt_id tag) with
         | Some _ => 1
         | None => 0
         end)%Z in
    if row_truthy note_tag_item then Ret tt cu
    else
      match sql_insert (jn_id note, jt_id tag) (jt_title tag, jt_created_time tag)
              (db_note_tag cu) with
      | Err e => Raise e cu
      | Ok t => Ret tt (set_db_note_tag (fun _ => t) cu)
      end.

(** [add_note] *)
Definition add_note (note : JoplinNote) : M ConvertUtil unit :=
  fun cu =>
    match notes cu !! jn_id note with
    | Some _ => Ret tt cu
    | None =>
        if negb (sqlite_int (jn_created_time note) && sqlite_int (jn_updated_time note))
        then Raise OverflowError cu
        else
          match sql_insert (jn_id note)
                  (mkNoteRow (jn_title note) (jn_parent_id note)
                     (jn_markup_language note) (jn_location note)
                     (jn_created_time note) (jn_updated_time note))
                  (db_note cu) with
          | Err e => Raise e cu
          | Ok t =>
              (do_ modify (set_notes (insert (jn_id note) note));
               do_ for_each (add_note_tag note) (PyDict.values (jn_tags note));
               for_each add_internal_lnk (PyDict.values (jn_internal_links note)))
                (set_db_note (fun _ => t) cu)
          end
    end.

(** [update_l2f]: the id is stored whatever the entry held before; the
    parent id is stored when one is given.  The row of the table whose
    location is the entry's is rewritten. *)
Definition update_l2f (location : string) (id : option string)
    (parent_id : option string) : M ConvertUtil unit :=
  fun cu =>
    match PyDict.get location (l2f_cache cu) with
    | None => Raise KeyError cu
    | Some l2f_inst =>
        let l2f_inst :=
          mkL2F (l2f_location l2f_inst) (l2f_title l2f_inst)
                (l2f_parent_location l2f_inst) (l2f_level l2f_inst)
                id
                (match parent_id with
                 | Some p => Some p
                 | None => l2f_parent_id l2f_inst
                 end) in
        Ret tt
          (set_db_l2f
             (fun t =>
                match t !! l2f_location l2f_inst with
                | Some row =>
                    <[l2f_location l2f_inst :=
                        mkL2F (l2f_location row) (l2f_title row)
                              (l2f_parent_location row) (l2f_level row)
                              (l2f_id l2f_inst) (l2f_parent_id l2f_inst)]> t
                | None => t
                end)
             (set_l2f_cache (PyDict.set location l2f_inst) cu))
    end.

(** [list.sort(key=...)] is stable; so is this insertion sort. *)
Fixpoint insert_by_level (x : Location2Folder) (l : list Location2Folder)
  : list Location2Folder :=
  match l with
  | [] => [x]
  | y :: r =>
      if (l2f_level x <=? l2f_level y)%Z then x :: y :: r
      else y :: insert_by_level x r
  end.

Fixpoint sort_by_level (l : list Location2Folder) : list Location2Folder :=
  match l with
  | [] => []
  | x :: r => insert_by_level x (sort_by_level r)
  end.

(** Ascending order of level. *)
Definition level_le (a b : Location2Folder) : Prop :=
  (l2f_level a <= l2f_level b)%Z.

Definition id_is_none (l2f : Location2Folder) : bool :=
  match l2f_id l2f with None => true | Some _ => false end.

(** [get_waiting_for_created_l2f] *)
Definition get_waiting_for_created_l2f (cu : ConvertUtil) : list Location2Folder :=
  sort_by_level (filter (fun v => id_is_none v = true) (PyDict.values (l2f_cache cu))).

(** ** [Adapter]: the orchestrator *)

(** The requests made to the target service, in the order made. *)
Inductive Call : Type :=
| CallPostFolder (title : string) (parent_id : option string)
| CallPostTag (id title : string)
| CallGetTag (id : string)
| CallGetResources
| CallCreateResource (filename : string)
| CallPostNote (id body : string) (parent_id : option string).

(** The requests that create an entity in the target. *)
Definition is_creation (c : Call) : bool :=
  match c with
  | CallPostFolder _ _ | CallPostTag _ _
  | CallCreateResource _ | CallPostNote _ _ _ => true
  | CallGetTag _ | CallGetResources => false
  end.

(** The two shapes in which the source calls [create_resource]. *)
Inductive CreateArgs : Type :=
| ByAttributes (title filename data : string)
| ByFile (content filename mime : string).

(** [fold] with an accumulator through the monad. *)
Fixpoint fold_m {S A B} (f : B -> A -> M S B) (l : list A) (b : B) : M S B :=
  match l with
  | [] => ret b
  | x :: r => do b' <- f b x; fold_m f r b'
  end.

(** The outcome is a returned note. *)
Definition returns_note {S A} (o : outcome S (option A)) : bool :=
  match o with
  | Ret (Some _) _ => true
  | _ => false
  end.

Section Adapter.

(** The target service ([JoplinDataAPI], not among the sources): its
    state and its requests.  A request returns the next state and either
    a value or the exception it raises. *)
Variable J : Type.
Variable post_folder : J -> string -> option string -> J * result JoplinFolder.
Variable post_tag : J -> string -> string -> Z -> Z -> J * result JoplinTag.
Variable get_tag : J -> string -> J * result JoplinTag.
Variable get_resources : J -> J * result (list JoplinResource).
Variable create_resource : J -> CreateArgs -> J * result (option JoplinResource).
Variable post_note :
  J -> string -> string -> string -> bool -> option string -> option string ->
  Z -> Z -> J * result JoplinNote.

(** The file system: [os.path.exists], [open(path, "rb").read()] and
    [os.path.basename]. *)
Variable path_exists : string -> bool.
Variable open_rb : string -> result string.
Variable basename : string -> string.

(** [inscriptis.get_text] *)
Variable get_text : string -> string.

(** The adapter: the cache, the target service and the requests made. *)
Record World := mkWorld {
  cu : ConvertUtil;
  jda : J;
  calls : list Call
}.

(** A request to the target service, recorded in [calls]. *)
Definition call_api {A} (c : Call) (f : J -> J * result A) : M World A :=
  fun w =>
    let '(j, r) := f (jda w) in
    let w' := mkWorld (cu w) j (calls w ++ [c]) in
    match r with
    | Ok a => Ret a w'
    | Err e => Raise e w'
    end.

(** An operation of the cache, run on the adapter's cache. *)
Definition lift_cu {A} (c : M ConvertUtil A) : M World A :=
  fun w =>
    match c (cu w) with
    | Ret a cu' => Ret a (mkWorld cu' (jda w) (calls w))
    | Raise e cu' => Raise e (mkWorld cu' (jda w) (calls w))
    end.

(** A value computed outside the monad that may raise. *)
Definition of_result {A} (r : result A) : M World A :=
  match r with
  | Ok a => ret a
  | Err e => raise e
  end.

(** One turn of the loop of [sync_folders]. *)
Definition sync_folder (l2f : Location2Folder) : M World unit :=
  match l2f_parent_location l2f with
  | None =>
      do jf <- call_api (CallPostFolder (l2f_title l2f) None)
                 (fun j => post_folder j (l2f_title l2f) None);
      lift_cu (update_l2f (l2f_location l2f) (jf_id jf) None)
  | Some parent_location =>
      do parent_l2f <- gets (fun w => PyDict.get parent_location (l2f_cache (cu w)));
      match parent_l2f with
      | None =>
          raise (ValueError ("Parent object not found " +:+ parent_location +:+ "！"))
      | Some parent_l2f =>
          match l2f_id parent_l2f with
          | None =>
              raise (ValueError ("Parent object " +:+ parent_location +:+ " no id！"))
          | Some parent_id =>
              do jf <- call_api (CallPostFolder (l2f_title l2f) (Some parent_id))
                         (fun j => post_folder j (l2f_title l2f) (Some parent_id));
              lift_cu (update_l2f (l2f_location l2f) (jf_id jf) (jf_parent_id jf))
          end
      end
  end.

(** [sync_folders] *)
Definition sync_folders : M World unit :=
  do waiting_created_l2f <- gets (fun w => get_waiting_for_created_l2f (cu w));
  do_ for_each sync_folder waiting_created_l2f;
  lift_cu (modify load_folders).

(** The message that [sync_tags] looks for in a [ValueError]. *)
Definition unique_failed : string := "SQLITE_CONSTRAINT: UNIQUE constraint failed".

(** One turn of the loop of [sync_tags]. *)
Definition sync_tag (wt : WizTag) : M World unit :=
  let tag_id := tojoplinid (wt_guid wt) in
  try_except
    (do jt <- call_api (CallPostTag tag_id (wt_name wt))
                (fun j => post_tag j tag_id (wt_name wt) (wt_modified wt) (wt_modified wt));
     lift_cu (add_tag jt))
    (fun e =>
       match e with
       | ValueError msg =>
           if PyStr.occursb unique_failed msg then
             do jt <- call_api (CallGetTag tag_id) (fun j => get_tag j tag_id);
             lift_cu (add_tag jt)
           else ret tt
       | _ => raise e
       end).

(** [sync_tags] *)
Definition sync_tags (ws : WizStorage) : M World unit :=
  do waiting_create_tags <-
    gets (fun w =>
            filter (fun wt => tags (cu w) !! tojoplinid (wt_guid wt) = None)
                   (ws_tags ws));
  for_each sync_tag waiting_create_tags.

(** [_get_resource_by_filename]: the first resource of the target whose
    title is the file name. *)
Definition _get_resource_by_filename (filename : string)
  : M World (option JoplinResource) :=
  do resources <- call_api CallGetResources get_resources;
  ret (List.find (fun resource => String.eqb (jr_title resource) filename) resources).

(** [_upload_wiz_attachment]: every exception is caught and gives
    [None], the one of reading [file_path] too. *)
Definition _upload_wiz_attachment (wiz_attachment : WizAttachment)
  : M World (option JoplinResource) :=
  try_except
    (do file_path <- of_result (wa_file_path wiz_attachment);
     if negb (path_exists file_path) then ret None
     else
       do existing_resource <-
         _get_resource_by_filename (wa_file_name wiz_attachment);
       match existing_resource with
       | Some r => ret (Some r)
       | None =>
           do data <- of_result (open_rb file_path);
           call_api (CallCreateResource (wa_file_name wiz_attachment))
             (fun j =>
                create_resource j
                  (ByAttributes (wa_file_name wiz_attachment)
                     (wa_file_name wiz_attachment) data))
       end)
    (fun _ => ret None).

(** [_upload_wiz_image]: [image.file] is a path object, which is always
    true, so the first guard of the source never returns.  The lookup by
    file name is outside the [try]. *)
Definition _upload_wiz_image (image : WizImage) : M World (option JoplinResource) :=
  if negb (path_exists (wi_file image)) then ret None
  else
    do resource <- _get_resource_by_filename (basename (wi_file image));
    match resource with
    | Some r => ret (Some r)
    | None =>
        try_except
          (do f <- of_result (open_rb (wi_file image));
           do resource <-
             call_api (CallCreateResource (basename (wi_file image)))
               (fun j =>
                  create_resource j (ByFile f (basename (wi_file image)) "image/jpeg"));
           match resource with
           | Some r => do_ lift_cu (add_resource r); ret (Some r)
           | None => ret None
           end)
          (fun _ => ret None)
    end.

(** The links of the document itself, the first loop of [_sync_note]. *)
Definition document_links (note_id : string) (document : WizDocument)
  : list (string * JoplinInternalLink) :=
  fold_left
    (fun joplin_internal_links wil =>
       let resource_id := tojoplinid (wil_guid wil) in
       let jil := mkJIL note_id resource_id (wil_title wil) (wil_link_type wil)
                    (wil_outerhtml wil) in
       PyDict.set (jil_id jil) jil joplin_internal_links)
    (wd_internal_links document) [].

(** One turn of the loop over the attachments. *)
Definition sync_attachment (note_id : string)
    (joplin_internal_links : list (string * JoplinInternalLink))
    (attachment : WizAttachment) : M World (list (string * JoplinInternalLink)) :=
  do jr <- _upload_wiz_attachment attachment;
  match jr with
  | None => ret joplin_internal_links
  | Some jr =>
      let jil_id' := note_id +:+ "-" +:+ jr_id jr in
      match PyDict.get jil_id' joplin_internal_links with
      | Some _ => ret joplin_internal_links
      | None =>
          let jil := mkJIL note_id (jr_id jr) (jr_title jr) "open_attachment" "" in
          ret (PyDict.set (jil_id jil) jil joplin_internal_links)
      end
  end.

(** One turn of the loop over the images; an exception skips the image. *)
Definition sync_image (note_id : string)
    (joplin_internal_links : list (string * JoplinInternalLink))
    (image : WizImage) : M World (list (string * JoplinInternalLink)) :=
  try_except
    (do jr <- _upload_wiz_image image;
     match jr with
     | None => ret joplin_internal_links
     | Some jr =>
         let jil := mkJIL note_id (jr_id jr) (jr_title jr) "image" (wi_outerhtml image) in
         ret (PyDict.set (jil_id jil) jil joplin_internal_links)
     end)
    (fun _ => ret joplin_internal_links).

(** [_sync_note] *)
Definition _sync_note (document : WizDocument) : M World (option JoplinNote) :=
  let note_id := tojoplinid (wd_guid document) in
  do jn <- gets (fun w => get_note note_id (cu w));
  match jn with
  | Some _ => ret None
  | None =>
      let joplin_internal_links := document_links note_id document in
      do joplin_internal_links <-
        fold_m (sync_attachment note_id) (wd_attachments document)
          joplin_internal_links;
      do joplin_internal_links <-
        fold_m (sync_image note_id) (wd_images document) joplin_internal_links;
      let body :=
        convert_joplin_body get_text (wd_body document) (wd_is_markdown document)
          (PyDict.values joplin_internal_links) in
      do folder <- gets (fun w => get_folder_by_location (wd_location document) (cu w));
      match folder with
      | None => raise AttributeError
      | Some folder =>
          do note <-
            call_api (CallPostNote note_id body (jf_id folder))
              (fun j =>
                 post_note j note_id (wd_title document) body
                   (wd_is_markdown document) (jf_id folder) (wd_url document)
                   (wd_created document) (wd_modified document));
          do tags <- lift_cu (get_tags (jn_id note));
          let note :=
            mkNote (jn_id note) (jn_title note) (jn_parent_id note)
              (jn_markup_language note) (jn_location note)
              (jn_created_time note) (jn_updated_time note)
              (Some folder) joplin_internal_links tags in
          do_ lift_cu (add_note note);
          ret (Some note)
      end
  end.

(** [sync_all] *)
Definition sync_all (ws : WizStorage) : M World unit :=
  do_ sync_folders;
  do_ sync_tags ws;
  for_each (fun wd => do_ _sync_note wd; ret tt) (ws_documents ws).

End Adapter.

Arguments cu {J} w.
Arguments jda {J} w.
Arguments calls {J} w.
Arguments mkWorld {J} cu jda calls.

(** ** A small target service

    Used to run the adapter on concrete inputs: it keeps the resources it
    was given, names a folder after its title and a resource after its
    file name, and echoes the requested id of a tag or a note. *)

Module SimpleTarget.

Definition J : Type := list JoplinResource.

Definition post_folder (j : J) (title : string) (parent_id : option string)
  : J * result JoplinFolder :=
  (j, Ok (mkFolder (Some ("f-" +:+ title)) title 0 0 parent_id)).

Definition post_tag (j : J) (id title : string) (created updated : Z)
  : J * result JoplinTag :=
  (j, Ok (mkTag id title created updated)).

Definition get_tag (j : J) (id : string) : J * result JoplinTag :=
  (j, Err (OtherError "no such tag")).

Definition get_resources (j : J) : J * result (list JoplinResource) :=
  (j, Ok j).

Definition create_resource (j : J) (args : CreateArgs)
  : J * result (option JoplinResource) :=
  let r :=
    match args with
    | ByAttributes title filename _ => mkResource ("r-" +:+ filename) title filename 0 2
    | ByFile _ filename _ => mkResource ("r-" +:+ filename) filename filename 0 1
    end in
  (j ++ [r], Ok (Some r)).

Definition post_note (j : J) (id title body : string) (is_markdown : bool)
    (parent_id url : option string) (created updated : Z)
  : J * result JoplinNote :=
  (j, Ok (mkNote id title (default "" parent_id) is_markdown "" created updated
            None [] [])).

Definition path_exists (path : string) : bool := true.
Definition open_rb (path : string) : result string := Ok "".
Definition basename (path : string) : string := path.
Definition get_text (s : string) : string := s.

(** The adapter over this target. *)
Definition sync_folder := sync_folder J post_folder.
Definition sync_folders := sync_folders J post_folder.
Definition sync_tags := sync_tags J post_tag get_tag.
Definition _upload_wiz_attachment :=
  _upload_wiz_attachment J get_resources create_resource path_exists open_rb.
Definition _upload_wiz_image :=
  _upload_wiz_image J get_resources create_resource path_exists open_rb basename.
Definition _sync_note :=
  _sync_note J get_resources create_resource post_note path_exists open_rb
    basename get_text.
Definition sync_all :=
  sync_all J post_folder post_tag get_tag get_resources create_resource post_note
    path_exists open_rb basename get_text.

(** The cache of a first start: no table has a row. *)
Definition empty_cu : ConvertUtil :=
  mkCU ∅ ∅ ∅ ∅ ∅ ∅ [] ∅ ∅ ∅ ∅ ∅.

(** A cache holding the given chain entries, in memory and in the table. *)
Definition cu_of_chain (chain : list Location2Folder) : ConvertUtil :=
  mkCU (list_to_map (map (fun e => (l2f_location e, e)) chain)) ∅ ∅ ∅ ∅ ∅
       (map (fun e => (l2f_location e, e)) chain) ∅ ∅ ∅ ∅ ∅.

End SimpleTarget.

(** ** The link rewriter, as the specification words it

    The definitions below are not taken from the source: they say what
    the rewritten body is expected to be, and are compared with
    [convert_joplin_body] in the properties. *)

(** A link is an attachment link when its kind is [open_attachment]. *)
Definition is_attachment (jil : JoplinInternalLink) : bool :=
  String.eqb (jil_link_type jil) "open_attachment".

(** The attachment links of a note, in their order. *)
Definition attachment_links (links : list JoplinInternalLink)
  : list JoplinInternalLink :=
  List.filter is_attachment links.

(** The substitutions alone: each link with a literal text has it
    replaced, in turn. *)
Definition rewrite_body (is_markdown : bool) (links : list JoplinInternalLink)
    (body : string) : string :=
  fold_left
    (fun b jil =>
       if PyStr.truthy (jil_outertext jil)
       then PyStr.replace b (jil_outertext jil) (gen_ilstr is_markdown jil)
       else b)
    links body.

(** The text normalisation of markdown notes. *)
Definition normalise (get_text : string -> string) (is_markdown : bool)
    (body : string) : string :=
  if is_markdown then get_text body else body.

(** Juxtaposition of texts. *)
Definition concat_str (l : list string) : string :=
  fold_right String.append "" l.

(** The trailing block: nothing without an entry, else the heading and
    one entry for each link. *)
Definition trailing_block (is_markdown : bool) (entries : list JoplinInternalLink)
  : string :=
  match entries with
  | [] => ""
  | _ =>
      if is_markdown then
        end_heading_md
          +:+ PyStr.join nl (map (fun jil => "- " +:+ gen_ilstr true jil) entries)
      else
        end_heading_html
          +:+ concat_str (map (fun jil => "<li>" +:+ gen_ilstr false jil +:+ "</li>")
                            entries)
          +:+ "</ul>"
  end.

(** A body seen as pieces: plain text, and inline references, each with
    the link resolved for it. *)
Inductive piece : Type :=
| Text (s : string)
| Ref (jil : JoplinInternalLink).

(** A piece as the source wrote it and as the target addresses it. *)
Definition source_text (p : piece) : string :=
  match p with
  | Text s => s
  | Ref jil => jil_outertext jil
  end.

Definition target_text (is_markdown : bool) (p : piece) : string :=
  match p with
  | Text s => s
  | Ref jil => gen_ilstr is_markdown jil
  end.

Definition render_source (ps : list piece) : string :=
  concat_str (map source_text ps).

Definition render_target (is_markdown : bool) (ps : list piece) : string :=
  concat_str (map (target_text is_markdown) ps).

(** A body on the way: the references whose literal text [done] holds of
    are already in their target-addressed form. *)
Definition stage_text (done : string -> bool) (is_markdown : bool) (p : piece)
  : string :=
  match p with
  | Text s => s
  | Ref jil =>
      if done (jil_outertext jil) then gen_ilstr is_markdown jil
      else jil_outertext jil
  end.

Definition render_stage (done : string -> bool) (is_markdown : bool)
    (ps : list piece) : string :=
  concat_str (map (stage_text done is_markdown) ps).

#[global] Instance JoplinInternalLink_eq_dec : EqDecision JoplinInternalLink.
Proof. solve_decision. Defined.

(** The text has no character of the class [lit]. *)
Definition lit_free (lit : ascii -> bool) (s : string) : bool :=
  PyStr.all_chars (fun c => negb (lit c)) s.

(** No occurrence of [o] in [t +:+ r] starts inside [t]. *)
Definition clean (o t r : string) : Prop :=
  forall k, (k < String.length t)%nat ->
            String.prefix o (PyStr.drop k t +:+ r) = false.

(** The two texts differ at a position that both have: neither is the
    beginning of the other. *)
Fixpoint differ (a b : string) : bool :=
  match a, b with
  | String x a', String y b' => negb (Ascii.eqb x y) || differ a' b'
  | _, _ => false
  end.

(** No occurrence of [o] begins in [t], whatever text follows [t]: at
    every position of [t], what is left of [t] and [o] differ. *)
Fixpoint never_in (o t : string) : bool :=
  match t with
  | "" => true
  | String _ t' => differ o t && never_in o t'
  end.

(** A link written inline: it has a literal text. *)
Definition is_inline (jil : JoplinInternalLink) : bool :=
  PyStr.truthy (jil_outertext jil).

(** The plain texts of a body. *)
Definition texts (ps : list piece) : list string :=
  flat_map (fun p => match p with Text s => [s] | Ref _ => [] end) ps.

(** The literal text of the link is told from the rest: no occurrence
    of it begins in a plain text, in the target-addressed form of a
    link, or in the literal text of another link. *)
Definition literal_apart (is_markdown : bool) (plain : list string)
    (links : list JoplinInternalLink) (jil : JoplinInternalLink) : bool :=
  forallb (never_in (jil_outertext jil)) plain
  && forallb (fun j => never_in (jil_outertext jil) (gen_ilstr is_markdown j)) links
  && forallb (fun j => bool_decide (j = jil)
                       || never_in (jil_outertext jil) (jil_outertext j))
       links.

(** Every link written inline has its literal text told from the
    rest. *)
Definition literals_apart (is_markdown : bool) (plain : list string)
    (links : list JoplinInternalLink) : bool :=
  forallb (fun jil => negb (is_inline jil)
                      || literal_apart is_markdown plain links jil)
    links.

(** The references of a body are links written inline. *)
Definition refs_known (links : list JoplinInternalLink) (ps : list piece) : bool :=
  forallb (fun p => match p with
                    | Text _ => true
                    | Ref jil => is_inline jil && bool_decide (jil ∈ links)
                    end)
    ps.

(** The plain texts of the body are among [plain] and its references
    are links written inline. *)
Definition known (plain : list string) (links : list JoplinInternalLink)
    (ps : list piece) : Prop :=
  Forall (fun p => match p with
                   | Text s => In s plain
                   | Ref j => In j links /\ is_inline j = true
                   end) ps.

(** The fixed texts of the trailing block. *)
Definition scaffold (is_markdown : bool) : list string :=
  if is_markdown then [end_heading_md; "- "; nl]
  else [end_heading_html; "<li>"; "</li>"; "</ul>"].

(** The literal texts that the parser takes from a body, by the
    patterns [RE_OPEN_ATTACHMENT_OUTERHTML], [RE_IMAGE_OUTERHTML] and
    [RE_IMAGE_MARKDOWN]: an anchor on a [wiz:] address, an [img] element
    and a markdown image on a file of [index_files]. *)
Definition wiz_anchor (kind guid name : string) : string :=
  "<a href=" +:+ dq +:+ "wiz://" +:+ kind +:+ "?guid=" +:+ guid +:+ dq +:+ ">"
    +:+ name +:+ "</a>".

Definition wiz_img (file : string) : string :=
  "<img src=" +:+ dq +:+ "index_files/" +:+ file +:+ dq +:+ ">".

Definition wiz_md_img (alt file : string) : string :=
  "![" +:+ alt +:+ "](index_files/" +:+ file +:+ ")".

(** ** Invariants used in the properties *)

(** A computation keeps a property of the state, however it ends. *)
Definition keeps {S A} (P : S -> Prop) (c : M S A) : Prop :=
  forall s, P s -> P (final (c s)).

(** The association list is a dictionary: no key twice; and the chain
    entry stored under a location has that location, as both places
    that fill [l2f_cache] make it. *)
Definition chain_wf (d : list (string * Location2Folder)) : Prop :=
  NoDup (map fst d) /\ Forall (fun kv => l2f_location (snd kv) = fst kv) d.

(** The entry under [k] has no target id yet. *)
Definition unset_at (d : list (string * Location2Folder)) (k : string) : Prop :=
  exists e, PyDict.get k d = Some e /\ l2f_id e = None.

(** With respect to a cache [c0]: the chain and the folders are the
    same, and the notes recorded in [c0] are still recorded. *)
Definition stable (c0 c : ConvertUtil) : Prop :=
  l2f_cache c = l2f_cache c0 /\ folders c = folders c0
  /\ forall k, is_Some (notes c0 !! k) -> is_Some (notes c !! k).

(** The target gives a note the id it was asked for. *)
Definition post_note_echoes {J : Type}
    (post_note :
       J -> string -> string -> string -> bool -> option string ->
       option string -> Z -> Z -> J * result JoplinNote) : Prop :=
  forall j id title body md parent url created updated j' note,
    post_note j id title body md parent url created updated = (j', Ok note) ->
    jn_id note = id.

(** The target gives every folder it creates an id. *)
Definition post_folder_assigns {J : Type}
    (post_folder : J -> string -> option string -> J * result JoplinFolder)
  : Prop :=
  forall j title parent j' folder,
    post_folder j title parent = (j', Ok folder) -> is_Some (jf_id folder).

(** ** Further invariants of the cache *)

(** The table [l2f] holds the chain held in memory, row for entry. *)
Definition l2f_mirror (c : ConvertUtil) : Prop :=
  chain_wf (l2f_cache c)
  /\ forall k, db_l2f c !! k = PyDict.get k (l2f_cache c).

(** The dictionary of the resources holds the rows of the table
    [resource], as [load_resources] leaves them. *)
Definition resources_mirror (c : ConvertUtil) : Prop :=
  resources c = db_resource c.

(** The dictionary of the tags holds the rows of the table [tag], and
    no two rows have one title (the unique index [idx_title]). *)
Definition tags_mirror (c : ConvertUtil) : Prop :=
  tags c = db_tag c
  /\ forall k1 k2 t1 t2,
       db_tag c !! k1 = Some t1 -> db_tag c !! k2 = Some t2 ->
       jt_title t1 = jt_title t2 -> k1 = k2.

(** The integers of a resource, and of a tag, can be bound to a
    statement. *)
Definition resource_fits (jr : JoplinResource) : bool :=
  sqlite_int (jr_created_time jr) && sqlite_int (jr_resource_type jr).

Definition tag_fits (tag : JoplinTag) : bool :=
  sqlite_int (jt_created_time tag) && sqlite_int (jt_updated_time tag).

(** The chain entries of one level, in their order. *)
Definition of_level (n : Z) (l : list Location2Folder) : list Location2Folder :=
  List.filter (fun e => (l2f_level e =? n)%Z) l.

(** ** [ConvertUtil]: the hierarchy resolver *)

(** The cache together with what [convert_l2f] writes besides the
    chain: the largest level met ([folder_max_level]) and the attribute
    [folder] of the documents.  [document.folder] is the chain entry
    itself, the object held in [l2f_cache]: it is modelled by the
    location under which the chain holds it, for the document at each
    position of the list given. *)
Record Resolver := mkResolver {
  rs_cu : ConvertUtil;
  folder_max_level : Z;
  document_folder : gmap nat string
}.

Definition set_rs_cu (f : ConvertUtil -> ConvertUtil) (rs : Resolver) : Resolver :=
  mkResolver (f (rs_cu rs)) (folder_max_level rs) (document_folder rs).

(** The head of [build_location_to_top]: the entry of the location, made
    and written to the table when the chain does not hold one.  The
    dictionary is written before the row is inserted.  The one integer
    bound to the statement is the level, a number of segments of the
    location, which fits the 64 bits of sqlite. *)
Definition lookup_or_create (location : string) : M Resolver Location2Folder :=
  fun rs =>
    match PyDict.get location (l2f_cache (rs_cu rs)) with
    | Some l2f_inst => Ret l2f_inst rs
    | None =>
        let l2f_inst := Location2Folder_of location in
        let rs := set_rs_cu (set_l2f_cache (PyDict.set location l2f_inst)) rs in
        match sql_insert location l2f_inst (db_l2f (rs_cu rs)) with
        | Err e => Raise e rs
        | Ok t => Ret l2f_inst (set_rs_cu (set_db_l2f (fun _ => t)) rs)
        end
    end.

(** The tail of [build_location_to_top]: the reference of the document
    and the largest level. *)
Definition note_entry (location : string) (document : option nat)
    (l2f_inst : Location2Folder) (rs : Resolver) : Resolver :=
  let rs :=
    match document with
    | Some d =>
        mkResolver (rs_cu rs) (folder_max_level rs)
          (<[d := location]> (document_folder rs))
    | None => rs
    end in
  if (folder_max_level rs <? l2f_level l2f_inst)%Z
  then mkResolver (rs_cu rs) (l2f_level l2f_inst) (document_folder rs)
  else rs.

(** [build_location_to_top]: the recursion follows the parent locations;
    [fuel] is the depth the interpreter allows, and running out of it is
    the [RecursionError] of the interpreter. *)
Fixpoint build_location_to_top (fuel : nat) (location : string)
    (document : option nat) : M Resolver unit :=
  match fuel with
  | O => raise (OtherError "RecursionError")
  | S fuel =>
      do l2f_inst <- lookup_or_create location;
      do_ match l2f_parent_location l2f_inst with
          | Some parent_location => build_location_to_top fuel parent_location None
          | None => ret tt
          end;
      modify (note_entry location document l2f_inst)
  end.

(** The chain read back from the table, the first loop of
    [convert_l2f]: a row has a title, so [Location2Folder] takes every
    attribute from the row.  The table is a map by location, so the rows
    come in the order of the keys, not in the order in which sqlite
    returns them: what is proved of the chain read back is about the
    entry found under a location, not about the order of the entries. *)
Definition load_l2f (c : ConvertUtil) : ConvertUtil :=
  set_l2f_cache
    (fun _ =>
       fold_left
         (fun d l2f_item =>
            PyDict.set (fst l2f_item)
              (Location2Folder_init (fst l2f_item)
                 (Some (l2f_title (snd l2f_item)))
                 (l2f_parent_location (snd l2f_item))
                 (l2f_level (snd l2f_item))
                 (l2f_id (snd l2f_item))
                 (l2f_parent_id (snd l2f_item)))
              d)
         (map_to_list (db_l2f c)) [])
    c.

(** [convert_l2f] *)
Definition convert_l2f (fuel : nat) (documents : list WizDocument)
  : M Resolver unit :=
  do_ modify (set_rs_cu load_l2f);
  for_each
    (fun document =>
       build_location_to_top fuel (wd_location (snd document))
         (Some (fst document)))
    (combine (seq 0 (length documents)) documents).

(** The level that [Location2Folder] computes for a location. *)
Definition level_of (location : string) : Z :=
  l2f_level (Location2Folder_of location).

(** An entry has the parent location and the level that
    [Location2Folder] computes from its location. *)
Definition derived (e : Location2Folder) : Prop :=
  l2f_parent_location e = l2f_parent_location (Location2Folder_of (l2f_location e))
  /\ l2f_level e = level_of (l2f_location e).

(** The chain and its table agree, and every entry is derived. *)
Definition resolver_inv (rs : Resolver) : Prop :=
  l2f_mirror (rs_cu rs)
  /\ Forall (fun kv => derived (snd kv)) (l2f_cache (rs_cu rs)).

(** The chain holds an entry for the location and for each of its
    ancestors, up to a top-level folder. *)
Inductive rooted (d : list (string * Location2Folder)) : string -> Prop :=
| rooted_top (location : string) (e : Location2Folder) :
    PyDict.get location d = Some e -> l2f_parent_location e = None ->
    rooted d location
| rooted_child (location parent : string) (e : Location2Folder) :
    PyDict.get location d = Some e -> l2f_parent_location e = Some parent ->
    rooted d parent -> rooted d location.

(** Every entry of [d] is in [d'], as it was. *)
Definition extends (d d' : list (string * Location2Folder)) : Prop :=
  forall k e, PyDict.get k d = Some e -> PyDict.get k d' = Some e.

(** The entries of [d'] that [d] does not hold are as [Location2Folder]
    makes them from their location: they have no id. *)
Definition fresh_entries (d d' : list (string * Location2Folder)) : Prop :=
  forall k e, PyDict.get k d' = Some e -> PyDict.get k d = None ->
              e = Location2Folder_of k.

(** ** The target with the list of the resources it has created

    To speak of the uploads that succeeded, a target is run together
    with the list of the resources that its [create_resource] has
    returned: a request passes to the target as it is, and what
    [create_resource] returns is added to the list. *)

Definition Recording (J : Type) : Type := (J * list JoplinResource)%type.

Definition created {J : Type} (j : Recording J) : list JoplinResource := snd j.

(** The resource that an answer of [create_resource] carries. *)
Definition made_resource (r : result (option JoplinResource)) : list JoplinResource :=
  match r with
  | Ok (Some jr) => [jr]
  | _ => []
  end.

Definition nothing_made {A} (r : result A) : list JoplinResource := [].

Definition recording {J A} (made : result A -> list JoplinResource)
    (f : J -> J * result A) : Recording J -> Recording J * result A :=
  fun j =>
    let '(j', r) := f (fst j) in
    ((j', snd j ++ made r), r).

Section RecordingTarget.

Variable J : Type.
Variable get_resources : J -> J * result (list JoplinResource).
Variable create_resource : J -> CreateArgs -> J * result (option JoplinResource).
Variable post_note :
  J -> string -> string -> string -> bool -> option string -> option string ->
  Z -> Z -> J * result JoplinNote.
Variable path_exists : string -> bool.
Variable open_rb : string -> result string.
Variable basename : string -> string.
Variable get_text : string -> string.

Definition rec_get_resources : Recording J -> Recording J * result (list JoplinResource) :=
  recording nothing_made get_resources.

Definition rec_create_resource (j : Recording J) (args : CreateArgs)
  : Recording J * result (option JoplinResource) :=
  recording made_resource (fun j => create_resource j args) j.

Definition rec_post_note (j : Recording J) (id title body : string)
    (is_markdown : bool) (parent_id url : option string) (created_time updated_time : Z)
  : Recording J * result JoplinNote :=
  recording nothing_made
    (fun j => post_note j id title body is_markdown parent_id url
                created_time updated_time) j.

(** [_sync_note] over the target with its list. *)
Definition rec_sync_note : WizDocument -> M (World (Recording J)) (option JoplinNote) :=
  _sync_note (Recording J) rec_get_resources rec_create_resource rec_post_note
    path_exists open_rb basename get_text.

End RecordingTarget.

(** The resource has a record under its id, in the dictionary and in
    the table. *)
Definition recorded (c : ConvertUtil) (jr : JoplinResource) : Prop :=
  is_Some (resources c !! jr_id jr) /\ is_Some (db_resource c !! jr_id jr).

(** Every resource that the target has created is recorded, and the
    dictionary holds the rows of the table. *)
Definition uploads_recorded {J : Type} (w : World (Recording J)) : Prop :=
  resources_mirror (cu w) /\ Forall (recorded (cu w)) (created (jda w)).

(** The target gives its resources integers of 64 bits. *)
Definition resources_fit {J : Type}
    (create_resource : J -> CreateArgs -> J * result (option JoplinResource))
  : Prop :=
  forall j args j' jr,
    create_resource j args = (j', Ok (Some jr)) -> resource_fits jr = true.

(** * Properties *)

(** ** Strings *)

Module PyStrFacts.
Import PyStr.

Lemma app_assoc (a b c : string) : (a +:+ b) +:+ c = a +:+ (b +:+ c).
Proof. induction a as [|x a IH]; simpl; [reflexivity | f_equal; exact IH]. Qed.

Lemma app_nil_r (a : string) : a +:+ "" = a.
Proof. induction a as [|x a IH]; simpl; [reflexivity | f_equal; exact IH]. Qed.

Lemma length_app (a b : string) :
  String.length (a +:+ b) = (String.length a + String.length b)%nat.
Proof. induction a as [|x a IH]; simpl; [reflexivity | f_equal; exact IH]. Qed.

Lemma take_app (a b : string) : take (String.length a) (a +:+ b) = a.
Proof. induction a as [|x a IH]; simpl; [now destruct b | f_equal; exact IH]. Qed.

Lemma drop_app (a b : string) : drop (String.length a) (a +:+ b) = b.
Proof. induction a as [|x a IH]; simpl; [reflexivity | exact IH]. Qed.

Lemma take_app_len (n : nat) (a b : string) :
  String.length a = n -> take n (a +:+ b) = a.
Proof. intros <-. apply take_app. Qed.

Lemma drop_app_len (n : nat) (a b : string) :
  String.length a = n -> drop n (a +:+ b) = b.
Proof. intros <-. apply drop_app. Qed.

Lemma take_all (a : string) : take (String.length a) a = a.
Proof. rewrite <- (app_nil_r a) at 2. apply take_app. Qed.

(** *** [split] and [join] *)

Lemma split_not_nil (c : ascii) (s : string) : split c s <> [].
Proof.
  induction s as [|x s IH]; simpl; [discriminate|].
  destruct (Ascii.eqb x c); [discriminate|].
  destruct (split c s); [contradiction | discriminate].
Qed.

Lemma split_free (c : ascii) (s : string) :
  sep_free c s = true -> split c s = [s].
Proof.
  induction s as [|x s IH]; simpl; [reflexivity|].
  unfold sep_free; simpl. intros H. apply andb_prop in H as [Hx Hs].
  apply negb_true_iff in Hx. rewrite Hx. unfold sep_free in IH.
  now rewrite (IH Hs).
Qed.

Lemma split_app (c : ascii) (h r : string) :
  sep_free c h = true -> split c (h +:+ String c r) = h :: split c r.
Proof.
  induction h as [|x h IH]; simpl.
  - intros _. now rewrite Ascii.eqb_refl.
  - unfold sep_free; simpl. intros H. apply andb_prop in H as [Hx Hs].
    apply negb_true_iff in Hx. rewrite Hx. unfold sep_free in IH.
    now rewrite (IH Hs).
Qed.

(** Splitting undoes joining when no piece holds the separator. *)
Lemma split_join (c : ascii) (segs : list string) :
  segs <> [] -> Forall (fun s => sep_free c s = true) segs ->
  split c (join (String c "") segs) = segs.
Proof.
  induction segs as [|s segs IH]; [congruence|].
  intros _ Hall. inversion Hall as [|? ? Hs Hrest]; subst.
  destruct segs as [|s' segs].
  - simpl. now apply split_free.
  - change (join (String c "") (s :: s' :: segs))
      with (s +:+ String c (join (String c "") (s' :: segs))).
    rewrite split_app by assumption.
    f_equal. apply IH; [discriminate | assumption].
Qed.

(** Joining undoes splitting, and no piece holds the separator: every
    string is the join of its pieces. *)
Lemma join_split (c : ascii) (s : string) :
  join (String c "") (split c s) = s.
Proof.
  induction s as [|x s IH]; simpl; [reflexivity|].
  destruct (Ascii.eqb_spec x c) as [->|Hne].
  - pose proof (split_not_nil c s) as Hn.
    destruct (split c s) as [|h t]; [contradiction|].
    change (join (String c "") ("" :: h :: t))
      with (String c (join (String c "") (h :: t))).
    now rewrite IH.
  - pose proof (split_not_nil c s) as Hn.
    destruct (split c s) as [|h t]; [contradiction|].
    destruct t as [|h' t]; simpl in *; now rewrite IH.
Qed.

Lemma split_pieces_free (c : ascii) (s : string) :
  Forall (fun p => sep_free c p = true) (split c s).
Proof.
  induction s as [|x s IH]; simpl; [repeat constructor|].
  destruct (Ascii.eqb x c) eqn:E.
  - constructor; [reflexivity | assumption].
  - destruct (split c s) as [|h t]; [repeat constructor; unfold sep_free; simpl; now rewrite E|].
    inversion IH; subst. constructor; [|assumption].
    unfold sep_free in *; simpl. now rewrite E.
Qed.

(** Joining with the empty separator concatenates. *)
Lemma join_empty_cons (x : string) (l : list string) :
  join "" (x :: l) = x +:+ join "" l.
Proof. destruct l; simpl; [now rewrite app_nil_r | reflexivity]. Qed.

(** *** Hexadecimal groups *)

Lemma is_hex_not_hyphen (c : ascii) :
  is_hex c = true -> negb (Ascii.eqb c "-"%char) = true.
Proof.
  intros H. destruct (Ascii.eqb_spec c "-"%char) as [->|]; [|reflexivity].
  discriminate H.
Qed.

Lemma hex_group_spec (n : nat) (s r : string) :
  hex_group n s = Some r ->
  exists h, s = h +:+ r /\ String.length h = n /\ sep_free "-"%char h = true.
Proof.
  revert s. induction n as [|n IH]; intros s H; simpl in H.
  - exists "". inversion H; subst. repeat split.
  - destruct s as [|c s]; [discriminate|].
    destruct (is_hex c) eqn:Hc; [|discriminate].
    destruct (IH _ H) as (h & -> & Hl & Hf).
    exists (String c h). simpl. repeat split; [now rewrite Hl|].
    unfold sep_free in *; simpl. now rewrite (is_hex_not_hyphen _ Hc).
Qed.

(** *** [replace] and occurrences *)

Lemma prefix_cons_eq (a : ascii) (s1 s2 : string) :
  String.prefix (String a s1) (String a s2) = String.prefix s1 s2.
Proof. simpl. destruct (ascii_dec a a); [reflexivity | congruence]. Qed.

Lemma prefix_cons_ne (a b : ascii) (s1 s2 : string) :
  a <> b -> String.prefix (String a s1) (String b s2) = false.
Proof. intros H. simpl. destruct (ascii_dec a b); [congruence | reflexivity]. Qed.

Lemma prefix_nil (s : string) : String.prefix "" s = true.
Proof. now destruct s. Qed.

Lemma prefix_app_self (o r : string) : String.prefix o (o +:+ r) = true.
Proof.
  induction o as [|a o IH]; [apply prefix_nil|].
  simpl append. now rewrite prefix_cons_eq.
Qed.

Lemma drop_nil (k : nat) : drop k "" = "".
Proof. now destruct k. Qed.

Lemma replace_go_skip (o g a r : string) :
  replace_go o g (String.length a) (a +:+ r) = replace_go o g 0 r.
Proof. induction a as [|x a IH]; simpl; [reflexivity | exact IH]. Qed.

(** An occurrence at the front is replaced and the scan goes on behind it. *)
Lemma replace_go_hit (c : ascii) (o' g r : string) :
  replace_go (String c o') g 0 (String c o' +:+ r)
  = g +:+ replace_go (String c o') g 0 r.
Proof.
  simpl append.
  change (replace_go (String c o') g 0 (String c (o' +:+ r)))
    with (if String.prefix (String c o') (String c (o' +:+ r))
          then g +:+ replace_go (String c o') g (String.length (String c o') - 1)
                      (o' +:+ r)
          else String c (replace_go (String c o') g 0 (o' +:+ r))).
  rewrite prefix_cons_eq, prefix_app_self.
  replace (String.length (String c o') - 1)%nat with (String.length o')
    by (simpl; lia).
  now rewrite replace_go_skip.
Qed.

Lemma clean_tail (o : string) (x : ascii) (t r : string) :
  clean o (String x t) r -> clean o t r.
Proof. intros H k Hk. apply (H (S k)). simpl. lia. Qed.

(** A stretch where no occurrence starts is passed unchanged. *)
Lemma replace_go_pass (o g t r : string) :
  clean o t r -> replace_go o g 0 (t +:+ r) = t +:+ replace_go o g 0 r.
Proof.
  induction t as [|x t IH]; intros H; [reflexivity|].
  simpl append.
  change (replace_go o g 0 (String x (t +:+ r)))
    with (if String.prefix o (String x (t +:+ r))
          then g +:+ replace_go o g (String.length o - 1) (t +:+ r)
          else String x (replace_go o g 0 (t +:+ r))).
  assert (H0 : String.prefix o (String x (t +:+ r)) = false)
    by (apply (H 0%nat); simpl; lia).
  rewrite H0.
  f_equal. apply IH. eapply clean_tail, H.
Qed.

Lemma occursb_drop (o s : string) (k : nat) :
  occursb o s = false -> String.prefix o (drop k s) = false.
Proof.
  revert k. induction s as [|x s IH]; intros k H.
  - rewrite drop_nil. simpl in H. now apply orb_false_elim in H as [H _].
  - simpl in H. apply orb_false_elim in H as [H1 H2].
    destruct k; simpl; [exact H1 | now apply IH].
Qed.

(** Without an occurrence, [replace] changes nothing. *)
Lemma replace_absent (s o g : string) :
  o <> "" -> occursb o s = false -> replace s o g = s.
Proof.
  intros Hne H. unfold replace. destruct o as [|c o']; [congruence|].
  rewrite <- (app_nil_r s) at 1.
  rewrite replace_go_pass; [simpl; apply app_nil_r|].
  intros k _. rewrite app_nil_r. now apply occursb_drop.
Qed.

(** *** Texts told apart *)

(** Texts that differ at a position that both have: the one is not at
    the beginning of the other, whatever follows. *)
Lemma differ_prefix (o t r : string) :
  differ o t = true -> String.prefix o (t +:+ r) = false.
Proof.
  revert t. induction o as [|a o IH]; intros t H; [discriminate|].
  destruct t as [|b t]; [discriminate|].
  cbn [differ] in H. simpl append.
  destruct (Ascii.eqb_spec a b) as [->|Hne].
  - rewrite prefix_cons_eq. now apply IH.
  - now apply prefix_cons_ne.
Qed.

Lemma never_in_clean (o t r : string) : never_in o t = true -> clean o t r.
Proof.
  induction t as [|x t IH]; intros H k Hk; [simpl in Hk; lia|].
  cbn [never_in] in H. apply andb_prop in H as [Hd Ht].
  destruct k as [|k].
  - now apply differ_prefix.
  - simpl drop. apply IH; [exact Ht | simpl in Hk; lia].
Qed.

(** A text other than the empty one, told from a text, is another text. *)
Lemma never_in_ne (o : string) : o <> "" -> never_in o o = false.
Proof.
  destruct o as [|c o]; [congruence|]. intros _.
  cbn [never_in]. replace (differ (String c o) (String c o)) with false;
    [reflexivity|].
  symmetry. generalize (String c o). intros t.
  induction t as [|x t IH]; [reflexivity|].
  cbn [differ]. now rewrite Ascii.eqb_refl.
Qed.

(** Where no occurrence begins there is none to find. *)
Lemma clean_occursb (o t r : string) :
  clean o t r -> occursb o (t +:+ r) = occursb o r.
Proof.
  induction t as [|x t IH]; intros H; [reflexivity|].
  simpl append. cbn [occursb].
  assert (H0 : String.prefix o (String x (t +:+ r)) = false)
    by (apply (H 0%nat); simpl; lia).
  rewrite H0. cbn [orb]. apply IH. eapply clean_tail, H.
Qed.

Section Literals.

Variable lit : ascii -> bool.

Lemma occursb_no_lit (c : ascii) (o' s : string) :
  lit c = true -> lit_free lit s = true -> occursb (String c o') s = false.
Proof.
  intros Hc. induction s as [|x s IH]; intros Hs; [reflexivity|].
  unfold lit_free in Hs; simpl in Hs. apply andb_prop in Hs as [Hx Hs].
  cbn [occursb]. rewrite (IH Hs), orb_false_r.
  apply prefix_cons_ne. intros ->. rewrite Hc in Hx. discriminate.
Qed.

End Literals.

End PyStrFacts.

(** ** Identifier conversion and location decomposition *)

Module IdentFacts.
Import PyStr PyStrFacts.

(** The four hyphens split a guid into its five groups, and joining on
    the empty string concatenates them. *)
Lemma tojoplinid_groups (h1 h2 h3 h4 h5 : string) :
  sep_free "-"%char h1 = true -> sep_free "-"%char h2 = true ->
  sep_free "-"%char h3 = true -> sep_free "-"%char h4 = true ->
  sep_free "-"%char h5 = true ->
  tojoplinid (h1 +:+ String "-" (h2 +:+ String "-" (h3 +:+ String "-"
                (h4 +:+ String "-" h5))))
  = h1 +:+ h2 +:+ h3 +:+ h4 +:+ h5.
Proof.
  intros F1 F2 F3 F4 F5. unfold tojoplinid.
  rewrite !split_app by assumption. rewrite (split_free _ _ F5).
  rewrite !join_empty_cons. simpl. now rewrite app_nil_r.
Qed.

(** The slices of [towizid] cut a 32-character id at 8, 12, 16 and 20. *)
Lemma towizid_groups (h1 h2 h3 h4 h5 : string) :
  String.length h1 = 8%nat -> String.length h2 = 4%nat ->
  String.length h3 = 4%nat -> String.length h4 = 4%nat ->
  towizid (h1 +:+ h2 +:+ h3 +:+ h4 +:+ h5)
  = h1 +:+ String "-" (h2 +:+ String "-" (h3 +:+ String "-"
                (h4 +:+ String "-" h5))).
Proof.
  intros L1 L2 L3 L4. unfold towizid, slice.
  assert (D8 : drop 8 (h1 +:+ h2 +:+ h3 +:+ h4 +:+ h5) = h2 +:+ h3 +:+ h4 +:+ h5)
    by now apply drop_app_len.
  assert (D12 : drop 12 (h1 +:+ h2 +:+ h3 +:+ h4 +:+ h5) = h3 +:+ h4 +:+ h5).
  { rewrite <- app_assoc. apply drop_app_len. rewrite length_app. lia. }
  assert (D16 : drop 16 (h1 +:+ h2 +:+ h3 +:+ h4 +:+ h5) = h4 +:+ h5).
  { rewrite <- 2!app_assoc. apply drop_app_len. rewrite !length_app. lia. }
  assert (D20 : drop 20 (h1 +:+ h2 +:+ h3 +:+ h4 +:+ h5) = h5).
  { rewrite <- 3!app_assoc. apply drop_app_len. rewrite !length_app. lia. }
  rewrite D8, D12, D16, D20.
  change (drop 0 ?s) with s.
  replace (take (8 - 0) (h1 +:+ h2 +:+ h3 +:+ h4 +:+ h5)) with h1
    by (symmetry; now apply take_app_len).
  replace (take (12 - 8) (h2 +:+ h3 +:+ h4 +:+ h5)) with h2
    by (symmetry; now apply take_app_len).
  replace (take (16 - 12) (h3 +:+ h4 +:+ h5)) with h3
    by (symmetry; now apply take_app_len).
  replace (take (20 - 16) (h4 +:+ h5)) with h4
    by (symmetry; now apply take_app_len).
  reflexivity.
Qed.

(** A canonical guid is five hyphen-free groups of 8, 4, 4, 4 and 12
    characters with a hyphen between two groups. *)
Lemma canonical_groups (guid : string) :
  is_canonical_uuid guid = true ->
  exists h1 h2 h3 h4 h5,
    guid = h1 +:+ String "-" (h2 +:+ String "-" (h3 +:+ String "-"
              (h4 +:+ String "-" h5)))
    /\ String.length h1 = 8%nat /\ String.length h2 = 4%nat
    /\ String.length h3 = 4%nat /\ String.length h4 = 4%nat
    /\ String.length h5 = 12%nat
    /\ sep_free "-"%char h1 = true /\ sep_free "-"%char h2 = true
    /\ sep_free "-"%char h3 = true /\ sep_free "-"%char h4 = true
    /\ sep_free "-"%char h5 = true.
Proof.
  unfold is_canonical_uuid. intros H.
  cbn [hex_groups] in H.
  destruct (hex_group 8 guid) as [[|c1 r1]|] eqn:G1; try discriminate.
  apply andb_prop in H as [E1 H]. apply Ascii.eqb_eq in E1; subst c1.
  destruct (hex_group 4 r1) as [[|c2 r2]|] eqn:G2; try discriminate.
  apply andb_prop in H as [E2 H]. apply Ascii.eqb_eq in E2; subst c2.
  destruct (hex_group 4 r2) as [[|c3 r3]|] eqn:G3; try discriminate.
  apply andb_prop in H as [E3 H]. apply Ascii.eqb_eq in E3; subst c3.
  destruct (hex_group 4 r3) as [[|c4 r4]|] eqn:G4; try discriminate.
  apply andb_prop in H as [E4 H]. apply Ascii.eqb_eq in E4; subst c4.
  destruct (hex_group 12 r4) as [[|c5 r5]|] eqn:G5; try discriminate.
  apply hex_group_spec in G1 as (h1 & -> & L1 & F1).
  apply hex_group_spec in G2 as (h2 & -> & L2 & F2).
  apply hex_group_spec in G3 as (h3 & -> & L3 & F3).
  apply hex_group_spec in G4 as (h4 & -> & L4 & F4).
  apply hex_group_spec in G5 as (h5 & -> & L5 & F5).
  exists h1, h2, h3, h4, h5. rewrite (app_nil_r h5).
  repeat split; assumption.
Qed.

(** C3. Identifier round trip: for every canonical hyphen-delimited UUID
    text (hexadecimal groups of 8, 4, 4, 4 and 12 characters), taking the
    hyphens out with [tojoplinid] and putting them back with [towizid] at
    the offsets 8, 12, 16 and 20 gives the original text. *)
Theorem towizid_tojoplinid_roundtrip (guid : string) :
  is_canonical_uuid guid = true -> towizid (tojoplinid guid) = guid.
Proof.
  intros H.
  destruct (canonical_groups guid H)
    as (h1 & h2 & h3 & h4 & h5 & -> & L1 & L2 & L3 & L4 & _ & F1 & F2 & F3 & F4 & F5).
  rewrite tojoplinid_groups by assumption.
  now apply towizid_groups.
Qed.

Lemma towizid_tojoplinid_roundtrip_witness :
  is_canonical_uuid "8337764c-f89d-4267-bdf2-2e26ff156098" = true
  /\ towizid (tojoplinid "8337764c-f89d-4267-bdf2-2e26ff156098")
     = "8337764c-f89d-4267-bdf2-2e26ff156098".
Proof.
  split; [reflexivity|].
  apply (towizid_tojoplinid_roundtrip "8337764c-f89d-4267-bdf2-2e26ff156098").
  reflexivity.
Defined.

(** The converted id of a canonical guid is its 32 hexadecimal digits. *)
Lemma tojoplinid_length (guid : string) :
  is_canonical_uuid guid = true -> String.length (tojoplinid guid) = 32%nat.
Proof.
  intros H.
  destruct (canonical_groups guid H)
    as (h1 & h2 & h3 & h4 & h5 & -> & L1 & L2 & L3 & L4 & L5 & F1 & F2 & F3 & F4 & F5).
  rewrite tojoplinid_groups by assumption.
  rewrite !length_app. lia.
Qed.

(** *** Location decomposition *)

(** [location[1:-1]] takes the delimiters off a wrapped location. *)
Lemma slice_wrapped (a b : ascii) (inner : string) :
  slice_1_m1 (String a (inner +:+ String b "")) = inner.
Proof.
  unfold slice_1_m1, slice. simpl String.length. rewrite length_app. simpl.
  replace (String.length inner + 1 - 0 - 1)%nat with (String.length inner) by lia.
  apply take_app.
Qed.

Lemma last_cons_ne (x : string) (l : list string) :
  l <> [] -> List.last (x :: l) "" = List.last l "".
Proof. destruct l; [congruence | reflexivity]. Qed.

(** C10. Location decomposition: for every location made of the segments
    [segs] (at least one, none holding the delimiter) joined by the
    delimiter and wrapped in it, the chain entry built from the location
    has the last segment as title, the number of segments as level, and
    as parent location the wrapped join of all segments but the last when
    there are at least two segments, and none when there is one. *)
Theorem location_decomposition (segs : list string) :
  segs <> [] ->
  Forall (fun s => sep_free "/"%char s = true) segs ->
  let e := Location2Folder_of ("/" +:+ join "/" segs +:+ "/") in
  l2f_location e = "/" +:+ join "/" segs +:+ "/"
  /\ l2f_title e = List.last segs ""
  /\ l2f_level e = Z.of_nat (length segs)
  /\ l2f_parent_location e =
       (if (2 <=? length segs)%nat
        then Some ("/" +:+ join "/" (removelast segs) +:+ "/")
        else None)
  /\ l2f_id e = None /\ l2f_parent_id e = None.
Proof.
  intros Hne Hall e. subst e.
  unfold Location2Folder_of, Location2Folder_init.
  change ("/" +:+ join "/" segs +:+ "/")
    with (String "/" (join "/" segs +:+ String "/" "")).
  rewrite slice_wrapped.
  rewrite (split_join "/"%char segs Hne Hall). cbn [l2f_location l2f_title
    l2f_level l2f_parent_location l2f_id l2f_parent_id].
  repeat split.
  destruct segs as [|s [|s' segs]]; [congruence | reflexivity |].
  replace (1 <? Z.of_nat (length (s :: s' :: segs)))%Z with true
    by (symmetry; apply Z.ltb_lt; simpl length; lia).
  reflexivity.
Qed.

Lemma location_decomposition_witness :
  let e := Location2Folder_of "/Work/Projects/" in
  l2f_location e = "/Work/Projects/"
  /\ l2f_title e = "Projects"
  /\ l2f_level e = 2%Z
  /\ l2f_parent_location e = Some "/Work/"
  /\ l2f_id e = None /\ l2f_parent_id e = None.
Proof.
  apply (location_decomposition ["Work"; "Projects"]).
  - discriminate.
  - repeat constructor.
Defined.

(** Every wrapped location is covered: what is between the delimiters is
    the join of its segments, none of which holds the delimiter. *)
Lemma location_segments (inner : string) :
  let segs := split "/"%char inner in
  segs <> [] /\ Forall (fun s => sep_free "/"%char s = true) segs
  /\ "/" +:+ join "/" segs +:+ "/" = "/" +:+ inner +:+ "/".
Proof.
  repeat split.
  - apply split_not_nil.
  - apply split_pieces_free.
  - now rewrite (join_split "/"%char inner).
Qed.

End IdentFacts.

(** ** The link rewriter *)

Module RewriterFacts.
Import PyStr PyStrFacts.

Lemma join_empty_concat (l : list string) : join "" l = concat_str l.
Proof.
  induction l as [|x l IH]; [reflexivity|].
  rewrite join_empty_cons, IH. reflexivity.
Qed.

(** The loop of [convert_joplin_body] does two independent things: it
    rewrites the body and it collects the attachment links. *)
Lemma convert_fold (md : bool) (links acc : list JoplinInternalLink) (b : string) :
  fold_left (convert_step md) links (b, acc)
  = (rewrite_body md links b, acc ++ attachment_links links).
Proof.
  revert b acc. induction links as [|jil links IH]; intros b acc.
  - simpl. now rewrite List.app_nil_r.
  - cbn [fold_left].
    destruct (convert_step md (b, acc) jil) as [b' acc'] eqn:E.
    rewrite IH. unfold convert_step in E. injection E as <- <-.
    unfold rewrite_body, attachment_links. cbn [fold_left List.filter].
    f_equal. unfold is_attachment.
    destruct (String.eqb (jil_link_type jil) "open_attachment");
      [now rewrite <- List.app_assoc | reflexivity].
Qed.

Lemma gen_end_ilstr_trailing (md : bool) (entries : list JoplinInternalLink) :
  entries <> [] -> gen_end_ilstr md entries = trailing_block md entries.
Proof.
  intros Hne. destruct entries as [|e entries]; [congruence|].
  unfold gen_end_ilstr, trailing_block.
  destruct md; [reflexivity|]. now rewrite join_empty_concat.
Qed.

(** [convert_joplin_body] is the rewritten body, normalised for a
    markdown note, followed by the trailing block of the attachments. *)
Lemma convert_joplin_body_eq (get_text : string -> string) (body : string)
    (md : bool) (links : list JoplinInternalLink) :
  convert_joplin_body get_text body md links
  = normalise get_text md (rewrite_body md links body)
      +:+ trailing_block md (attachment_links links).
Proof.
  unfold convert_joplin_body. rewrite convert_fold. simpl app.
  unfold normalise.
  destruct (attachment_links links) as [|e entries] eqn:E.
  - simpl. now rewrite app_nil_r.
  - now rewrite gen_end_ilstr_trailing.
Qed.

Lemma count_occ_filter (links : list JoplinInternalLink) (jil : JoplinInternalLink) :
  is_attachment jil = true ->
  count_occ JoplinInternalLink_eq_dec (attachment_links links) jil
  = count_occ JoplinInternalLink_eq_dec links jil.
Proof.
  intros H. induction links as [|x links IH]; [reflexivity|].
  unfold attachment_links in *. simpl.
  destruct (JoplinInternalLink_eq_dec x jil) as [->|Hne].
  - rewrite H. simpl. destruct (JoplinInternalLink_eq_dec jil jil); [|congruence].
    now rewrite IH.
  - destruct (is_attachment x); [|exact IH].
    simpl. destruct (JoplinInternalLink_eq_dec x jil); [congruence | exact IH].
Qed.

(** C4, as the source has it.  Every link of kind [open_attachment],
    whether its literal text was replaced inline or never occurred in the
    body, is put exactly once, in the order of the links, as an entry of
    one trailing block under the fixed heading; a link of another kind is
    never put there.  The block comes once, after all substitutions and
    after the normalisation of a markdown note, and only when there is an
    entry, be it a single one.  A link whose literal text does not occur
    in the body leaves the body as it was. *)
Theorem trailing_block_holds_every_attachment (get_text : string -> string)
    (body : string) (md : bool) (links : list JoplinInternalLink) :
  convert_joplin_body get_text body md links
  = normalise get_text md (rewrite_body md links body)
      +:+ trailing_block md (attachment_links links)
  /\ (forall jil, is_attachment jil = true ->
        count_occ JoplinInternalLink_eq_dec (attachment_links links) jil
        = count_occ JoplinInternalLink_eq_dec links jil)
  /\ (forall jil, is_attachment jil = false -> ~ In jil (attachment_links links))
  /\ (forall jil, occursb (jil_outertext jil) body = false ->
        rewrite_body md [jil] body = body)
  /\ (forall jil, trailing_block false [jil]
        = end_heading_html +:+ "<li>" +:+ gen_ilstr false jil +:+ "</li></ul>")
  /\ (forall jil, trailing_block true [jil]
        = end_heading_md +:+ "- " +:+ gen_ilstr true jil).
Proof.
  split; [apply convert_joplin_body_eq|].
  split; [intros jil; apply count_occ_filter|].
  split.
  { intros jil Hj Hin. unfold attachment_links in Hin.
    apply List.filter_In in Hin as [_ Hin]. congruence. }
  split.
  { intros jil Hocc. unfold rewrite_body. simpl.
    destruct (jil_outertext jil) as [|c o] eqn:E; [reflexivity|].
    simpl truthy. cbv iota. apply replace_absent; [discriminate | exact Hocc]. }
  split.
  - intros jil. unfold trailing_block, concat_str. simpl.
    now rewrite !app_assoc.
  - intros jil. reflexivity.
Qed.

(** An attachment link written inline is replaced in the body and is an
    entry of the trailing block all the same. *)
Lemma inline_attachment_is_also_trailing :
  let jil := mkJIL "n1" "r1" "report.pdf" "open_attachment" "LINK" in
  occursb (jil_outertext jil) "see LINK here" = true
  /\ convert_joplin_body (fun s => s) "see LINK here" false [jil]
     = "see " +:+ gen_ilstr false jil +:+ " here"
       +:+ end_heading_html +:+ "<li>" +:+ gen_ilstr false jil +:+ "</li></ul>".
Proof. split; reflexivity. Qed.

(** *** Substitution of the inline references *)

Lemma concat_str_app (l1 l2 : list string) :
  concat_str (l1 ++ l2) = concat_str l1 +:+ concat_str l2.
Proof.
  induction l1 as [|x l1 IH]; [reflexivity|].
  cbn [List.app concat_str fold_right]. fold (concat_str (l1 ++ l2)).
  fold (concat_str l1). now rewrite IH, app_assoc.
Qed.

Lemma render_stage_cons (done : string -> bool) (md : bool) (p : piece)
    (ps : list piece) :
  render_stage done md (p :: ps) = stage_text done md p +:+ render_stage done md ps.
Proof. reflexivity. Qed.

(** Two stages agree when they agree on the literal texts of the
    references. *)
Lemma render_stage_ext (done done' : string -> bool) (md : bool) (ps : list piece) :
  (forall j, In (Ref j) ps -> done (jil_outertext j) = done' (jil_outertext j)) ->
  render_stage done md ps = render_stage done' md ps.
Proof.
  induction ps as [|p ps IH]; intros H; [reflexivity|].
  rewrite !render_stage_cons, IH by (intros j Hj; apply H; now right).
  f_equal. destruct p as [s|j]; [reflexivity|].
  cbn [stage_text]. now rewrite (H j (or_introl eq_refl)).
Qed.

Lemma rewrite_body_cons (md : bool) (jil : JoplinInternalLink)
    (todo : list JoplinInternalLink) (b : string) :
  rewrite_body md (jil :: todo) b
  = rewrite_body md todo
      (if truthy (jil_outertext jil)
       then replace b (jil_outertext jil) (gen_ilstr md jil)
       else b).
Proof. reflexivity. Qed.

Lemma texts_in (s : string) (ps : list piece) : In (Text s) ps -> In s (texts ps).
Proof.
  intros H. unfold texts. apply in_flat_map. exists (Text s).
  split; [exact H | now left].
Qed.

Lemma literals_apart_app (md : bool) (plain1 plain2 : list string)
    (links : list JoplinInternalLink) :
  literals_apart md plain1 links = true ->
  literals_apart md plain2 links = true ->
  literals_apart md (plain1 ++ plain2) links = true.
Proof.
  unfold literals_apart. rewrite !forallb_forall. intros H1 H2 jil Hin.
  specialize (H1 jil Hin). specialize (H2 jil Hin).
  destruct (is_inline jil); [|reflexivity]. cbn [negb orb] in *.
  unfold literal_apart in *.
  apply andb_prop in H1 as [H1 H1c]. apply andb_prop in H1 as [H1a H1b].
  apply andb_prop in H2 as [H2 _]. apply andb_prop in H2 as [H2a _].
  now rewrite forallb_app, H1a, H2a, H1b, H1c.
Qed.

Section Substitution.

Variable md : bool.
Variable plain : list string.
Variable links : list JoplinInternalLink.
Hypothesis links_apart : literals_apart md plain links = true.

Lemma literal_apart_in (jil : JoplinInternalLink) :
  In jil links -> is_inline jil = true -> literal_apart md plain links jil = true.
Proof.
  intros Hin Hi. unfold literals_apart in links_apart.
  rewrite forallb_forall in links_apart. specialize (links_apart jil Hin).
  now rewrite Hi in links_apart.
Qed.

(** No occurrence of the literal text begins in a plain text. *)
Lemma apart_text (jil : JoplinInternalLink) (s r : string) :
  In jil links -> is_inline jil = true -> In s plain ->
  clean (jil_outertext jil) s r.
Proof.
  intros Hin Hi Hs. pose proof (literal_apart_in jil Hin Hi) as H.
  unfold literal_apart in H. apply andb_prop in H as [H _].
  apply andb_prop in H as [H _]. rewrite forallb_forall in H.
  now apply never_in_clean, H.
Qed.

(** Nor in a target-addressed form. *)
Lemma apart_form (jil j : JoplinInternalLink) (r : string) :
  In jil links -> is_inline jil = true -> In j links ->
  clean (jil_outertext jil) (gen_ilstr md j) r.
Proof.
  intros Hin Hi Hj. pose proof (literal_apart_in jil Hin Hi) as H.
  unfold literal_apart in H. apply andb_prop in H as [H _].
  apply andb_prop in H as [_ H]. rewrite forallb_forall in H.
  now apply never_in_clean, H.
Qed.

Lemma apart_other (jil j : JoplinInternalLink) :
  In jil links -> is_inline jil = true -> In j links -> j <> jil ->
  never_in (jil_outertext jil) (jil_outertext j) = true.
Proof.
  intros Hin Hi Hj Hne. pose proof (literal_apart_in jil Hin Hi) as H.
  unfold literal_apart in H. apply andb_prop in H as [_ H].
  rewrite forallb_forall in H. specialize (H j Hj).
  apply orb_prop in H as [H|H]; [|exact H].
  apply bool_decide_eq_true in H. contradiction.
Qed.

(** Two links written inline with one literal text are one link. *)
Lemma same_literal (jil j : JoplinInternalLink) :
  In jil links -> is_inline jil = true -> In j links ->
  jil_outertext j = jil_outertext jil -> j = jil.
Proof.
  intros Hin Hi Hj Heq. destruct (decide (j = jil)) as [E|Hne]; [exact E|].
  pose proof (apart_other jil j Hin Hi Hj Hne) as H.
  rewrite Heq, never_in_ne in H; [discriminate|].
  intros E. unfold is_inline in Hi. now rewrite E in Hi.
Qed.

(** One substitution: the references with the literal text of the link
    pass to their target-addressed form, and nothing else changes. *)
Lemma replace_stage (jil : JoplinInternalLink) (done : string -> bool)
    (ps : list piece) :
  In jil links -> is_inline jil = true -> known plain links ps ->
  replace (render_stage done md ps) (jil_outertext jil) (gen_ilstr md jil)
  = render_stage (fun x => done x || String.eqb x (jil_outertext jil)) md ps.
Proof.
  intros Hin Hi Hps.
  assert (Ct : forall s r, In s plain -> clean (jil_outertext jil) s r)
    by (intros; now apply apart_text).
  assert (Cf : forall j r, In j links ->
                           clean (jil_outertext jil) (gen_ilstr md j) r)
    by (intros; now apply apart_form).
  assert (Cl : forall j r, In j links -> j <> jil ->
                           clean (jil_outertext jil) (jil_outertext j) r)
    by (intros; now apply never_in_clean, apart_other).
  assert (Cs : forall j, In j links -> jil_outertext j = jil_outertext jil ->
                         j = jil)
    by (intros; now apply same_literal).
  unfold is_inline in Hi.
  destruct (jil_outertext jil) as [|c o'] eqn:Eo; [discriminate|].
  unfold replace.
  induction Hps as [|p ps Hp Hps IH]; [reflexivity|].
  rewrite !render_stage_cons. destruct p as [s|j].
  - cbn [stage_text]. rewrite replace_go_pass by now apply Ct.
    now rewrite IH.
  - destruct Hp as [Hj Hji]. cbn [stage_text].
    destruct (done (jil_outertext j)) eqn:D; cbn [orb].
    + rewrite replace_go_pass by now apply Cf. now rewrite IH.
    + destruct (String.eqb_spec (jil_outertext j) (String c o')) as [E|E].
      * rewrite (Cs j Hj E), Eo, replace_go_hit. now rewrite IH.
      * rewrite replace_go_pass; [now rewrite IH|].
        apply Cl; [exact Hj|]. intros ->. congruence.
Qed.

(** All the substitutions, one link after the other. *)
Lemma rewrite_stage (todo : list JoplinInternalLink) (done : string -> bool)
    (ps : list piece) :
  (forall jil, In jil todo -> In jil links) -> known plain links ps ->
  rewrite_body md todo (render_stage done md ps)
  = render_stage
      (fun x => done x || existsb (String.eqb x) (map jil_outertext todo)) md ps.
Proof.
  revert done. induction todo as [|jil todo IH]; intros done Hsub Hps.
  - apply render_stage_ext. intros j _. simpl. now rewrite orb_false_r.
  - rewrite rewrite_body_cons.
    destruct (truthy (jil_outertext jil)) eqn:Hi.
    + rewrite replace_stage by (auto using in_eq).
      rewrite IH by (auto using in_cons).
      apply render_stage_ext. intros j _. simpl. now rewrite orb_assoc.
    + rewrite IH by (auto using in_cons).
      apply render_stage_ext. intros j Hj. simpl.
      replace (String.eqb (jil_outertext j) (jil_outertext jil)) with false;
        [reflexivity|].
      symmetry. apply String.eqb_neq. intros E.
      unfold known in Hps. rewrite List.Forall_forall in Hps.
      destruct (Hps _ Hj) as [_ Hji]. unfold is_inline in Hji. congruence.
Qed.

Lemma render_stage_none (ps : list piece) :
  render_stage (fun _ => false) md ps = render_source ps.
Proof.
  induction ps as [|p ps IH]; [reflexivity|].
  rewrite render_stage_cons, IH. now destruct p.
Qed.

Lemma render_stage_all (ps : list piece) :
  known plain links ps ->
  render_stage (fun x => false || existsb (String.eqb x) (map jil_outertext links))
    md ps
  = render_target md ps.
Proof.
  induction 1 as [|p ps Hp Hps IH]; [reflexivity|].
  rewrite render_stage_cons, IH.
  change (render_target md (p :: ps))
    with (target_text md p +:+ render_target md ps).
  f_equal.
  destruct p as [s|j]; [reflexivity|]. destruct Hp as [Hj _].
  cbn [stage_text target_text orb].
  replace (existsb (String.eqb (jil_outertext j)) (map jil_outertext links))
    with true; [reflexivity|].
  symmetry. apply existsb_exists. exists (jil_outertext j).
  split; [now apply in_map | apply String.eqb_refl].
Qed.

(** A text put together from plain texts and target-addressed forms has
    no occurrence of a literal text. *)
Lemma no_occurrence (jil : JoplinInternalLink) (xs : list string) :
  In jil links -> is_inline jil = true ->
  Forall (fun x => In x plain \/ exists j, In j links /\ x = gen_ilstr md j) xs ->
  occursb (jil_outertext jil) (concat_str xs) = false.
Proof.
  intros Hin Hi Hxs. induction Hxs as [|x xs Hx Hxs IH].
  - unfold is_inline in Hi. now destruct (jil_outertext jil).
  - cbn [concat_str fold_right]. fold (concat_str xs).
    rewrite clean_occursb; [exact IH|].
    destruct Hx as [Hx|(j & Hj & ->)];
      [now apply apart_text | now apply apart_form].
Qed.

Lemma render_target_pieces (ps : list piece) :
  known plain links ps ->
  Forall (fun x => In x plain \/ exists j, In j links /\ x = gen_ilstr md j)
    (map (target_text md) ps).
Proof.
  induction 1 as [|p ps Hp Hps IH]; [constructor|].
  cbn [map]. constructor; [|exact IH].
  destruct p as [s|j]; [now left|]. right. exists j. now split.
Qed.

End Substitution.

(** The trailing block, piece by piece: fixed texts and
    target-addressed forms. *)
Lemma trailing_block_pieces (md : bool) (entries : list JoplinInternalLink) :
  exists xs,
    trailing_block md entries = concat_str xs
    /\ Forall (fun x => In x (scaffold md)
                        \/ exists j, In j entries /\ x = gen_ilstr md j) xs.
Proof.
  destruct entries as [|e entries]; [exists []; split; [reflexivity|constructor]|].
  unfold trailing_block. destruct md.
  - assert (H : forall e entries,
               exists xs,
                 join nl (map (fun jil => "- " +:+ gen_ilstr true jil) (e :: entries))
                 = concat_str xs
                 /\ Forall (fun x => In x (scaffold true)
                                     \/ exists j, In j (e :: entries)
                                                  /\ x = gen_ilstr true j) xs).
    { clear. intros e entries. revert e.
      induction entries as [|e' entries IH]; intros e.
      - exists ["- "; gen_ilstr true e]. split.
        + cbn. now rewrite !app_nil_r.
        + constructor; [left; cbn; tauto|].
          constructor; [|constructor]. right. exists e. split; [now left|reflexivity].
      - destruct (IH e') as (xs & Hxs & Hall).
        exists ("- " :: gen_ilstr true e :: nl :: xs). split.
        + change (map (fun jil => "- " +:+ gen_ilstr true jil) (e :: e' :: entries))
            with (("- " +:+ gen_ilstr true e)
                    :: map (fun jil => "- " +:+ gen_ilstr true jil) (e' :: entries)).
          change (join nl (?x :: map ?f (e' :: entries)))
            with (x +:+ nl +:+ join nl (map f (e' :: entries))).
          rewrite Hxs. cbn [concat_str fold_right]. now rewrite !app_assoc.
        + constructor; [left; cbn; tauto|].
          constructor; [right; exists e; split; [now left|reflexivity]|].
          constructor; [left; cbn; tauto|].
          eapply Forall_impl; [exact Hall|].
          intros x [Hx|(j & Hj & ->)]; [now left|].
          right. exists j. split; [now right | reflexivity]. }
    destruct (H e entries) as (xs & Hxs & Hall).
    exists (end_heading_md :: xs). split.
    + rewrite Hxs. reflexivity.
    + constructor; [left; cbn; tauto | exact Hall].
  - exists (end_heading_html
              :: flat_map (fun jil => ["<li>"; gen_ilstr false jil; "</li>"])
                   (e :: entries)
              ++ ["</ul>"]).
    split.
    + change (concat_str (end_heading_html :: ?l))
        with (end_heading_html +:+ concat_str l).
      rewrite concat_str_app. f_equal. f_equal.
      generalize (e :: entries). intros l.
      induction l as [|x l IH]; [reflexivity|].
      change (concat_str (map ?f (x :: l))) with (f x +:+ concat_str (map f l)).
      change (concat_str (flat_map ?f (x :: l)))
        with ("<li>" +:+ gen_ilstr false x +:+ "</li>" +:+ concat_str (flat_map f l)).
      rewrite IH. now rewrite !app_assoc.
    + constructor; [left; cbn; tauto|].
      apply Forall_app. split; [|constructor; [left; cbn; tauto | constructor]].
      generalize (e :: entries). intros l.
      induction l as [|x l IH]; [constructor|].
      cbn [flat_map List.app].
      constructor; [left; cbn; tauto|].
      constructor; [right; exists x; split; [now left | reflexivity]|].
      constructor; [left; cbn; tauto|].
      eapply Forall_impl; [exact IH|].
      intros y [Hy|(j & Hj & ->)]; [now left|].
      right. exists j. split; [now right | reflexivity].
Qed.

Lemma refs_known_known (links : list JoplinInternalLink) (ps : list piece) :
  refs_known links ps = true -> known (texts ps) links ps.
Proof.
  unfold refs_known, known. rewrite forallb_forall, List.Forall_forall.
  intros H p Hp. specialize (H p Hp). destruct p as [s|j].
  - now apply texts_in.
  - apply andb_prop in H as [Hi Hj]. apply bool_decide_eq_true in Hj.
    split; [now apply list_elem_of_In | exact Hi].
Qed.

Lemma known_mono (plain plain' : list string) (links : list JoplinInternalLink)
    (ps : list piece) :
  (forall s, In s plain -> In s plain') ->
  known plain links ps -> known plain' links ps.
Proof.
  intros Hsub H. unfold known in *. eapply Forall_impl; [exact H|].
  intros [s|j]; [apply Hsub | tauto].
Qed.



(** Why the literal texts have to be told apart: the substitution is
    one of texts.  In a markdown note, an anchor whose name holds the
    literal text of an image: the anchor is replaced first, the name is
    the title of its form, and the image is then replaced inside that
    form, which is no longer the target-addressed form of the anchor. *)
Lemma nested_literal_is_rewritten_in_the_form :
  let img := mkJIL "n1" "r1" "a.png" "image" (wiz_md_img "" "a.png") in
  let name := "see " +:+ wiz_md_img "" "a.png" in
  let att :=
    mkJIL "n1" "r2" name "open_document"
      (wiz_anchor "open_document" "52935f17-c1bb-45b7-b443-b7ba1b6f854e" name) in
  let out :=
    convert_joplin_body (fun s => s) ("x " +:+ jil_outertext att) true [att; img] in
  literals_apart true ["x "] [att; img] = false
  /\ out = "x [see ![a.png](:/r1)](:/r2)"
  /\ occursb (gen_ilstr true att) out = false.
Proof. repeat split; vm_compute; reflexivity. Qed.


End RewriterFacts.

(** ** The conversion cache *)

Module CacheFacts.

(** *** The ordered dictionary *)

Lemma dict_get_set_eq {V} (k : string) (v : V) (d : list (string * V)) :
  PyDict.get k (PyDict.set k v d) = Some v.
Proof.
  induction d as [|[k' v'] d IH]; simpl.
  - now rewrite String.eqb_refl.
  - destruct (String.eqb k k') eqn:E; simpl; rewrite E; [reflexivity | exact IH].
Qed.

Lemma dict_get_set_ne {V} (k k0 : string) (v : V) (d : list (string * V)) :
  k0 <> k -> PyDict.get k0 (PyDict.set k v d) = PyDict.get k0 d.
Proof.
  intros Hne. pose proof Hne as Hb. apply String.eqb_neq in Hb.
  induction d as [|[k' v'] d IH]; simpl.
  - now rewrite Hb.
  - destruct (String.eqb k k') eqn:E; simpl.
    + apply String.eqb_eq in E; subst k'. now rewrite Hb.
    + now rewrite IH.
Qed.

(** Writing under a key that the dictionary holds keeps the keys and
    their order. *)
Lemma dict_set_keys {V} (k : string) (v v0 : V) (d : list (string * V)) :
  PyDict.get k d = Some v0 -> map fst (PyDict.set k v d) = map fst d.
Proof.
  induction d as [|[k' v'] d IH]; simpl; [discriminate|].
  destruct (String.eqb k k'); [reflexivity|].
  intros H. simpl. now rewrite IH.
Qed.

(** *** [update_l2f] *)

(** C7, as the source has it.  The target id of a chain entry is not
    written once: [update_l2f] stores the id it is given whatever the
    entry held before, stores the parent id when one is given and keeps
    the stored one otherwise.  Nothing else changes: the entry keeps its
    location, title, parent location and level and its place in the
    chain; the other entries are as they were; in the table [l2f] the
    row of the location, when there is one, takes the two ids of the
    entry and keeps its other columns, no row is made and the other rows
    are as they were; the tables [note], [resource], [internal_link],
    [tag] and [note_tag] and the dictionaries of the folders, tags,
    notes, resources and links are the same. *)
Theorem update_l2f_stores_id (location : string) (id parent_id : option string)
    (cu : ConvertUtil) (e : Location2Folder) :
  PyDict.get location (l2f_cache cu) = Some e ->
  let parent_id' := match parent_id with
                    | Some p => Some p
                    | None => l2f_parent_id e
                    end in
  exists cu',
    update_l2f location id parent_id cu = Ret tt cu'
    /\ PyDict.get location (l2f_cache cu')
       = Some (mkL2F (l2f_location e) (l2f_title e) (l2f_parent_location e)
                 (l2f_level e) id parent_id')
    /\ (forall k, k <> location ->
          PyDict.get k (l2f_cache cu') = PyDict.get k (l2f_cache cu))
    /\ map fst (l2f_cache cu') = map fst (l2f_cache cu)
    /\ (forall k, k <> l2f_location e -> db_l2f cu' !! k = db_l2f cu !! k)
    /\ db_l2f cu' !! l2f_location e
       = match db_l2f cu !! l2f_location e with
         | Some row =>
             Some (mkL2F (l2f_location row) (l2f_title row)
                     (l2f_parent_location row) (l2f_level row) id parent_id')
         | None => None
         end
    /\ db_note cu' = db_note cu
    /\ db_resource cu' = db_resource cu
    /\ db_internal_link cu' = db_internal_link cu
    /\ db_tag cu' = db_tag cu
    /\ db_note_tag cu' = db_note_tag cu
    /\ folders cu' = folders cu
    /\ tags cu' = tags cu
    /\ notes cu' = notes cu
    /\ resources cu' = resources cu
    /\ internal_links cu' = internal_links cu.
Proof.
  intros Hget parent_id'. unfold update_l2f. rewrite Hget.
  eexists. split; [reflexivity|]. cbn.
  split; [apply dict_get_set_eq|].
  split; [intros k Hk; now apply dict_get_set_ne|].
  split; [now apply (dict_set_keys _ _ e)|].
  split.
  { intros k Hk. destruct (db_l2f cu !! l2f_location e); [|reflexivity].
    now rewrite lookup_insert_ne by congruence. }
  split.
  { destruct (db_l2f cu !! l2f_location e) as [row|] eqn:Hrow;
      [apply lookup_insert_eq | exact Hrow]. }
  repeat split.
Qed.

Lemma update_l2f_stores_id_witness :
  let e := mkL2F "/a/" "a" None 1 None None in
  let cu := SimpleTarget.cu_of_chain [e; mkL2F "/b/" "b" None 1 None None] in
  exists cu',
    update_l2f "/a/" (Some "f-a") None cu = Ret tt cu'
    /\ PyDict.get "/a/" (l2f_cache cu')
       = Some (mkL2F "/a/" "a" None 1 (Some "f-a") None)
    /\ PyDict.get "/b/" (l2f_cache cu') = PyDict.get "/b/" (l2f_cache cu)
    /\ db_l2f cu' !! "/a/" = Some (mkL2F "/a/" "a" None 1 (Some "f-a") None)
    /\ db_l2f cu' !! "/b/" = db_l2f cu !! "/b/"
    /\ db_note cu' = db_note cu
    /\ db_tag cu' = db_tag cu.
Proof.
  intros e cu.
  destruct (update_l2f_stores_id "/a/" (Some "f-a") None cu e eq_refl)
    as (cu' & H1 & H2 & H3 & _ & H5 & H6 & H7 & _ & _ & H10 & _).
  exists cu'. split; [exact H1|]. split; [exact H2|].
  split; [apply H3; discriminate|].
  split; [exact H6|].
  split; [apply H5; discriminate|].
  split; [exact H7 | exact H10].
Defined.

(** An entry whose target id is set gets another one from a later call. *)
Lemma update_l2f_overwrites_set_id :
  let e := mkL2F "/a/" "a" None 1 (Some "old-id") (Some "old-parent") in
  exists cu',
    update_l2f "/a/" (Some "new-id") (Some "new-parent")
      (SimpleTarget.cu_of_chain [e]) = Ret tt cu'
    /\ PyDict.get "/a/" (l2f_cache cu')
       = Some (mkL2F "/a/" "a" None 1 (Some "new-id") (Some "new-parent"))
    /\ PyDict.get "/a/" (l2f_cache cu') <> Some e.
Proof.
  eexists. split; [reflexivity|]. split; [reflexivity|]. discriminate.
Qed.

(** *** [add_resource] *)

(** With the dictionary holding the rows of the table, a resource whose
    integers fit is recorded, unless its id is there already. *)
Lemma add_resource_mirror (jr : JoplinResource) (c : ConvertUtil) :
  resources_mirror c -> resource_fits jr = true ->
  exists c',
    add_resource jr c = Ret tt c'
    /\ resources_mirror c'
    /\ forall k,
         resources c' !! k
         = match resources c !! k with
           | Some r => Some r
           | None => if String.eqb (jr_id jr) k then Some jr else None
           end.
Proof.
  unfold resources_mirror, resource_fits. intros Hm Hfit. unfold add_resource.
  destruct (resources c !! jr_id jr) as [r|] eqn:E.
  - exists c. repeat split; [exact Hm|]. intros k.
    destruct (resources c !! k) as [r'|] eqn:Ek; [reflexivity|].
    destruct (String.eqb_spec (jr_id jr) k) as [Heq|_]; [|reflexivity].
    rewrite Heq in E. congruence.
  - rewrite Hfit. cbn [negb]. unfold sql_insert. rewrite <- Hm, E.
    eexists. split; [reflexivity|]. split.
    + cbn. now rewrite Hm.
    + intros k. cbn.
      destruct (String.eqb_spec (jr_id jr) k) as [<-|Hne].
      * now rewrite lookup_insert_eq, E.
      * rewrite lookup_insert_ne by exact Hne.
        now destruct (resources c !! k).
Qed.

(** A resource with a new id and an integer that does not fit is
    refused when the parameters are bound: nothing is written. *)
Lemma add_resource_overflow (jr : JoplinResource) (c : ConvertUtil) :
  resources c !! jr_id jr = None -> resource_fits jr = false ->
  add_resource jr c = Raise OverflowError c.
Proof.
  unfold add_resource, resource_fits. intros -> ->. reflexivity.
Qed.

(** A resource that [add_resource] returns from has a record under its
    id, whatever the cache was. *)
Lemma add_resource_ret (jr : JoplinResource) (c c' : ConvertUtil) :
  add_resource jr c = Ret tt c' -> is_Some (resources c' !! jr_id jr).
Proof.
  unfold add_resource.
  destruct (resources c !! jr_id jr) as [r|] eqn:E.
  - intros H. injection H as <-. rewrite E. eauto.
  - destruct (negb _); [discriminate|].
    unfold sql_insert. destruct (db_resource c !! jr_id jr); [discriminate|].
    intros H. injection H as <-. cbn. rewrite lookup_insert_eq. eauto.
Qed.

(** *** The monad *)

Lemma for_each_app {S A} (f : A -> M S unit) (l1 l2 : list A) (s : S) :
  for_each f (l1 ++ l2) s
  = match for_each f l1 s with
    | Ret _ s1 => for_each f l2 s1
    | Raise e s1 => Raise e s1
    end.
Proof.
  revert s. induction l1 as [|x l1 IH]; intros s; [reflexivity|].
  simpl. unfold bind. destruct (f x s) as [[] s'|e s']; [apply IH | reflexivity].
Qed.

(** A loop whose turns keep a property of the state keeps it, however
    it ends. *)
Lemma for_each_final {S A} (P : S -> Prop) (f : A -> M S unit) (l : list A) :
  (forall x s, P s -> P (final (f x s))) ->
  forall s, P s -> P (final (for_each f l s)).
Proof.
  intros Hf. induction l as [|x l IH]; intros s Hs; [exact Hs|].
  simpl. unfold bind. specialize (Hf x s Hs).
  destruct (f x s) as [[] s'|e s']; simpl in Hf; [now apply IH | exact Hf].
Qed.

(** What [bind] returns was returned by its two parts. *)
Lemma bind_ret_inv {S A B} (c : M S A) (k : A -> M S B) (s s' : S) (b : B) :
  bind c k s = Ret b s' -> exists a s1, c s = Ret a s1 /\ k a s1 = Ret b s'.
Proof.
  unfold bind. destruct (c s) as [a s1|e s1]; [|discriminate].
  intros H. now exists a, s1.
Qed.

(** *** [add_note] and its cascade *)

(** The row that [fetchone] returns for a count is never false. *)
Lemma count_row_truthy (n : Z) : row_truthy (fetchone_count n) = true.
Proof. reflexivity. Qed.

(** [add_note_tag] never inserts: it returns on its truth test. *)
Lemma add_note_tag_returns (note : JoplinNote) (tag : JoplinTag) (cu : ConvertUtil) :
  add_note_tag note tag cu = Ret tt cu.
Proof. unfold add_note_tag. now rewrite count_row_truthy. Qed.

Lemma add_internal_lnk_note_tag (jil : JoplinInternalLink) (cu : ConvertUtil) :
  db_note_tag (final (add_internal_lnk jil cu)) = db_note_tag cu.
Proof.
  unfold add_internal_lnk.
  destruct (internal_links cu !! jil_id jil); [reflexivity|].
  unfold sql_insert.
  destruct (db_internal_link cu !! (jil_note_id jil, jil_resource_id jil));
    reflexivity.
Qed.

(** Whatever the note and its tags, [add_note] leaves the table
    [note_tag] as it found it. *)
Lemma add_note_keeps_note_tag (note : JoplinNote) (cu : ConvertUtil) :
  db_note_tag (final (add_note note cu)) = db_note_tag cu.
Proof.
  unfold add_note. destruct (notes cu !! jn_id note); [reflexivity|].
  destruct (negb _); [reflexivity|].
  unfold sql_insert. destruct (db_note cu !! jn_id note); [reflexivity|].
  unfold bind, modify.
  set (cu1 := set_notes _ _).
  assert (H1 : db_note_tag cu1 = db_note_tag cu) by reflexivity.
  assert (H2 : db_note_tag
                 (final (for_each (add_note_tag note)
                           (PyDict.values (jn_tags note)) cu1))
               = db_note_tag cu).
  { apply (for_each_final (fun s => db_note_tag s = db_note_tag cu));
      [|exact H1].
    intros tag s Hs. now rewrite add_note_tag_returns. }
  destruct (for_each (add_note_tag note) (PyDict.values (jn_tags note)) cu1)
    as [[] cu2|e cu2]; [|exact H2].
  apply (for_each_final (fun s => db_note_tag s = db_note_tag cu));
    [|exact H2].
  intros jil s Hs. now rewrite add_internal_lnk_note_tag.
Qed.

(** C6 at a note with one tag and one internal link, on an empty cache:
    the note record and the internal-link record are written, and no
    note-tag link record is. *)
Theorem add_note_writes_no_note_tag :
  let tag := mkTag "t1" "work" 0 0 in
  let jil := mkJIL "n1" "r1" "report.pdf" "open_attachment" "" in
  let note :=
    mkNote "n1" "title" "f1" false "/a/" 0 0 None [(jil_id jil, jil)]
      [(jt_id tag, tag)] in
  exists cu',
    add_note note SimpleTarget.empty_cu = Ret tt cu'
    /\ notes cu' !! "n1" = Some note
    /\ db_note cu' !! "n1" = Some (mkNoteRow "title" "f1" false "/a/" 0 0)
    /\ internal_links cu' !! "n1-r1" = Some jil
    /\ db_internal_link cu' !! ("n1", "r1") = Some ("report.pdf", "open_attachment")
    /\ db_note_tag cu' !! ("n1", "t1") = None.
Proof.
  eexists. split; [reflexivity|]. repeat split; reflexivity.
Qed.

End CacheFacts.

(** ** The orchestrator *)

Module AdapterFacts.
Import CacheFacts.

(** *** The order of folder creation *)

Lemma insert_by_level_perm (x : Location2Folder) (l : list Location2Folder) :
  Permutation (insert_by_level x l) (x :: l).
Proof.
  induction l as [|y l IH]; simpl; [reflexivity|].
  destruct (l2f_level x <=? l2f_level y)%Z; [reflexivity|].
  rewrite IH. apply perm_swap.
Qed.

Lemma sort_by_level_perm (l : list Location2Folder) :
  Permutation (sort_by_level l) l.
Proof.
  induction l as [|x l IH]; simpl; [reflexivity|].
  rewrite insert_by_level_perm. now constructor.
Qed.

Lemma insert_by_level_sorted (x : Location2Folder) (l : list Location2Folder) :
  Sorted level_le l -> Sorted level_le (insert_by_level x l).
Proof.
  induction l as [|y l IH]; intros Hs; simpl.
  - repeat constructor.
  - destruct (l2f_level x <=? l2f_level y)%Z eqn:E.
    + constructor; [exact Hs|]. constructor. now apply Z.leb_le.
    + apply Z.leb_gt in E. inversion Hs as [|? ? Hs' Hhd]; subst.
      constructor; [now apply IH|].
      destruct l as [|z l]; simpl.
      * constructor. unfold level_le. lia.
      * destruct (l2f_level x <=? l2f_level z)%Z.
        -- constructor. unfold level_le. lia.
        -- constructor. now inversion Hhd.
Qed.

Lemma sort_by_level_sorted (l : list Location2Folder) :
  StronglySorted level_le (sort_by_level l).
Proof.
  apply Sorted_StronglySorted.
  - intros a b c Hab Hbc. unfold level_le in *. lia.
  - induction l as [|x l IH]; simpl; [constructor|].
    now apply insert_by_level_sorted.
Qed.

(** What a returned request, and a returned operation of the cache,
    tell. *)
Lemma lift_cu_ret_inv {J A} (c : M ConvertUtil A) (w w' : World J) (a : A) :
  lift_cu J c w = Ret a w' ->
  c (cu w) = Ret a (cu w') /\ jda w' = jda w /\ calls w' = calls w.
Proof.
  unfold lift_cu. destruct (c (cu w)) as [a' c'|e c']; [|discriminate].
  intros H. injection H as <- <-. repeat split.
Qed.

Lemma call_api_ret_inv {J A} (c : Call) (f : J -> J * result A) (w w' : World J)
    (a : A) :
  call_api J c f w = Ret a w' ->
  f (jda w) = (jda w', Ok a) /\ cu w' = cu w /\ calls w' = calls w ++ [c].
Proof.
  unfold call_api. destruct (f (jda w)) as [j [a'|e]]; [|discriminate].
  intros H. injection H as <- <-. repeat split.
Qed.

Section Folders.

Variable J : Type.
Variable post_folder : J -> string -> option string -> J * result JoplinFolder.

(** What one turn of the loop submits: nothing, or one folder, and then
    the parent of a child entry has an id, the one that is sent. *)
Lemma sync_folder_submits (e : Location2Folder) (w1 : World J) :
  calls (final ((sync_folder J post_folder) e w1)) = calls w1
  \/ exists pid,
       calls (final ((sync_folder J post_folder) e w1))
       = calls w1 ++ [CallPostFolder (l2f_title e) pid]
       /\ match l2f_parent_location e with
          | None => pid = None
          | Some p =>
              exists pe i, PyDict.get p (l2f_cache (cu w1)) = Some pe
                           /\ l2f_id pe = Some i /\ pid = Some i
          end.
Proof.
  unfold sync_folder.
  destruct (l2f_parent_location e) as [p|] eqn:Ep.
  - unfold bind, gets.
    destruct (PyDict.get p (l2f_cache (cu w1))) as [pe|] eqn:Eg; [|now left].
    destruct (l2f_id pe) as [i|] eqn:Ei; [|now left].
    right. exists (Some i). split; [|now exists pe, i].
    unfold call_api.
    destruct (post_folder (jda w1) (l2f_title e) (Some i)) as [j [jf|err]];
      [|reflexivity].
    unfold lift_cu. cbn [cu jda calls].
    destruct (update_l2f _ _ _ _); reflexivity.
  - right. exists None. split; [|reflexivity].
    unfold bind, call_api.
    destruct (post_folder (jda w1) (l2f_title e) None) as [j [jf|err]];
      [|reflexivity].
    unfold lift_cu. cbn [cu jda calls].
    destruct (update_l2f _ _ _ _); reflexivity.
Qed.

(** A turn that returns has submitted one folder, for its entry. *)
Lemma sync_folder_returns (e : Location2Folder) (w w' : World J) :
  sync_folder J post_folder e w = Ret tt w' ->
  exists pid, calls w' = calls w ++ [CallPostFolder (l2f_title e) pid].
Proof.
  unfold sync_folder. intros H.
  destruct (l2f_parent_location e) as [p|].
  - apply bind_ret_inv in H as (pe & s1 & Hg & H).
    unfold gets in Hg. injection Hg as <- <-.
    destruct (PyDict.get p (l2f_cache (cu w))) as [pe|]; [|discriminate].
    destruct (l2f_id pe) as [pid|]; [|discriminate].
    apply bind_ret_inv in H as (jf & s2 & Hpost & H).
    apply call_api_ret_inv in Hpost as (_ & _ & Hcalls).
    apply lift_cu_ret_inv in H as (_ & _ & Hc).
    exists (Some pid). now rewrite Hc, Hcalls.
  - apply bind_ret_inv in H as (jf & s2 & Hpost & H).
    apply call_api_ret_inv in Hpost as (_ & _ & Hcalls).
    apply lift_cu_ret_inv in H as (_ & _ & Hc).
    exists None. now rewrite Hc, Hcalls.
Qed.

(** A loop that returns has submitted one folder for each entry, in the
    order of the list. *)
Lemma sync_folder_loop_returns (l : list Location2Folder) (w w' : World J) :
  for_each (sync_folder J post_folder) l w = Ret tt w' ->
  exists cs,
    calls w' = calls w ++ cs
    /\ Forall2 (fun e c => exists pid, c = CallPostFolder (l2f_title e) pid) l cs.
Proof.
  revert w. induction l as [|e l IH]; intros w H.
  - unfold for_each, ret in H. injection H as <-. exists [].
    split; [now rewrite List.app_nil_r | constructor].
  - cbn [for_each] in H. apply bind_ret_inv in H as ([] & w1 & He & H).
    apply sync_folder_returns in He as (pid & He).
    apply IH in H as (cs & Hcs & Hall).
    exists (CallPostFolder (l2f_title e) pid :: cs). split.
    + rewrite Hcs, He. now rewrite <- List.app_assoc.
    + constructor; [now exists pid | exact Hall].
Qed.

(** C2. Folder creation goes through exactly the chain entries without a
    target id, in ascending order of level: a run that returns has
    submitted one folder for each of them, in that order, and nothing
    else.  Whenever a folder is submitted for an entry with a parent
    location, the parent entry has a target id at that moment, which is
    the parent id submitted. *)
Theorem folder_creation_order (w : World J) :
  let waiting := get_waiting_for_created_l2f (cu w) in
  Permutation waiting
    (filter (fun v => l2f_id v = None) (PyDict.values (l2f_cache (cu w))))
  /\ StronglySorted level_le waiting
  /\ (sync_folders J post_folder) w
     = (do_ for_each (sync_folder J post_folder) waiting; lift_cu J (modify load_folders)) w
  /\ (forall w',
        sync_folders J post_folder w = Ret tt w' ->
        exists cs,
          calls w' = calls w ++ cs
          /\ Forall2 (fun e c => exists pid, c = CallPostFolder (l2f_title e) pid)
               waiting cs)
  /\ forall pre e post w1,
       waiting = pre ++ e :: post ->
       for_each (sync_folder J post_folder) pre w = Ret tt w1 ->
       calls (final ((sync_folder J post_folder) e w1)) = calls w1
       \/ exists pid,
            calls (final ((sync_folder J post_folder) e w1))
            = calls w1 ++ [CallPostFolder (l2f_title e) pid]
            /\ match l2f_parent_location e with
               | None => pid = None
               | Some p =>
                   exists pe i, PyDict.get p (l2f_cache (cu w1)) = Some pe
                                /\ l2f_id pe = Some i /\ pid = Some i
               end.
Proof.
  intros waiting. subst waiting. unfold get_waiting_for_created_l2f.
  split.
  { rewrite sort_by_level_perm.
    induction (PyDict.values (l2f_cache (cu w))) as [|v l IH]; [reflexivity|].
    rewrite !filter_cons.
    destruct (decide (id_is_none v = true)) as [H1|H1],
             (decide (l2f_id v = None)) as [H2|H2].
    - now constructor.
    - exfalso. unfold id_is_none in H1. destruct (l2f_id v); congruence.
    - exfalso. unfold id_is_none in H1. rewrite H2 in H1. congruence.
    - exact IH. }
  split; [apply sort_by_level_sorted|].
  split; [reflexivity|].
  split.
  { intros w' H. unfold sync_folders in H.
    apply bind_ret_inv in H as (waiting & s1 & Hg & H).
    unfold gets in Hg. injection Hg as <- <-.
    apply bind_ret_inv in H as ([] & w2 & Hloop & H).
    apply lift_cu_ret_inv in H as (_ & _ & Hc).
    apply sync_folder_loop_returns in Hloop as (cs & Hcs & Hall).
    exists cs. split; [congruence | exact Hall]. }
  intros pre e post w1 _ _. apply sync_folder_submits.
Qed.

(** C9. When the turn of a chain entry with a parent location comes and
    the parent entry is not in the cache, or has no target id, the run
    ends there with a [ValueError]: the state is the one reached before
    that turn, so no folder was submitted for the entry. *)
Theorem missing_parent_aborts (w : World J) (pre post : list Location2Folder)
    (e : Location2Folder) (w1 : World J) (p : string) :
  get_waiting_for_created_l2f (cu w) = pre ++ e :: post ->
  for_each (sync_folder J post_folder) pre w = Ret tt w1 ->
  l2f_parent_location e = Some p ->
  (PyDict.get p (l2f_cache (cu w1)) = None
   \/ exists pe, PyDict.get p (l2f_cache (cu w1)) = Some pe /\ l2f_id pe = None) ->
  exists msg,
    (sync_folder J post_folder) e w1 = Raise (ValueError msg) w1
    /\ (sync_folders J post_folder) w = Raise (ValueError msg) w1.
Proof.
  intros Hw Hpre Hp Hparent.
  assert (Hstep : exists msg, (sync_folder J post_folder) e w1 = Raise (ValueError msg) w1).
  { unfold sync_folder. rewrite Hp. unfold bind, gets.
    destruct Hparent as [Hnone|(pe & Hsome & Hid)].
    - rewrite Hnone. eexists. reflexivity.
    - rewrite Hsome, Hid. eexists. reflexivity. }
  destruct Hstep as (msg & Hstep). exists msg. split; [exact Hstep|].
  unfold sync_folders. unfold bind at 1. unfold gets.
  rewrite Hw. unfold bind at 1. rewrite for_each_app, Hpre.
  simpl for_each. unfold bind at 1. now rewrite Hstep.
Qed.

End Folders.

Lemma folder_creation_order_witness :
  let a := mkL2F "/a/" "a" None 1 None None in
  let b := mkL2F "/a/b/" "b" (Some "/a/") 2 None None in
  let w := mkWorld (SimpleTarget.cu_of_chain [b; a]) ([] : SimpleTarget.J) [] in
  let w1 := final (for_each SimpleTarget.sync_folder [a] w) in
  get_waiting_for_created_l2f (cu w) = [a; b]
  /\ (calls (final (SimpleTarget.sync_folder b w1)) = calls w1
      \/ exists pid,
           calls (final (SimpleTarget.sync_folder b w1))
           = calls w1 ++ [CallPostFolder "b" pid]
           /\ exists pe i, PyDict.get "/a/" (l2f_cache (cu w1)) = Some pe
                           /\ l2f_id pe = Some i /\ pid = Some i).
Proof.
  intros a b w w1. split; [reflexivity|].
  destruct (folder_creation_order SimpleTarget.J SimpleTarget.post_folder w)
    as (_ & _ & _ & _ & H).
  apply (H [a] b [] w1); reflexivity.
Defined.

Lemma missing_parent_aborts_witness :
  let a := mkL2F "/a/" "a" None 1 None None in
  let y := mkL2F "/x/y/" "y" (Some "/x/") 2 None None in
  let w := mkWorld (SimpleTarget.cu_of_chain [y; a]) ([] : SimpleTarget.J) [] in
  let w1 := final (for_each SimpleTarget.sync_folder [a] w) in
  calls w1 = [CallPostFolder "a" None]
  /\ exists msg,
       SimpleTarget.sync_folder y w1 = Raise (ValueError msg) w1
       /\ SimpleTarget.sync_folders w = Raise (ValueError msg) w1.
Proof.
  intros a y w w1. split; [reflexivity|].
  apply (missing_parent_aborts SimpleTarget.J SimpleTarget.post_folder
           w [a] [] y w1 "/x/").
  - reflexivity.
  - reflexivity.
  - reflexivity.
  - left. reflexivity.
Defined.

(** *** Notes and resources *)

Section Notes.

Variable J : Type.
Variable post_folder : J -> string -> option string -> J * result JoplinFolder.
Variable post_tag : J -> string -> string -> Z -> Z -> J * result JoplinTag.
Variable get_tag : J -> string -> J * result JoplinTag.
Variable get_resources : J -> J * result (list JoplinResource).
Variable create_resource : J -> CreateArgs -> J * result (option JoplinResource).
Variable post_note :
  J -> string -> string -> string -> bool -> option string -> option string ->
  Z -> Z -> J * result JoplinNote.
Variable path_exists : string -> bool.
Variable open_rb : string -> result string.
Variable basename : string -> string.
Variable get_text : string -> string.

(** A document whose note is in the cache is left alone: no request is
    made and nothing is written. *)
Lemma _sync_note_cached (document : WizDocument) (w : World J) :
  is_Some (notes (cu w) !! tojoplinid (wd_guid document)) ->
  _sync_note J get_resources create_resource post_note path_exists open_rb
    basename get_text document w
  = Ret None w.
Proof.
  intros [jn Hjn]. unfold _sync_note, bind, gets, get_note.
  now rewrite Hjn.
Qed.

Lemma for_each_cached (documents : list WizDocument) (w : World J) :
  Forall (fun d => is_Some (notes (cu w) !! tojoplinid (wd_guid d))) documents ->
  for_each
    (fun wd =>
       do_ _sync_note J get_resources create_resource post_note path_exists
             open_rb basename get_text wd;
       ret tt)
    documents w
  = Ret tt w.
Proof.
  induction 1 as [|d documents Hd _ IH]; [reflexivity|].
  cbn [for_each]. unfold bind at 1. unfold bind at 1.
  now rewrite _sync_note_cached.
Qed.

Lemma sync_tags_cached (ws : WizStorage) (w : World J) :
  Forall (fun wt => is_Some (tags (cu w) !! tojoplinid (wt_guid wt))) (ws_tags ws) ->
  sync_tags J post_tag get_tag ws w = Ret tt w.
Proof.
  intros H. unfold sync_tags, bind, gets.
  replace (filter _ (ws_tags ws)) with (@nil WizTag); [reflexivity|].
  symmetry. induction H as [|wt l [t Ht] _ IH]; [reflexivity|].
  rewrite filter_cons. case_decide; [congruence | exact IH].
Qed.

(** [load_folders] writes the folders only. *)
Lemma load_folders_frame (c : ConvertUtil) :
  db_l2f (load_folders c) = db_l2f c /\ db_note (load_folders c) = db_note c
  /\ db_resource (load_folders c) = db_resource c
  /\ db_internal_link (load_folders c) = db_internal_link c
  /\ db_tag (load_folders c) = db_tag c
  /\ db_note_tag (load_folders c) = db_note_tag c
  /\ l2f_cache (load_folders c) = l2f_cache c
  /\ tags (load_folders c) = tags c /\ notes (load_folders c) = notes c
  /\ resources (load_folders c) = resources c
  /\ internal_links (load_folders c) = internal_links c.
Proof. repeat split. Qed.

Lemma load_folders_idem (c : ConvertUtil) :
  load_folders (load_folders c) = load_folders c.
Proof. reflexivity. Qed.

(** A run over a source that the cache already satisfies makes no request
    and writes nothing; the folders are read again from the chain. *)
Lemma sync_all_satisfied (ws : WizStorage) (w : World J) :
  get_waiting_for_created_l2f (cu w) = [] ->
  Forall (fun wt => is_Some (tags (cu w) !! tojoplinid (wt_guid wt)))
    (ws_tags ws) ->
  Forall (fun d => is_Some (notes (cu w) !! tojoplinid (wd_guid d)))
    (ws_documents ws) ->
  sync_all J post_folder post_tag get_tag get_resources create_resource
    post_note path_exists open_rb basename get_text ws w
  = Ret tt (mkWorld (load_folders (cu w)) (jda w) (calls w)).
Proof.
  intros Hwait Htags Hdocs.
  unfold sync_all. unfold bind at 1. unfold sync_folders.
  unfold bind at 1. unfold gets. rewrite Hwait.
  cbn [for_each]. unfold bind at 1, ret at 1.
  unfold lift_cu, modify. cbn [cu jda calls].
  unfold bind at 1. rewrite sync_tags_cached by exact Htags.
  now apply for_each_cached.
Qed.

(** When the folders are those of the chain, reading them again changes
    nothing. *)
Lemma load_folders_same (w : World J) :
  folders (cu w) = folders (load_folders (cu w)) ->
  mkWorld (load_folders (cu w)) (jda w) (calls w) = w.
Proof.
  intros Hf. destruct w as [c j cs]. cbn [cu jda calls] in *.
  f_equal. destruct c. unfold load_folders, set_folders in *.
  cbn in *. now rewrite <- Hf.
Qed.

(** *** Uploads *)

(** An attachment is never uploaded: reading [file_path] raises inside
    the [try], so [None] is returned with no request made and nothing
    written. *)
Lemma _upload_wiz_attachment_none (a : WizAttachment) (w : World J) :
  _upload_wiz_attachment J get_resources create_resource path_exists open_rb a w
  = Ret None w.
Proof. reflexivity. Qed.

End Notes.

End AdapterFacts.

(** ** What a first run leaves *)

Module FirstRunFacts.
Import CacheFacts AdapterFacts.

(** *** Rules for [keeps] *)

Lemma keeps_ret {S A} (P : S -> Prop) (a : A) : keeps P (ret a).
Proof. intros s Hs. exact Hs. Qed.

Lemma keeps_raise {S A} (P : S -> Prop) (e : exn) : keeps P (@raise S A e).
Proof. intros s Hs. exact Hs. Qed.

Lemma keeps_gets {S A} (P : S -> Prop) (f : S -> A) : keeps P (gets f).
Proof. intros s Hs. exact Hs. Qed.

Lemma keeps_bind {S A B} (P : S -> Prop) (c : M S A) (k : A -> M S B) :
  keeps P c -> (forall a, keeps P (k a)) -> keeps P (bind c k).
Proof.
  intros Hc Hk s Hs. unfold bind. specialize (Hc s Hs).
  destruct (c s) as [a s'|e s']; simpl in Hc; [now apply Hk | exact Hc].
Qed.

Lemma keeps_try {S A} (P : S -> Prop) (c : M S A) (h : exn -> M S A) :
  keeps P c -> (forall e, keeps P (h e)) -> keeps P (try_except c h).
Proof.
  intros Hc Hh s Hs. unfold try_except. specialize (Hc s Hs).
  destruct (c s) as [a s'|e s']; simpl in Hc; [exact Hc | now apply Hh].
Qed.

Lemma keeps_for_each {S A} (P : S -> Prop) (f : A -> M S unit) (l : list A) :
  (forall x, keeps P (f x)) -> keeps P (for_each f l).
Proof.
  intros Hf. induction l as [|x l IH]; [apply keeps_ret|].
  simpl. apply keeps_bind; [apply Hf | intros _; exact IH].
Qed.

Lemma keeps_fold_m {S A B} (P : S -> Prop) (f : B -> A -> M S B) (l : list A)
    (b : B) :
  (forall b x, keeps P (f b x)) -> keeps P (fold_m f l b).
Proof.
  intros Hf. revert b. induction l as [|x l IH]; intros b; [apply keeps_ret|].
  simpl. apply keeps_bind; [apply Hf | intros b'; apply IH].
Qed.

(** A request to the target does not write the cache. *)
Lemma keeps_call_api {J A} (P : ConvertUtil -> Prop) (c : Call)
    (f : J -> J * result A) :
  keeps (fun w : World J => P (cu w)) (call_api J c f).
Proof.
  intros w Hw. unfold call_api.
  destruct (f (jda w)) as [j [a|e]]; exact Hw.
Qed.

Lemma keeps_lift_cu {J A} (P : ConvertUtil -> Prop) (c : M ConvertUtil A) :
  keeps P c -> keeps (fun w : World J => P (cu w)) (lift_cu J c).
Proof.
  intros Hc w Hw. unfold lift_cu. specialize (Hc (cu w) Hw).
  destruct (c (cu w)) as [a c'|e c']; exact Hc.
Qed.

Lemma keeps_of_result {J A} (P : World J -> Prop) (r : result A) :
  keeps P (of_result J r).
Proof. destruct r; [apply keeps_ret | apply keeps_raise]. Qed.

(** *** The operations of the cache that leave the chain alone *)

Lemma stable_refl (c : ConvertUtil) : stable c c.
Proof. repeat split; auto. Qed.

Lemma add_tag_stable (c0 : ConvertUtil) (tag : JoplinTag) :
  keeps (stable c0) (add_tag tag).
Proof.
  intros c Hc. unfold add_tag.
  destruct (tags c !! jt_id tag); [exact Hc|].
  destruct (negb _); [exact Hc|].
  case_bool_decide; [exact Hc|].
  unfold sql_insert. destruct (db_tag c !! jt_id tag); exact Hc.
Qed.

Lemma add_resource_stable (c0 : ConvertUtil) (jr : JoplinResource) :
  keeps (stable c0) (add_resource jr).
Proof.
  intros c Hc. unfold add_resource.
  destruct (resources c !! jr_id jr); [exact Hc|].
  destruct (negb _); [exact Hc|].
  unfold sql_insert. destruct (db_resource c !! jr_id jr); exact Hc.
Qed.

Lemma add_internal_lnk_stable (c0 : ConvertUtil) (jil : JoplinInternalLink) :
  keeps (stable c0) (add_internal_lnk jil).
Proof.
  intros c Hc. unfold add_internal_lnk.
  destruct (internal_links c !! jil_id jil); [exact Hc|].
  unfold sql_insert.
  destruct (db_internal_link c !! (jil_note_id jil, jil_resource_id jil));
    exact Hc.
Qed.

Lemma add_note_tag_stable (c0 : ConvertUtil) (note : JoplinNote) (tag : JoplinTag) :
  keeps (stable c0) (add_note_tag note tag).
Proof. intros c Hc. now rewrite add_note_tag_returns. Qed.

Lemma get_tags_stable (c0 : ConvertUtil) (guid : string) :
  keeps (stable c0) (get_tags guid).
Proof.
  intros c Hc. unfold get_tags.
  generalize (@nil (string * JoplinTag)).
  induction (omap _ (map_to_list (db_note_tag c))) as [|item items IH];
    intros acc; [exact Hc|].
  destruct (tags c !! item.2); [apply IH | exact Hc].
Qed.

Lemma record_note_stable (c0 : ConvertUtil) (note : JoplinNote) :
  keeps (stable c0) (modify (set_notes (insert (jn_id note) note))).
Proof.
  intros s Hs. unfold modify. cbn [final].
  destruct Hs as (H1 & H2 & H3). repeat split; [exact H1 | exact H2 |].
  intros k Hk. cbn. destruct (decide (jn_id note = k)) as [->|Hne].
  - rewrite lookup_insert_eq. eauto.
  - rewrite lookup_insert_ne by exact Hne. now apply H3.
Qed.

(** What [add_note] does once the row of the note is written. *)
Lemma add_note_cascade_stable (c0 : ConvertUtil) (note : JoplinNote) :
  keeps (stable c0)
    (do_ modify (set_notes (insert (jn_id note) note));
     do_ for_each (add_note_tag note) (PyDict.values (jn_tags note));
     for_each add_internal_lnk (PyDict.values (jn_internal_links note))).
Proof.
  apply keeps_bind; [apply record_note_stable|]. intros _.
  apply keeps_bind.
  - apply keeps_for_each. intros tag. apply add_note_tag_stable.
  - intros _. apply keeps_for_each. intros jil. apply add_internal_lnk_stable.
Qed.

Lemma add_note_stable (c0 : ConvertUtil) (note : JoplinNote) :
  keeps (stable c0) (add_note note).
Proof.
  intros c Hc. unfold add_note.
  destruct (notes c !! jn_id note); [exact Hc|].
  destruct (negb _); [exact Hc|].
  unfold sql_insert. destruct (db_note c !! jn_id note); [exact Hc|].
  apply add_note_cascade_stable. exact Hc.
Qed.

(** A note that [add_note] returns from is recorded. *)
Lemma add_note_records (note : JoplinNote) (c c' : ConvertUtil) :
  add_note note c = Ret tt c' -> is_Some (notes c' !! jn_id note).
Proof.
  unfold add_note.
  destruct (notes c !! jn_id note) as [n|] eqn:En.
  - intros H. injection H as <-. rewrite En. eauto.
  - destruct (negb _); [discriminate|].
    unfold sql_insert. destruct (db_note c !! jn_id note); [discriminate|].
    set (c1 := set_db_note _ c). intros H.
    apply bind_ret_inv in H as ([] & c2 & Hmod & H).
    unfold modify in Hmod. injection Hmod as <-.
    set (c2 := set_notes (insert (jn_id note) note) c1) in *.
    assert (Hst : stable c2 c').
    { change c' with (final (Ret tt c' : outcome ConvertUtil unit)).
      rewrite <- H.
      apply (keeps_bind (stable c2)); [| |apply stable_refl].
      - apply keeps_for_each. intros tag. apply add_note_tag_stable.
      - intros _. apply keeps_for_each. intros jil.
        apply add_internal_lnk_stable. }
    destruct Hst as (_ & _ & H3). apply H3. subst c2. cbn.
    rewrite lookup_insert_eq. eauto.
Qed.

(** *** The steps of the adapter that leave the chain alone *)

(** One step in a proof that a computation of the adapter keeps a
    property of its cache. *)
Ltac keeps_step :=
  match goal with
  | |- keeps _ (ret _) => apply keeps_ret
  | |- keeps _ (raise _) => apply keeps_raise
  | |- keeps _ (gets _) => apply keeps_gets
  | |- keeps _ (of_result _ _) => apply keeps_of_result
  | |- keeps _ (call_api _ _ _) => apply keeps_call_api
  | |- keeps _ (bind _ _) => apply keeps_bind
  | |- keeps _ (try_except _ _) => apply keeps_try
  | |- keeps _ (fold_m _ _ _) => apply keeps_fold_m
  | |- keeps _ (for_each _ _) => apply keeps_for_each
  | |- keeps _ (match ?x with _ => _ end) => destruct x
  | |- forall _, _ => intro
  end.

Section Stable.

Variable J : Type.
Variable post_folder : J -> string -> option string -> J * result JoplinFolder.
Variable post_tag : J -> string -> string -> Z -> Z -> J * result JoplinTag.
Variable get_tag : J -> string -> J * result JoplinTag.
Variable get_resources : J -> J * result (list JoplinResource).
Variable create_resource : J -> CreateArgs -> J * result (option JoplinResource).
Variable post_note :
  J -> string -> string -> string -> bool -> option string -> option string ->
  Z -> Z -> J * result JoplinNote.
Variable path_exists : string -> bool.
Variable open_rb : string -> result string.
Variable basename : string -> string.
Variable get_text : string -> string.

Lemma sync_tag_stable (c0 : ConvertUtil) (wt : WizTag) :
  keeps (fun w : World J => stable c0 (cu w)) (sync_tag J post_tag get_tag wt).
Proof.
  unfold sync_tag. repeat keeps_step;
    apply keeps_lift_cu, add_tag_stable.
Qed.

Lemma sync_tags_stable (c0 : ConvertUtil) (ws : WizStorage) :
  keeps (fun w : World J => stable c0 (cu w)) (sync_tags J post_tag get_tag ws).
Proof.
  unfold sync_tags. repeat keeps_step. apply sync_tag_stable.
Qed.

Lemma _upload_wiz_attachment_stable (c0 : ConvertUtil) (a : WizAttachment) :
  keeps (fun w : World J => stable c0 (cu w))
    (_upload_wiz_attachment J get_resources create_resource path_exists open_rb a).
Proof.
  unfold _upload_wiz_attachment, _get_resource_by_filename.
  repeat keeps_step.
Qed.

Lemma _upload_wiz_image_stable (c0 : ConvertUtil) (image : WizImage) :
  keeps (fun w : World J => stable c0 (cu w))
    (_upload_wiz_image J get_resources create_resource path_exists open_rb
       basename image).
Proof.
  unfold _upload_wiz_image, _get_resource_by_filename.
  repeat keeps_step; apply keeps_lift_cu, add_resource_stable.
Qed.

Lemma _sync_note_stable (c0 : ConvertUtil) (document : WizDocument) :
  keeps (fun w : World J => stable c0 (cu w))
    (_sync_note J get_resources create_resource post_note path_exists open_rb
       basename get_text document).
Proof.
  unfold _sync_note, sync_attachment, sync_image.
  repeat keeps_step;
    first [ apply _upload_wiz_attachment_stable
          | apply _upload_wiz_image_stable
          | apply keeps_lift_cu, get_tags_stable
          | apply keeps_lift_cu, add_note_stable ].
Qed.

(** A document that [_sync_note] returns from has its note recorded. *)
Lemma _sync_note_records (document : WizDocument) (w w' : World J)
    (r : option JoplinNote) :
  post_note_echoes post_note ->
  _sync_note J get_resources create_resource post_note path_exists open_rb
    basename get_text document w
  = Ret r w' ->
  is_Some (notes (cu w') !! tojoplinid (wd_guid document)).
Proof.
  intros Hecho H. unfold _sync_note in H.
  apply bind_ret_inv in H as (jn & s1 & Hg & H).
  unfold gets in Hg. injection Hg as <- <-.
  destruct (get_note (tojoplinid (wd_guid document)) (cu w)) as [n|] eqn:E.
  - unfold ret in H. injection H as <- <-. unfold get_note in E.
    rewrite E. eauto.
  - apply bind_ret_inv in H as (links1 & s2 & _ & H).
    apply bind_ret_inv in H as (links2 & s3 & _ & H).
    apply bind_ret_inv in H as (folder & s4 & _ & H).
    destruct folder as [folder|]; [|discriminate].
    apply bind_ret_inv in H as (note & s5 & Hpost & H).
    apply bind_ret_inv in H as (tgs & s6 & _ & H).
    apply bind_ret_inv in H as ([] & s7 & Hadd & H).
    unfold ret in H. injection H as <- <-.
    apply call_api_ret_inv in Hpost as (Hpost & _ & _).
    apply Hecho in Hpost.
    apply lift_cu_ret_inv in Hadd as (Hadd & _ & _).
    apply add_note_records in Hadd. cbn [jn_id] in Hadd.
    now rewrite Hpost in Hadd.
Qed.

(** When the loop over the documents returns, every document has its
    note recorded. *)
Lemma documents_recorded (documents : list WizDocument) (w w' : World J) :
  post_note_echoes post_note ->
  for_each
    (fun wd =>
       do_ _sync_note J get_resources create_resource post_note path_exists
             open_rb basename get_text wd;
       ret tt)
    documents w
  = Ret tt w' ->
  Forall (fun d => is_Some (notes (cu w') !! tojoplinid (wd_guid d))) documents.
Proof.
  intros Hecho. revert w. induction documents as [|d documents IH]; intros w H.
  - constructor.
  - cbn [for_each] in H.
    apply bind_ret_inv in H as ([] & w1 & Hd & H).
    apply bind_ret_inv in Hd as (r & w1' & Hd & Hr).
    unfold ret in Hr. injection Hr as Hr. subst w1'.
    constructor; [|now apply (IH w1)].
    apply (_sync_note_records d w w1 r Hecho) in Hd.
    assert (Hst : stable (cu w1) (cu w')).
    { change w' with (final (Ret tt w' : outcome (World J) unit)).
      rewrite <- H.
      apply (keeps_for_each (fun w : World J => stable (cu w1) (cu w)));
        [|apply stable_refl].
      intros x. apply keeps_bind; [apply _sync_note_stable|].
      intros _. apply keeps_ret. }
    destruct Hst as (_ & _ & H3). now apply H3.
Qed.

(** *** The chain after the folders were created *)

Lemma dict_get_in {V} (k : string) (v : V) (d : list (string * V)) :
  PyDict.get k d = Some v -> In (k, v) d.
Proof.
  induction d as [|[k' v'] d IH]; simpl; [discriminate|].
  destruct (String.eqb_spec k k') as [->|Hne].
  - intros H. injection H as <-. now left.
  - intros H. right. now apply IH.
Qed.

Lemma dict_in_get {V} (k : string) (v : V) (d : list (string * V)) :
  NoDup (map fst d) -> In (k, v) d -> PyDict.get k d = Some v.
Proof.
  induction d as [|[k' v'] d IH]; simpl; [contradiction|].
  intros Hnd Hin. inversion Hnd as [|? ? Hnot Hnd']; subst.
  destruct Hin as [Heq|Hin].
  - injection Heq as -> ->. now rewrite String.eqb_refl.
  - destruct (String.eqb_spec k k') as [->|Hne]; [|now apply IH].
    exfalso. apply Hnot. apply list_elem_of_In.
    now apply (in_map fst d (k', v)).
Qed.

Lemma dict_set_Forall {V} (P : string * V -> Prop) (k : string) (v : V)
    (d : list (string * V)) :
  Forall P d -> P (k, v) -> Forall P (PyDict.set k v d).
Proof.
  intros Hd Hv. induction Hd as [|[k' v'] d Hkv Hd IH]; simpl.
  - now repeat constructor.
  - destruct (String.eqb_spec k k') as [->|Hne]; now constructor.
Qed.

Lemma filter_none {A} (P : A -> Prop) `{forall x, Decision (P x)} (l : list A) :
  (forall x, In x l -> ~ P x) -> filter P l = [].
Proof.
  induction l as [|x l IH]; intros Hl; [reflexivity|].
  rewrite filter_cons. destruct (decide (P x)) as [Hp|_].
  - exfalso. apply (Hl x); [now left | exact Hp].
  - apply IH. intros y Hy. apply Hl. now right.
Qed.

(** What [update_l2f] makes of the chain when it returns. *)
Lemma update_l2f_chain (location : string) (id parent_id : option string)
    (c c' : ConvertUtil) :
  update_l2f location id parent_id c = Ret tt c' ->
  exists inst,
    PyDict.get location (l2f_cache c) = Some inst
    /\ l2f_cache c'
       = PyDict.set location
           (mkL2F (l2f_location inst) (l2f_title inst) (l2f_parent_location inst)
              (l2f_level inst) id
              (match parent_id with
               | Some p => Some p
               | None => l2f_parent_id inst
               end))
           (l2f_cache c).
Proof.
  unfold update_l2f.
  destruct (PyDict.get location (l2f_cache c)) as [inst|]; [|discriminate].
  intros H. injection H as <-. exists inst. split; reflexivity.
Qed.

(** Storing an id under the location of an entry keeps the chain a
    dictionary and leaves no entry newly without id. *)
Lemma update_l2f_unset (e : Location2Folder) (id parent_id : option string)
    (c c' : ConvertUtil) :
  is_Some id -> chain_wf (l2f_cache c) ->
  update_l2f (l2f_location e) id parent_id c = Ret tt c' ->
  chain_wf (l2f_cache c')
  /\ forall k, unset_at (l2f_cache c') k ->
               unset_at (l2f_cache c) k /\ k <> l2f_location e.
Proof.
  intros [i ->] [Hnd Hloc] H.
  apply update_l2f_chain in H as (inst & Hget & ->).
  assert (Hinst : l2f_location inst = l2f_location e).
  { rewrite List.Forall_forall in Hloc.
    apply (Hloc (l2f_location e, inst)). now apply dict_get_in. }
  split; [split|].
  - now rewrite (dict_set_keys _ _ inst).
  - apply dict_set_Forall; [exact Hloc | exact Hinst].
  - intros k (e' & Hk & Hid).
    destruct (String.eqb_spec k (l2f_location e)) as [->|Hne].
    + rewrite dict_get_set_eq in Hk. injection Hk as <-. discriminate.
    + rewrite dict_get_set_ne in Hk by exact Hne.
      split; [now exists e' | exact Hne].
Qed.

Lemma sync_folder_unset (e : Location2Folder) (w w' : World J) :
  post_folder_assigns post_folder -> chain_wf (l2f_cache (cu w)) ->
  sync_folder J post_folder e w = Ret tt w' ->
  chain_wf (l2f_cache (cu w'))
  /\ forall k, unset_at (l2f_cache (cu w')) k ->
               unset_at (l2f_cache (cu w)) k /\ k <> l2f_location e.
Proof.
  intros Hassign Hwf H. unfold sync_folder in H.
  destruct (l2f_parent_location e) as [p|].
  - apply bind_ret_inv in H as (pe & s1 & Hg & H).
    unfold gets in Hg. injection Hg as <- <-.
    destruct (PyDict.get p (l2f_cache (cu w))) as [pe|]; [|discriminate].
    destruct (l2f_id pe) as [pid|]; [|discriminate].
    apply bind_ret_inv in H as (jf & s2 & Hpost & H).
    apply call_api_ret_inv in Hpost as (Hpost & Hcu & _).
    apply lift_cu_ret_inv in H as (H & _ & _).
    rewrite Hcu in H. apply Hassign in Hpost.
    now apply (update_l2f_unset e _ _ _ _ Hpost Hwf) in H.
  - apply bind_ret_inv in H as (jf & s2 & Hpost & H).
    apply call_api_ret_inv in Hpost as (Hpost & Hcu & _).
    apply lift_cu_ret_inv in H as (H & _ & _).
    rewrite Hcu in H. apply Hassign in Hpost.
    now apply (update_l2f_unset e _ _ _ _ Hpost Hwf) in H.
Qed.

Lemma sync_folder_loop_unset (l : list Location2Folder) (w w' : World J) :
  post_folder_assigns post_folder -> chain_wf (l2f_cache (cu w)) ->
  for_each (sync_folder J post_folder) l w = Ret tt w' ->
  chain_wf (l2f_cache (cu w'))
  /\ forall k, unset_at (l2f_cache (cu w')) k ->
               unset_at (l2f_cache (cu w)) k /\ ~ In k (map l2f_location l).
Proof.
  intros Hassign. revert w. induction l as [|e l IH]; intros w Hwf H.
  - unfold for_each, ret in H. injection H as <-. split; [exact Hwf|].
    intros k Hk. split; [exact Hk | intros []].
  - cbn [for_each] in H. apply bind_ret_inv in H as ([] & w1 & He & H).
    destruct (sync_folder_unset e w w1 Hassign Hwf He) as [Hwf1 Hun1].
    destruct (IH w1 Hwf1 H) as [Hwf' Hun'].
    split; [exact Hwf'|]. intros k Hk.
    destruct (Hun' k Hk) as [Hk1 Hnot]. destruct (Hun1 k Hk1) as [Hk0 Hne].
    split; [exact Hk0|]. intros [Heq|Hin]; [congruence | contradiction].
Qed.

(** When [sync_folders] returns, no chain entry waits for creation and
    the folders are those of the chain. *)
Lemma sync_folders_leaves_none (w w' : World J) :
  post_folder_assigns post_folder -> chain_wf (l2f_cache (cu w)) ->
  sync_folders J post_folder w = Ret tt w' ->
  get_waiting_for_created_l2f (cu w') = []
  /\ folders (cu w') = folders (load_folders (cu w')).
Proof.
  intros Hassign Hwf H. unfold sync_folders in H.
  apply bind_ret_inv in H as (waiting & s1 & Hg & H).
  unfold gets in Hg. injection Hg as <- <-.
  apply bind_ret_inv in H as ([] & w2 & Hloop & H).
  apply lift_cu_ret_inv in H as (H & _ & _).
  unfold modify in H. injection H as H.
  destruct (sync_folder_loop_unset _ w w2 Hassign Hwf Hloop) as [[Hnd2 Hloc2] Hun].
  split; [|now rewrite <- H].
  unfold get_waiting_for_created_l2f. rewrite <- H.
  change (l2f_cache (load_folders (cu w2))) with (l2f_cache (cu w2)).
  replace (filter _ (PyDict.values (l2f_cache (cu w2)))) with (@nil Location2Folder);
    [reflexivity|].
  symmetry. apply filter_none.
  intros v Hv Hunset.
  unfold PyDict.values in Hv. apply in_map_iff in Hv as ([k v'] & Hvv & Hin).
  simpl in Hvv. subst v'.
  apply (dict_in_get _ _ _ Hnd2) in Hin.
  assert (Hid : l2f_id v = None).
  { unfold id_is_none in Hunset. now destruct (l2f_id v). }
  destruct (Hun k (ex_intro _ v (conj Hin Hid))) as [(e0 & Hget0 & Hid0) Hnot].
  apply Hnot. destruct Hwf as [Hnd Hloc].
  pose proof (dict_get_in _ _ _ Hget0) as Hin0.
  rewrite List.Forall_forall in Hloc. pose proof (Hloc _ Hin0) as Hk0. simpl in Hk0.
  rewrite <- Hk0. apply in_map.
  apply (Permutation_in _ (Permutation_sym (sort_by_level_perm _))).
  apply list_elem_of_In, list_elem_of_filter. split.
  - unfold id_is_none. now rewrite Hid0.
  - apply list_elem_of_In. unfold PyDict.values.
    now apply (in_map snd _ (k, e0)).
Qed.

(** What a run that returns leaves: no chain entry waits, the folders
    are those of the chain, every document has its note recorded. *)
Lemma first_run_leaves (ws : WizStorage) (w0 w1 : World J) :
  post_folder_assigns post_folder -> post_note_echoes post_note ->
  chain_wf (l2f_cache (cu w0)) ->
  sync_all J post_folder post_tag get_tag get_resources create_resource
    post_note path_exists open_rb basename get_text ws w0
  = Ret tt w1 ->
  get_waiting_for_created_l2f (cu w1) = []
  /\ folders (cu w1) = folders (load_folders (cu w1))
  /\ Forall (fun d => is_Some (notes (cu w1) !! tojoplinid (wd_guid d)))
       (ws_documents ws).
Proof.
  intros Hassign Hecho Hwf H. unfold sync_all in H.
  apply bind_ret_inv in H as ([] & wa & Hfold & H).
  apply bind_ret_inv in H as ([] & wb & Htag & H).
  destruct (sync_folders_leaves_none w0 wa Hassign Hwf Hfold) as [Hnone Hfa].
  assert (Hab : stable (cu wa) (cu wb)).
  { change wb with (final (Ret tt wb : outcome (World J) unit)).
    rewrite <- Htag.
    apply (sync_tags_stable (cu wa) ws wa), stable_refl. }
  assert (Hb1 : stable (cu wb) (cu w1)).
  { change w1 with (final (Ret tt w1 : outcome (World J) unit)).
    rewrite <- H.
    apply (keeps_for_each (fun w : World J => stable (cu wb) (cu w)));
      [|apply stable_refl].
    intros x. apply keeps_bind; [apply _sync_note_stable|].
    intros _. apply keeps_ret. }
  destruct Hab as (Hc1 & Hf1 & _). destruct Hb1 as (Hc2 & Hf2 & _).
  assert (Hchain : l2f_cache (cu w1) = l2f_cache (cu wa)) by congruence.
  split; [|split].
  - unfold get_waiting_for_created_l2f in *. now rewrite Hchain.
  - rewrite Hf2, Hf1, Hfa. unfold load_folders, set_folders. cbn [folders].
    now rewrite Hchain.
  - now apply (documents_recorded _ wb).
Qed.

End Stable.

(** C1. Note-level synchronisation is idempotent.  For a document whose
    converted identifier has a note in the cache, [_sync_note] returns at
    once: no request goes to the target and the cache is not written.
    So a full run over a source that the cache already satisfies (no
    chain entry waits, every tag and every document is recorded) makes no
    request and leaves the target and the cache as they were, the folders
    being read again from the unchanged chain.  And a second full run
    over the same source, started where a first run that recorded every
    tag ended, ends in that very state: no request is added, the target
    is the one a single run leaves. *)
Theorem note_sync_idempotent (J : Type)
    (post_folder : J -> string -> option string -> J * result JoplinFolder)
    (post_tag : J -> string -> string -> Z -> Z -> J * result JoplinTag)
    (get_tag : J -> string -> J * result JoplinTag)
    (get_resources : J -> J * result (list JoplinResource))
    (create_resource : J -> CreateArgs -> J * result (option JoplinResource))
    (post_note :
       J -> string -> string -> string -> bool -> option string ->
       option string -> Z -> Z -> J * result JoplinNote)
    (path_exists : string -> bool) (open_rb : string -> result string)
    (basename get_text : string -> string) :
  let sync_note :=
    _sync_note J get_resources create_resource post_note path_exists open_rb
      basename get_text in
  let run :=
    sync_all J post_folder post_tag get_tag get_resources create_resource
      post_note path_exists open_rb basename get_text in
  (forall (document : WizDocument) (w : World J),
     is_Some (notes (cu w) !! tojoplinid (wd_guid document)) ->
     sync_note document w = Ret None w)
  /\ (forall (ws : WizStorage) (w : World J),
        get_waiting_for_created_l2f (cu w) = [] ->
        Forall (fun wt => is_Some (tags (cu w) !! tojoplinid (wt_guid wt)))
          (ws_tags ws) ->
        Forall (fun d => is_Some (notes (cu w) !! tojoplinid (wd_guid d)))
          (ws_documents ws) ->
        exists w',
          run ws w = Ret tt w'
          /\ calls w' = calls w /\ jda w' = jda w
          /\ cu w' = load_folders (cu w)
          /\ (folders (cu w) = folders (load_folders (cu w)) -> w' = w))
  /\ (forall (ws : WizStorage) (w0 w1 : World J),
        post_folder_assigns post_folder -> post_note_echoes post_note ->
        chain_wf (l2f_cache (cu w0)) ->
        run ws w0 = Ret tt w1 ->
        Forall (fun wt => is_Some (tags (cu w1) !! tojoplinid (wt_guid wt)))
          (ws_tags ws) ->
        run ws w1 = Ret tt w1).
Proof.
  intros sync_note run. split; [|split].
  - intros document w. apply _sync_note_cached.
  - intros ws w Hwait Htags Hdocs. eexists. split.
    + apply sync_all_satisfied; assumption.
    + cbn [cu jda calls]. repeat split. apply load_folders_same.
  - intros ws w0 w1 Hassign Hecho Hwf Hrun Htags.
    destruct (first_run_leaves J post_folder post_tag get_tag get_resources
                create_resource post_note path_exists open_rb basename
                get_text ws w0 w1 Hassign Hecho Hwf Hrun)
      as (Hnone & Hfold & Hdocs).
    subst run. cbv beta.
    rewrite sync_all_satisfied by assumption.
    f_equal. now apply load_folders_same.
Qed.

(** A first run and a second one over the small target: one chain entry
    to create, one tag, one document with an image. *)
Lemma note_sync_idempotent_witness :
  let folder := mkL2F "/a/" "a" None 1 None None in
  let w0 := mkWorld (SimpleTarget.cu_of_chain [folder]) ([] : SimpleTarget.J) [] in
  let img := mkImage "" "index_files/cat.png" "index_files/cat.png" in
  let doc := mkDocument "d-2" "two" "/a/" None 0 0 "text" false [] [img] [] in
  let ws := mkStorage [mkWizTag "t-1" "work" 0] [doc] in
  let w1 := final (SimpleTarget.sync_all ws w0) in
  calls w1
  = [CallPostFolder "a" None; CallPostTag "t1" "work"; CallGetResources;
     CallCreateResource "index_files/cat.png"; CallPostNote "d2" "text" (Some "f-a")]
  /\ SimpleTarget._sync_note doc w1 = Ret None w1
  /\ (exists w',
        SimpleTarget.sync_all ws w1 = Ret tt w'
        /\ calls w' = calls w1 /\ jda w' = jda w1
        /\ cu w' = load_folders (cu w1)
        /\ (folders (cu w1) = folders (load_folders (cu w1)) -> w' = w1))
  /\ SimpleTarget.sync_all ws w1 = Ret tt w1.
Proof.
  intros folder w0 img doc ws w1.
  destruct (note_sync_idempotent SimpleTarget.J SimpleTarget.post_folder
              SimpleTarget.post_tag SimpleTarget.get_tag
              SimpleTarget.get_resources SimpleTarget.create_resource
              SimpleTarget.post_note SimpleTarget.path_exists
              SimpleTarget.open_rb SimpleTarget.basename SimpleTarget.get_text)
    as (H1 & H2 & H3).
  split; [reflexivity|]. split; [|split].
  - apply H1. vm_compute. eexists. reflexivity.
  - apply H2.
    + reflexivity.
    + repeat constructor. vm_compute. eexists. reflexivity.
    + repeat constructor. vm_compute. eexists. reflexivity.
  - apply (H3 ws w0 w1).
    + intros j title parent j' f H. injection H as _ <-. cbn. eauto.
    + intros j id title body md parent url created updated j' note H.
      injection H as _ <-. reflexivity.
    + split; [apply NoDup_singleton | repeat constructor].
    + reflexivity.
    + repeat constructor. vm_compute. eexists. reflexivity.
Defined.

End FirstRunFacts.

(** ** Uploads and the cache *)

Module UploadFacts.
Import CacheFacts AdapterFacts FirstRunFacts.

(** *** What leaves the resources alone *)

(** [get_tags] reads. *)
Lemma get_tags_final (guid : string) (c : ConvertUtil) :
  final (get_tags guid c) = c.
Proof.
  unfold get_tags. generalize (@nil (string * JoplinTag)).
  induction (omap _ (map_to_list (db_note_tag c))) as [|item items IH];
    intros acc; [reflexivity|].
  destruct (tags c !! item.2); [apply IH | reflexivity].
Qed.

Lemma add_internal_lnk_resources (R D : gmap string JoplinResource)
    (jil : JoplinInternalLink) :
  keeps (fun c => resources c = R /\ db_resource c = D) (add_internal_lnk jil).
Proof.
  intros c Hc. unfold add_internal_lnk.
  destruct (internal_links c !! jil_id jil); [exact Hc|].
  unfold sql_insert.
  destruct (db_internal_link c !! (jil_note_id jil, jil_resource_id jil));
    exact Hc.
Qed.

Lemma add_note_resources (R D : gmap string JoplinResource) (note : JoplinNote) :
  keeps (fun c => resources c = R /\ db_resource c = D) (add_note note).
Proof.
  intros c Hc. unfold add_note.
  destruct (notes c !! jn_id note); [exact Hc|].
  destruct (negb _); [exact Hc|].
  unfold sql_insert. destruct (db_note c !! jn_id note); [exact Hc|].
  apply keeps_bind; [|intros _; apply keeps_bind|exact Hc].
  - intros s Hs. exact Hs.
  - apply keeps_for_each. intros tag s Hs. now rewrite add_note_tag_returns.
  - intros _. apply keeps_for_each. intros jil.
    apply add_internal_lnk_resources.
Qed.

(** *** [_sync_note], from its result *)

Section Inversion.

Variable J : Type.
Variable get_resources : J -> J * result (list JoplinResource).
Variable create_resource : J -> CreateArgs -> J * result (option JoplinResource).
Variable post_note :
  J -> string -> string -> string -> bool -> option string -> option string ->
  Z -> Z -> J * result JoplinNote.
Variable path_exists : string -> bool.
Variable open_rb : string -> result string.
Variable basename : string -> string.
Variable get_text : string -> string.

(** An image upload that made its request and returned the resource
    has recorded it, whatever the cache and the target. *)
Lemma _upload_wiz_image_ret (image : WizImage) (w w' : World J)
    (jr : JoplinResource) :
  _upload_wiz_image J get_resources create_resource path_exists open_rb basename
    image w = Ret (Some jr) w' ->
  calls w'
  = calls w ++ [CallGetResources; CallCreateResource (basename (wi_file image))] ->
  is_Some (resources (cu w') !! jr_id jr).
Proof.
  unfold _upload_wiz_image.
  destruct (negb (path_exists (wi_file image))); [discriminate|].
  intros H Hcalls. apply bind_ret_inv in H as (resource & w1 & Hget & H).
  unfold _get_resource_by_filename in Hget.
  apply bind_ret_inv in Hget as (rs & w0 & Hget & Hfind).
  apply call_api_ret_inv in Hget as (_ & Hcu0 & Hcalls0).
  unfold ret in Hfind. injection Hfind as <- <-.
  destruct (List.find _ rs) as [r|].
  - unfold ret in H. injection H as _ <-. exfalso.
    rewrite Hcalls0 in Hcalls. apply app_inv_head in Hcalls. discriminate.
  - unfold try_except in H.
    match type of H with
    | match ?c w0 with _ => _ end = _ => destruct (c w0) as [a w2|e w2] eqn:Hc
    end; [|discriminate].
    injection H as -> <-.
    apply bind_ret_inv in Hc as (f & w3 & _ & Hc).
    apply bind_ret_inv in Hc as ([r|] & w4 & _ & Hc); [|discriminate].
    apply bind_ret_inv in Hc as ([] & w5 & Hadd & Hc).
    unfold ret in Hc. injection Hc as <- <-.
    apply lift_cu_ret_inv in Hadd as (Hadd & _ & _).
    now apply add_resource_ret in Hadd.
Qed.

(** A note that [_sync_note] returns was requested once both loops of
    uploads had returned, in the world they left, and [add_note] then
    wrote the cache of that world. *)
Lemma _sync_note_ret_inv (document : WizDocument) (w w' : World J)
    (note : JoplinNote) :
  _sync_note J get_resources create_resource post_note path_exists open_rb
    basename get_text document w = Ret (Some note) w' ->
  let note_id := tojoplinid (wd_guid document) in
  exists links1 wa links2 wb folder n0,
    fold_m
      (sync_attachment J get_resources create_resource path_exists open_rb note_id)
      (wd_attachments document) (document_links note_id document) w
    = Ret links1 wa
    /\ fold_m
         (sync_image J get_resources create_resource path_exists open_rb basename
            note_id)
         (wd_images document) links1 wa
       = Ret links2 wb
    /\ post_note (jda wb) note_id (wd_title document)
         (convert_joplin_body get_text (wd_body document)
            (wd_is_markdown document) (PyDict.values links2))
         (wd_is_markdown document) (jf_id folder) (wd_url document)
         (wd_created document) (wd_modified document)
       = (jda w', Ok n0)
    /\ calls w'
       = calls wb
         ++ [CallPostNote note_id
               (convert_joplin_body get_text (wd_body document)
                  (wd_is_markdown document) (PyDict.values links2))
               (jf_id folder)]
    /\ add_note note (cu wb) = Ret tt (cu w').
Proof.
  intros H note_id. unfold _sync_note in H. fold note_id in H.
  apply bind_ret_inv in H as (jn & w0 & Hjn & H).
  unfold gets in Hjn. injection Hjn as <- <-.
  destruct (get_note note_id (cu w)); [discriminate|].
  apply bind_ret_inv in H as (links1 & wa & H1 & H).
  apply bind_ret_inv in H as (links2 & wb & H2 & H).
  apply bind_ret_inv in H as (folder & w0 & Hf & H).
  unfold gets in Hf. injection Hf as <- <-.
  destruct (get_folder_by_location (wd_location document) (cu wb)) as [folder|];
    [|discriminate].
  apply bind_ret_inv in H as (n0 & wc & Hpost & H).
  apply call_api_ret_inv in Hpost as (Hpost & Hcu & Hcalls).
  apply bind_ret_inv in H as (tags & wd & Htags & H).
  apply lift_cu_ret_inv in Htags as (Htags & Hjda & Hcalls').
  assert (Hwd : cu wd = cu wc).
  { rewrite <- (get_tags_final (jn_id n0) (cu wc)). now rewrite Htags. }
  apply bind_ret_inv in H as ([] & we & Hadd & H).
  apply lift_cu_ret_inv in Hadd as (Hadd & Hjda' & Hcalls'').
  unfold ret in H. injection H as <- <-.
  exists links1, wa, links2, wb, folder, n0.
  split; [exact H1|]. split; [exact H2|].
  split; [now rewrite Hjda', Hjda|].
  split; [now rewrite Hcalls'', Hcalls'|].
  now rewrite <- Hcu, <- Hwd.
Qed.

End Inversion.

(** *** Over the target with its list *)

Section Uploads.

Variable J : Type.
Variable get_resources : J -> J * result (list JoplinResource).
Variable create_resource : J -> CreateArgs -> J * result (option JoplinResource).
Variable post_note :
  J -> string -> string -> string -> bool -> option string -> option string ->
  Z -> Z -> J * result JoplinNote.
Variable path_exists : string -> bool.
Variable open_rb : string -> result string.
Variable basename : string -> string.
Variable get_text : string -> string.

Hypothesis Hfit : resources_fit create_resource.

(** A request that makes no resource. *)
Lemma keeps_call_nothing {A} (c : Call) (f : J -> J * result A) :
  keeps uploads_recorded (call_api (Recording J) c (recording nothing_made f)).
Proof.
  intros w Hw. unfold call_api, recording.
  destruct (f (fst (jda w))) as [j [a|e]]; cbn [final];
    unfold uploads_recorded, created, nothing_made in *; cbn [cu jda snd];
    now rewrite app_nil_r.
Qed.

(** An operation of the cache that leaves the resources alone. *)
Lemma keeps_lift_frame {A} (op : M ConvertUtil A) :
  (forall R D, keeps (fun c => resources c = R /\ db_resource c = D) op) ->
  keeps uploads_recorded (lift_cu (Recording J) op).
Proof.
  intros Hop w [Hm Hl]. unfold lift_cu.
  destruct (Hop (resources (cu w)) (db_resource (cu w)) (cu w)) as [HR HD];
    [now split|].
  destruct (op (cu w)) as [a c'|e c']; cbn [final] in *;
    unfold uploads_recorded, resources_mirror, recorded in *; cbn [cu jda];
    rewrite HR, HD; now split.
Qed.

(** The resource that was just made is recorded by [add_resource]. *)
Lemma add_resource_records (jr : JoplinResource) (w : World (Recording J)) (j : J)
    (cs : list Call) :
  uploads_recorded w -> resource_fits jr = true ->
  exists c',
    add_resource jr (cu w) = Ret tt c'
    /\ uploads_recorded (mkWorld c' (j, created (jda w) ++ [jr]) cs).
Proof.
  intros [Hm Hl] Hjr.
  destruct (add_resource_mirror jr (cu w) Hm Hjr) as (c' & Hadd & Hm' & Hk).
  exists c'. split; [exact Hadd|]. split; [exact Hm'|].
  unfold created. cbn [cu jda snd].
  assert (Hrec : forall r, is_Some (resources c' !! jr_id r) -> recorded c' r).
  { intros r Hr. split; [exact Hr|]. unfold resources_mirror in Hm'.
    now rewrite <- Hm'. }
  apply Forall_app. split.
  - eapply Forall_impl; [exact Hl|]. intros r [Hr _]. apply Hrec.
    rewrite Hk. destruct (resources (cu w) !! jr_id r); [eauto|].
    now destruct Hr.
  - constructor; [|constructor]. apply Hrec. rewrite Hk.
    destruct (resources (cu w) !! jr_id jr); [eauto|].
    rewrite String.eqb_refl. eauto.
Qed.

Lemma _get_resource_by_filename_records (filename : string) :
  keeps uploads_recorded
    (_get_resource_by_filename (Recording J) (rec_get_resources J get_resources)
       filename).
Proof.
  unfold _get_resource_by_filename, rec_get_resources.
  apply keeps_bind; [apply keeps_call_nothing | intros rs; apply keeps_ret].
Qed.

(** Whatever an image upload does, every resource made is recorded when
    it ends. *)
Lemma _upload_wiz_image_records (image : WizImage) :
  keeps uploads_recorded
    (_upload_wiz_image (Recording J) (rec_get_resources J get_resources)
       (rec_create_resource J create_resource) path_exists open_rb basename
       image).
Proof.
  unfold _upload_wiz_image.
  destruct (negb (path_exists (wi_file image))); [apply keeps_ret|].
  apply keeps_bind; [apply _get_resource_by_filename_records|].
  intros [r|]; [apply keeps_ret|].
  intros w Hw. unfold try_except, bind, of_result.
  destruct (open_rb (wi_file image)) as [f|e]; [|exact Hw].
  unfold ret at 1. unfold call_api, rec_create_resource, recording.
  destruct (create_resource (fst (jda w)) _) as [j [[jr|]|e]] eqn:Hc;
    cbn [made_resource].
  - destruct (add_resource_records jr w j
                (calls w ++ [CallCreateResource (basename (wi_file image))])
                Hw (Hfit _ _ _ _ Hc))
      as (c' & Hadd & Hrec).
    unfold lift_cu. cbn [cu jda calls]. rewrite Hadd. exact Hrec.
  - cbn [final]. unfold uploads_recorded, created in *. cbn [cu jda snd].
    now rewrite app_nil_r.
  - cbn [final]. unfold uploads_recorded, created in *. cbn [cu jda snd].
    now rewrite app_nil_r.
Qed.

Lemma sync_attachment_records (note_id : string)
    (links : list (string * JoplinInternalLink)) (a : WizAttachment) :
  keeps uploads_recorded
    (sync_attachment (Recording J) (rec_get_resources J get_resources)
       (rec_create_resource J create_resource) path_exists open_rb note_id
       links a).
Proof.
  intros w Hw. unfold sync_attachment, bind.
  now rewrite _upload_wiz_attachment_none.
Qed.

Lemma sync_image_records (note_id : string)
    (links : list (string * JoplinInternalLink)) (image : WizImage) :
  keeps uploads_recorded
    (sync_image (Recording J) (rec_get_resources J get_resources)
       (rec_create_resource J create_resource) path_exists open_rb basename
       note_id links image).
Proof.
  unfold sync_image. apply keeps_try; [|intros e; apply keeps_ret].
  apply keeps_bind; [apply _upload_wiz_image_records|].
  intros [jr|]; apply keeps_ret.
Qed.

Lemma rec_sync_note_records (document : WizDocument) :
  keeps uploads_recorded
    (rec_sync_note J get_resources create_resource post_note path_exists
       open_rb basename get_text document).
Proof.
  unfold rec_sync_note, _sync_note.
  apply keeps_bind; [apply keeps_gets|]. intros [jn|]; [apply keeps_ret|].
  apply keeps_bind; [apply keeps_fold_m; intros; apply sync_attachment_records|].
  intros links1.
  apply keeps_bind; [apply keeps_fold_m; intros; apply sync_image_records|].
  intros links2.
  apply keeps_bind; [apply keeps_gets|]. intros [folder|]; [|apply keeps_raise].
  apply keeps_bind; [apply keeps_call_nothing|]. intros n0.
  apply keeps_bind.
  { apply keeps_lift_frame. intros R D c Hc. now rewrite get_tags_final. }
  intros tags.
  apply keeps_bind; [|intros; apply keeps_ret].
  apply keeps_lift_frame. intros R D. apply add_note_resources.
Qed.

End Uploads.



End UploadFacts.

(** ** More on the identifier conversion and the rewriter *)

Module ParserMore.
Import PyStr PyStrFacts RewriterFacts.

Lemma take_drop (n : nat) (s : string) : take n s +:+ drop n s = s.
Proof.
  revert s. induction n as [|n IH]; intros s; [now destruct s|].
  destruct s as [|c s]; [reflexivity|]. simpl. now rewrite IH.
Qed.

Lemma length_take_drop (n : nat) (s : string) :
  String.length s = (String.length (take n s) + String.length (drop n s))%nat.
Proof. now rewrite <- length_app, take_drop. Qed.

Lemma drop_drop (n m : nat) (s : string) : drop m (drop n s) = drop (n + m) s.
Proof.
  revert s. induction n as [|n IH]; intros s; [reflexivity|].
  destruct s as [|c s]; [now rewrite !drop_nil|]. simpl. apply IH.
Qed.

Lemma sep_free_app (c : ascii) (a b : string) :
  sep_free c (a +:+ b) = sep_free c a && sep_free c b.
Proof.
  unfold sep_free. induction a as [|x a IH]; simpl; [reflexivity|].
  now rewrite IH, andb_assoc.
Qed.

Lemma sep_free_take (c : ascii) (n : nat) (s : string) :
  sep_free c s = true -> sep_free c (take n s) = true.
Proof.
  intros H. rewrite <- (take_drop n s), sep_free_app in H.
  now apply andb_prop in H as [H _].
Qed.

Lemma sep_free_drop (c : ascii) (n : nat) (s : string) :
  sep_free c s = true -> sep_free c (drop n s) = true.
Proof.
  intros H. rewrite <- (take_drop n s), sep_free_app in H.
  now apply andb_prop in H as [_ H].
Qed.

Lemma sep_free_concat (c : ascii) (l : list string) :
  Forall (fun s => sep_free c s = true) l -> sep_free c (concat_str l) = true.
Proof.
  induction 1 as [|s l Hs _ IH]; [reflexivity|].
  change (concat_str (s :: l)) with (s +:+ concat_str l).
  now rewrite sep_free_app, Hs, IH.
Qed.

(** [tojoplinid] is the juxtaposition of the pieces between hyphens. *)
Lemma tojoplinid_concat (guid : string) :
  tojoplinid guid = concat_str (split "-"%char guid).
Proof. unfold tojoplinid. apply join_empty_concat. Qed.

Lemma tojoplinid_free (id : string) :
  sep_free "-"%char id = true -> tojoplinid id = id.
Proof.
  intros H. rewrite tojoplinid_concat, (split_free _ _ H). simpl.
  apply app_nil_r.
Qed.

(** The converted identifier never holds a hyphen, whatever the text
    given (of any length, with any number of hyphens anywhere), so
    converting twice is converting once. *)
Theorem tojoplinid_strips_hyphens (guid : string) :
  sep_free "-"%char (tojoplinid guid) = true
  /\ occursb "-" (tojoplinid guid) = false
  /\ tojoplinid (tojoplinid guid) = tojoplinid guid.
Proof.
  assert (H : sep_free "-"%char (tojoplinid guid) = true).
  { rewrite tojoplinid_concat. apply sep_free_concat, split_pieces_free. }
  split; [exact H|]. split.
  - apply (occursb_no_lit (fun c => Ascii.eqb c "-"%char)); [reflexivity|].
    exact H.
  - now apply tojoplinid_free.
Qed.

(** The other round trip: an identifier without hyphen, of any length,
    comes back from [towizid] followed by [tojoplinid]. *)
Theorem tojoplinid_towizid_roundtrip (id : string) :
  sep_free "-"%char id = true -> tojoplinid (towizid id) = id.
Proof.
  intros H. unfold towizid, slice.
  set (segs := [take (8 - 0) (drop 0 id); take (12 - 8) (drop 8 id);
                take (16 - 12) (drop 12 id); take (20 - 16) (drop 16 id);
                drop 20 id]).
  assert (Hall : Forall (fun s => sep_free "-"%char s = true) segs).
  { subst segs. repeat constructor;
      auto using sep_free_take, sep_free_drop. }
  rewrite tojoplinid_concat.
  change "-" with (String "-"%char "").
  rewrite (split_join "-"%char segs); [|subst segs; discriminate | exact Hall].
  subst segs. unfold concat_str. cbn [fold_right].
  rewrite app_nil_r. change (drop 0 id) with id.
  change (8 - 0)%nat with 8%nat. change (12 - 8)%nat with 4%nat.
  change (16 - 12)%nat with 4%nat. change (20 - 16)%nat with 4%nat.
  replace (drop 20 id) with (drop 4 (drop 16 id)) by now rewrite drop_drop.
  rewrite take_drop.
  replace (drop 16 id) with (drop 4 (drop 12 id)) by now rewrite drop_drop.
  rewrite take_drop.
  replace (drop 12 id) with (drop 4 (drop 8 id)) by now rewrite drop_drop.
  rewrite take_drop. apply take_drop.
Qed.

Lemma tojoplinid_towizid_roundtrip_witness :
  tojoplinid (towizid "8337764cf89d4267bdf22e26ff156098")
  = "8337764cf89d4267bdf22e26ff156098".
Proof.
  apply (tojoplinid_towizid_roundtrip "8337764cf89d4267bdf22e26ff156098").
  reflexivity.
Defined.

(** [towizid] puts four hyphens in whatever the length of the
    identifier, also when it is shorter than 20 characters: the text
    grows by four characters and splits into the five slices, the
    trailing ones empty when the identifier is short. *)
Theorem towizid_four_hyphens (id : string) :
  sep_free "-"%char id = true ->
  String.length (towizid id) = (String.length id + 4)%nat
  /\ split "-"%char (towizid id)
     = [slice 0 8 id; slice 8 12 id; slice 12 16 id; slice 16 20 id;
        drop 20 id].
Proof.
  intros H. unfold towizid, slice. split.
  - cbn [join]. rewrite !length_app. cbn [String.length].
    change (drop 0 id) with id.
    change (8 - 0)%nat with 8%nat. change (12 - 8)%nat with 4%nat.
    change (16 - 12)%nat with 4%nat. change (20 - 16)%nat with 4%nat.
    pose proof (length_take_drop 8 id) as H1.
    pose proof (length_take_drop 4 (drop 8 id)) as H2.
    pose proof (length_take_drop 4 (drop 12 id)) as H3.
    pose proof (length_take_drop 4 (drop 16 id)) as H4.
    rewrite drop_drop in H2, H3, H4.
    change (8 + 4)%nat with 12%nat in H2.
    change (12 + 4)%nat with 16%nat in H3.
    change (16 + 4)%nat with 20%nat in H4.
    lia.
  - change "-" with (String "-"%char "").
    rewrite split_join; [reflexivity | discriminate |].
    repeat constructor; auto using sep_free_take, sep_free_drop.
Qed.

Lemma towizid_four_hyphens_witness :
  String.length (towizid "abcdefghij") = 14%nat
  /\ split "-"%char (towizid "abcdefghij") = ["abcdefgh"; "ij"; ""; ""; ""].
Proof. apply (towizid_four_hyphens "abcdefghij"). reflexivity. Defined.

(** *** A body that holds no link text *)

Lemma rewrite_body_absent (md : bool) (links : list JoplinInternalLink)
    (body : string) :
  Forall (fun jil => truthy (jil_outertext jil) = false
                     \/ occursb (jil_outertext jil) body = false) links ->
  rewrite_body md links body = body.
Proof.
  induction 1 as [|jil links Hj _ IH]; [reflexivity|].
  rewrite rewrite_body_cons.
  destruct (truthy (jil_outertext jil)) eqn:Ht; [|exact IH].
  destruct Hj as [Hj|Hj]; [discriminate|].
  rewrite replace_absent; [exact IH | | exact Hj].
  intros E. now rewrite E in Ht.
Qed.

(** When no link has a text that occurs in the body (the links that
    were never written inline have the empty text, which the guard of
    the loop skips), the body is not rewritten at all: the result is
    the body, normalised for a markdown note, with the list of the
    attachment links after it, and nothing after it when the note has
    no attachment link. *)
Theorem body_without_link_text_is_only_extended (get_text : string -> string)
    (body : string) (md : bool) (links : list JoplinInternalLink) :
  Forall (fun jil => truthy (jil_outertext jil) = false
                     \/ occursb (jil_outertext jil) body = false) links ->
  convert_joplin_body get_text body md links
  = (if md then get_text body else body)
      +:+ match List.filter
                  (fun jil => String.eqb (jil_link_type jil) "open_attachment")
                  links with
          | [] => ""
          | insert_to_end => gen_end_ilstr md insert_to_end
          end.
Proof.
  intros H. rewrite convert_joplin_body_eq, (rewrite_body_absent _ _ _ H).
  unfold normalise. f_equal.
  change (List.filter _ links) with (attachment_links links).
  destruct (attachment_links links) as [|e l] eqn:E; [reflexivity|].
  symmetry. now apply gen_end_ilstr_trailing.
Qed.

Lemma body_without_link_text_is_only_extended_witness :
  convert_joplin_body (fun s => s) "<p>plain</p>" false
    [mkJIL "n" "r1" "a.pdf" "open_attachment" "";
     mkJIL "n" "r2" "b" "open_document" "<a href=x>b</a>"]
  = "<p>plain</p>"
      +:+ gen_end_ilstr false [mkJIL "n" "r1" "a.pdf" "open_attachment" ""].
Proof.
  apply (body_without_link_text_is_only_extended (fun s => s) "<p>plain</p>" false
           [mkJIL "n" "r1" "a.pdf" "open_attachment" "";
            mkJIL "n" "r2" "b" "open_document" "<a href=x>b</a>"]).
  constructor; [left; reflexivity|].
  constructor; [right; reflexivity | constructor].
Defined.

End ParserMore.

(** ** More on the conversion cache *)

Module CacheMore.
Import CacheFacts AdapterFacts FirstRunFacts.

(** *** The order in which folders wait *)

Lemma of_level_insert (n : Z) (x : Location2Folder) (l : list Location2Folder) :
  of_level n (insert_by_level x l) = of_level n (x :: l).
Proof.
  induction l as [|y l IH]; [reflexivity|].
  simpl insert_by_level.
  destruct (l2f_level x <=? l2f_level y)%Z eqn:E; [reflexivity|].
  apply Z.leb_gt in E.
  unfold of_level in *. cbn [List.filter] in *. rewrite IH.
  destruct (l2f_level y =? n)%Z eqn:Ey, (l2f_level x =? n)%Z eqn:Ex;
    try reflexivity.
  apply Z.eqb_eq in Ex, Ey. lia.
Qed.

Lemma of_level_sort (n : Z) (l : list Location2Folder) :
  of_level n (sort_by_level l) = of_level n l.
Proof.
  induction l as [|x l IH]; [reflexivity|].
  simpl sort_by_level. rewrite of_level_insert.
  unfold of_level in *. cbn [List.filter]. now rewrite IH.
Qed.

(** The sort of [get_waiting_for_created_l2f] is stable: the waiting
    entries of one level come out in the order of the chain, so folders
    of one level are requested in the order in which the chain holds
    them. *)
Theorem waiting_order_is_stable (cu : ConvertUtil) (n : Z) :
  List.filter (fun e => (l2f_level e =? n)%Z) (get_waiting_for_created_l2f cu)
  = List.filter (fun e => (l2f_level e =? n)%Z)
      (filter (fun v => id_is_none v = true) (PyDict.values (l2f_cache cu))).
Proof. unfold get_waiting_for_created_l2f. apply (of_level_sort n). Qed.

(** *** The folders built from the chain *)

Lemma last_with {A} (P : A -> Prop) `{forall x, Decision (P x)} (l : list A) (x : A) :
  In x l -> P x ->
  exists pre y post, l = pre ++ y :: post /\ P y /\ Forall (fun z => ~ P z) post.
Proof.
  intros Hin Hx.
  assert (Hex : Exists P l).
  { apply Exists_exists. exists x. split; [now apply list_elem_of_In | exact Hx]. }
  clear x Hin Hx. induction l as [|a l IH]; [inversion Hex|].
  destruct (decide (Exists P l)) as [Hl|Hno].
  - destruct (IH Hl) as (pre & y & post & -> & Hy & Hpost).
    now exists (a :: pre), y, post.
  - inversion Hex as [? ? Ha|? ? Hl]; subst; [|contradiction].
    exists [], a, l. repeat split; [exact Ha|].
    apply List.Forall_forall. intros u Hu Pu. apply Hno.
    apply Exists_exists. exists u. split; [now apply list_elem_of_In | exact Pu].
Qed.

Lemma fold_folders_frame (l : list Location2Folder)
    (m : gmap (option string) JoplinFolder) (k : option string) :
  Forall (fun z => l2f_id z <> k) l ->
  fold_left
    (fun m l2f =>
       <[l2f_id l2f :=
           mkFolder (l2f_id l2f) (l2f_title l2f) 0 0 (l2f_parent_id l2f)]> m)
    l m !! k = m !! k.
Proof.
  revert m. induction l as [|x l IH]; intros m Hl; [reflexivity|].
  inversion Hl as [|? ? Hx Hl']; subst. cbn [fold_left].
  rewrite IH by exact Hl'. now apply lookup_insert_ne.
Qed.

Lemma fold_folders_last (pre post : list Location2Folder) (y : Location2Folder)
    (m : gmap (option string) JoplinFolder) :
  Forall (fun z => l2f_id z <> l2f_id y) post ->
  fold_left
    (fun m l2f =>
       <[l2f_id l2f :=
           mkFolder (l2f_id l2f) (l2f_title l2f) 0 0 (l2f_parent_id l2f)]> m)
    (pre ++ y :: post) m !! l2f_id y
  = Some (mkFolder (l2f_id y) (l2f_title y) 0 0 (l2f_parent_id y)).
Proof.
  intros Hpost. rewrite fold_left_app. cbn [fold_left].
  rewrite fold_folders_frame by exact Hpost. apply lookup_insert_eq.
Qed.

(** After [load_folders], the folder found for the location of a chain
    entry is the one built from the last entry of the chain that has
    the same target id: it has the id of the entry, and the title and
    the parent of that last one.  Entries that have no id yet all share
    the key [None]. *)
Theorem get_folder_last_entry_wins (cu : ConvertUtil) (location : string)
    (e : Location2Folder) :
  PyDict.get location (l2f_cache cu) = Some e -> location <> "" ->
  exists pre e' post,
    PyDict.values (l2f_cache cu) = pre ++ e' :: post
    /\ l2f_id e' = l2f_id e
    /\ Forall (fun z => l2f_id z <> l2f_id e) post
    /\ get_folder_by_location location (load_folders cu)
       = Some (mkFolder (l2f_id e) (l2f_title e') 0 0 (l2f_parent_id e')).
Proof.
  intros Hget Hne.
  assert (Hin : In e (PyDict.values (l2f_cache cu))).
  { unfold PyDict.values. apply (in_map snd _ (location, e)).
    now apply dict_get_in. }
  destruct (last_with (fun z => l2f_id z = l2f_id e) _ e Hin eq_refl)
    as (pre & y & post & Hl & Hy & Hpost).
  exists pre, y, post. repeat split; [exact Hl | exact Hy | exact Hpost |].
  unfold get_folder_by_location.
  replace (PyStr.truthy location) with true by (now destruct location).
  change (l2f_cache (load_folders cu)) with (l2f_cache cu). rewrite Hget.
  unfold load_folders. cbn [folders set_folders].
  rewrite Hl, <- Hy. rewrite fold_folders_last; [reflexivity|].
  now rewrite Hy.
Qed.

Lemma get_folder_last_entry_wins_witness :
  exists pre e' post,
    PyDict.values
      (l2f_cache (SimpleTarget.cu_of_chain
                    [Location2Folder_of "/a/"; Location2Folder_of "/b/"]))
    = pre ++ e' :: post
    /\ l2f_id e' = l2f_id (Location2Folder_of "/a/")
    /\ Forall (fun z => l2f_id z <> l2f_id (Location2Folder_of "/a/")) post
    /\ get_folder_by_location "/a/"
         (load_folders (SimpleTarget.cu_of_chain
                          [Location2Folder_of "/a/"; Location2Folder_of "/b/"]))
       = Some (mkFolder (l2f_id (Location2Folder_of "/a/")) (l2f_title e') 0 0
                 (l2f_parent_id e')).
Proof.
  apply (get_folder_last_entry_wins
           (SimpleTarget.cu_of_chain
              [Location2Folder_of "/a/"; Location2Folder_of "/b/"])
           "/a/" (Location2Folder_of "/a/")); [reflexivity | discriminate].
Defined.

End CacheMore.

(** ** The tables and the dictionaries in step *)

Module TableFacts.
Import CacheFacts AdapterFacts FirstRunFacts.

(** *** [add_resource] *)

(** With the dictionary holding the rows of the table: recording, one
    after the other, resources whose integers fit the 64 bits of sqlite
    never fails; each call returns, the dictionary and the table stay
    the same, and the first resource recorded under an id stays: a
    later one with the same id is dropped.  A resource with a new id
    and an integer that does not fit raises [OverflowError], and
    nothing is written. *)
Theorem add_resource_first_write_wins (l : list JoplinResource) (c : ConvertUtil) :
  resources_mirror c ->
  (Forall (fun jr => resource_fits jr = true) l ->
   exists c',
     for_each add_resource l c = Ret tt c'
     /\ resources_mirror c'
     /\ forall k,
          resources c' !! k
          = match resources c !! k with
            | Some r => Some r
            | None => List.find (fun jr => String.eqb (jr_id jr) k) l
            end)
  /\ (forall jr,
        resources c !! jr_id jr = None -> resource_fits jr = false ->
        add_resource jr c = Raise OverflowError c).
Proof.
  intros Hm. split; [|intros jr; apply add_resource_overflow].
  intros Hfit. revert c Hm.
  induction Hfit as [|jr l Hjr Hl IH]; intros c Hm.
  - exists c. repeat split; [exact Hm|]. intros k.
    now destruct (resources c !! k).
  - destruct (add_resource_mirror jr c Hm Hjr) as (c1 & H1 & Hm1 & Hk1).
    destruct (IH c1 Hm1) as (c2 & H2 & Hm2 & Hk2).
    exists c2. split; [|split; [exact Hm2|]].
    + cbn [for_each]. unfold bind. now rewrite H1.
    + intros k. rewrite Hk2, Hk1. cbn [List.find].
      destruct (resources c !! k); [reflexivity|].
      now destruct (String.eqb (jr_id jr) k).
Qed.

Lemma add_resource_first_write_wins_witness :
  let l := [mkResource "r1" "a" "a.png" 0 1; mkResource "r1" "b" "b.png" 0 1] in
  (exists c',
     for_each add_resource l SimpleTarget.empty_cu = Ret tt c'
     /\ resources_mirror c'
     /\ forall k,
          resources c' !! k
          = match resources SimpleTarget.empty_cu !! k with
            | Some r => Some r
            | None => List.find (fun jr => String.eqb (jr_id jr) k) l
            end)
  /\ add_resource (mkResource "r2" "c" "c.png" (2 ^ 63) 1) SimpleTarget.empty_cu
     = Raise OverflowError SimpleTarget.empty_cu.
Proof.
  intros l.
  destruct (add_resource_first_write_wins l SimpleTarget.empty_cu eq_refl)
    as [H1 H2].
  split.
  - apply H1. repeat constructor.
  - apply H2; reflexivity.
Defined.

(** *** [add_tag] *)

(** With the dictionary of the tags holding the rows of the table,
    [add_tag] fails in two cases only, both for a new id and with
    nothing written: a time that does not fit the 64 bits of sqlite is
    refused with [OverflowError] when the parameters are bound; the
    times fitting, a title that another row has is refused with the
    integrity error of the unique index.  In every other case [add_tag]
    returns, the tag is in the dictionary, and the dictionary and the
    table still agree, with no title twice. *)
Theorem add_tag_fails_on_title_clash_only (tag : JoplinTag) (c : ConvertUtil) :
  tags_mirror c ->
  (add_tag tag c = Raise OverflowError c
   /\ tags c !! jt_id tag = None
   /\ tag_fits tag = false)
  \/ (add_tag tag c = Raise IntegrityError c
      /\ tags c !! jt_id tag = None
      /\ tag_fits tag = true
      /\ exists k t, db_tag c !! k = Some t /\ jt_title t = jt_title tag)
  \/ (exists c',
        add_tag tag c = Ret tt c'
        /\ tags_mirror c'
        /\ is_Some (tags c' !! jt_id tag)
        /\ (tags c !! jt_id tag = None ->
            tag_fits tag = true
            /\ ~ exists k t, db_tag c !! k = Some t /\ jt_title t = jt_title tag)).
Proof.
  intros [Hm Hu]. unfold add_tag, tag_fits.
  destruct (tags c !! jt_id tag) as [t0|] eqn:E.
  - right. right. exists c. repeat split; [exact Hm | exact Hu | eauto | |];
      discriminate.
  - destruct (sqlite_int (jt_created_time tag) && sqlite_int (jt_updated_time tag))
      eqn:Hfit; cbn [negb]; [|left; repeat split].
    right.
    destruct (bool_decide
                (map_Exists (fun _ t => jt_title t = jt_title tag) (db_tag c)))
      eqn:Eb.
    + left. apply bool_decide_eq_true in Eb. destruct Eb as (k & t & Hk & Ht).
      repeat split. now exists k, t.
    + right. apply bool_decide_eq_false in Eb.
      unfold sql_insert. rewrite <- Hm, E.
      eexists. split; [reflexivity|]. split; [|split].
      * split; [cbn; now rewrite Hm|]. cbn.
        intros k1 k2 t1 t2 H1 H2 Ht.
        rewrite lookup_insert in H1, H2.
        destruct (decide (jt_id tag = k1)) as [<-|N1],
                 (decide (jt_id tag = k2)) as [<-|N2]; try reflexivity.
        -- exfalso. apply Eb. exists k2, t2. rewrite <- Hm.
           split; [exact H2|]. injection H1 as <-. now symmetry.
        -- exfalso. apply Eb. exists k1, t1. rewrite <- Hm.
           split; [exact H1|]. injection H2 as <-. exact Ht.
        -- rewrite Hm in H1, H2. now apply (Hu k1 k2 t1 t2).
      * cbn. rewrite lookup_insert_eq. eauto.
      * intros _. split; [reflexivity|].
        intros (k & t & Hk & Ht). apply Eb. exists k, t.
        rewrite <- Hm. now split.
Qed.

Lemma add_tag_fails_on_title_clash_only_witness :
  let c := final (add_tag (mkTag "t1" "work" 0 0) SimpleTarget.empty_cu) in
  add_tag (mkTag "t2" "home" (2 ^ 63) 0) c = Raise OverflowError c
  /\ add_tag (mkTag "t2" "work" 5 5) c = Raise IntegrityError c
  /\ exists c', add_tag (mkTag "t2" "home" 5 5) c = Ret tt c'
                /\ tags_mirror c' /\ is_Some (tags c' !! "t2").
Proof.
  intros c.
  assert (Hc : tags_mirror c).
  { split; [reflexivity|]. intros k1 k2 t1 t2 H1 H2 _.
    change (db_tag c) with (<["t1" := mkTag "t1" "work" 0 0]> ∅ : gmap string JoplinTag)
      in H1, H2.
    rewrite lookup_insert in H1, H2.
    destruct (decide ("t1" = k1)) as [<-|]; [|now rewrite lookup_empty in H1].
    destruct (decide ("t1" = k2)) as [<-|]; [|now rewrite lookup_empty in H2].
    reflexivity. }
  split; [|split].
  - destruct (add_tag_fails_on_title_clash_only (mkTag "t2" "home" (2 ^ 63) 0) c Hc)
      as [(H & _)|[(_ & _ & H & _)|(c' & _ & _ & _ & H)]];
      [exact H | discriminate H | destruct (H eq_refl) as [H' _]; discriminate H'].
  - destruct (add_tag_fails_on_title_clash_only (mkTag "t2" "work" 5 5) c Hc)
      as [(_ & _ & H)|[(H & _)|(c' & _ & _ & _ & H)]];
      [discriminate H | exact H |].
    destruct (H eq_refl) as [_ H']. exfalso. apply H'.
    exists "t1", (mkTag "t1" "work" 0 0). split; reflexivity.
  - destruct (add_tag_fails_on_title_clash_only (mkTag "t2" "home" 5 5) c Hc)
      as [(_ & _ & H)|[(_ & _ & _ & k & t & Hk & Ht)|(c' & H1 & H2 & H3 & _)]];
      [discriminate H | | now exists c'].
    exfalso.
    change (db_tag c) with (<["t1" := mkTag "t1" "work" 0 0]> ∅ : gmap string JoplinTag)
      in Hk.
    rewrite lookup_insert in Hk.
    destruct (decide ("t1" = k)) as [<-|]; [|now rewrite lookup_empty in Hk].
    injection Hk as <-. discriminate Ht.
Defined.

(** *** The table [l2f] and the chain *)

Lemma list_to_map_get {V} (d : list (string * V)) (k : string) :
  (list_to_map d : gmap string V) !! k = PyDict.get k d.
Proof.
  induction d as [|[k' v] d IH]; [apply lookup_empty|].
  cbn [list_to_map foldr PyDict.get]. simpl.
  destruct (String.eqb_spec k k') as [->|Hne].
  - apply lookup_insert_eq.
  - rewrite lookup_insert_ne by congruence. exact IH.
Qed.

Lemma update_l2f_mirror (location : string) (id parent_id : option string) :
  keeps l2f_mirror (update_l2f location id parent_id).
Proof.
  intros c [[Hnd Hloc] Hm]. unfold update_l2f.
  destruct (PyDict.get location (l2f_cache c)) as [inst|] eqn:Hget;
    [|now repeat split].
  assert (Hinst : l2f_location inst = location).
  { rewrite List.Forall_forall in Hloc.
    apply (Hloc (location, inst)). now apply dict_get_in. }
  cbn [final l2f_location l2f_id l2f_parent_id].
  split; [split|]; cbn.
  - now rewrite (dict_set_keys _ _ inst).
  - apply dict_set_Forall; [exact Hloc | exact Hinst].
  - intros k. rewrite Hinst, Hm, Hget.
    destruct (String.eqb_spec k location) as [->|Hne].
    + rewrite lookup_insert_eq, dict_get_set_eq. now rewrite Hinst.
    + rewrite lookup_insert_ne by congruence.
      rewrite dict_get_set_ne by exact Hne. apply Hm.
Qed.

Section Folders.

Variable J : Type.
Variable post_folder : J -> string -> option string -> J * result JoplinFolder.

Lemma sync_folder_mirror (l2f : Location2Folder) :
  keeps (fun w : World J => l2f_mirror (cu w)) (sync_folder J post_folder l2f).
Proof.
  unfold sync_folder. repeat keeps_step;
    apply keeps_lift_cu, update_l2f_mirror.
Qed.

(** However [sync_folders] ends, by returning or by an exception of
    the target or of a missing parent, the table [l2f] holds the chain
    held in memory: the ids obtained before a failure are on disk, and
    the next start reads them back. *)
Theorem sync_folders_keeps_table_in_step (w : World J) :
  l2f_mirror (cu w) ->
  l2f_mirror (cu (final (sync_folders J post_folder w))).
Proof.
  revert w.
  change (keeps (fun w : World J => l2f_mirror (cu w)) (sync_folders J post_folder)).
  unfold sync_folders. repeat keeps_step; [apply sync_folder_mirror|].
  apply keeps_lift_cu. intros c Hc. exact Hc.
Qed.

End Folders.

Lemma sync_folders_keeps_table_in_step_witness :
  let y := mkL2F "/x/y/" "y" (Some "/x/") 2 None None in
  let a := mkL2F "/a/" "a" None 1 None None in
  let w := mkWorld (SimpleTarget.cu_of_chain [y; a]) ([] : SimpleTarget.J) [] in
  l2f_mirror (cu (final (SimpleTarget.sync_folders w))).
Proof.
  intros y a w.
  apply (sync_folders_keeps_table_in_step SimpleTarget.J SimpleTarget.post_folder w).
  split; [split|].
  - cbn. apply NoDup_cons. split; [|apply NoDup_singleton].
    intros H. apply list_elem_of_In in H. destruct H as [H|[]]. discriminate.
  - cbn. repeat constructor.
  - intros k. apply list_to_map_get.
Defined.

End TableFacts.

(** ** The hierarchy resolver *)

Module ResolverFacts.
Import PyStr PyStrFacts IdentFacts CacheFacts AdapterFacts FirstRunFacts TableFacts.

(** *** Levels *)

Lemma removelast_shorter {A} (l : list A) :
  length (removelast l) = (length l - 1)%nat.
Proof.
  induction l as [|x l IH]; [reflexivity|].
  destruct l as [|y l]; [reflexivity|].
  change (removelast (x :: y :: l)) with (x :: removelast (y :: l)).
  simpl length in *. lia.
Qed.

Lemma Forall_removelast {A} (P : A -> Prop) (l : list A) :
  Forall P l -> Forall P (removelast l).
Proof.
  induction 1 as [|x l Hx Hl IH]; [constructor|].
  destruct l as [|y l]; [constructor|].
  change (removelast (x :: y :: l)) with (x :: removelast (y :: l)).
  now constructor.
Qed.

Lemma level_of_pos (location : string) : (1 <= level_of location)%Z.
Proof.
  unfold level_of, Location2Folder_of, Location2Folder_init.
  cbn [l2f_level].
  pose proof (split_not_nil "/"%char (slice_1_m1 location)) as H.
  destruct (split "/"%char (slice_1_m1 location)); [congruence|].
  simpl length. lia.
Qed.

(** The parent location that [Location2Folder] computes is one level
    higher. *)
Lemma parent_level (location p : string) :
  l2f_parent_location (Location2Folder_of location) = Some p ->
  level_of p = (level_of location - 1)%Z.
Proof.
  unfold level_of, Location2Folder_of, Location2Folder_init.
  cbn [l2f_parent_location l2f_level].
  pose proof (split_not_nil "/"%char (slice_1_m1 location)) as Hnn.
  pose proof (split_pieces_free "/"%char (slice_1_m1 location)) as Hfree.
  set (titles := split "/"%char (slice_1_m1 location)) in *.
  destruct (1 <? Z.of_nat (length titles))%Z eqn:E; [|discriminate].
  apply Z.ltb_lt in E.
  intros H. injection H as <-.
  change ("/" +:+ join "/" (removelast titles) +:+ "/")
    with (String "/" (join (String "/" "") (removelast titles) +:+ String "/" "")).
  rewrite slice_wrapped, split_join.
  - rewrite removelast_shorter. lia.
  - intros Hnil. apply (f_equal (@length string)) in Hnil.
    rewrite removelast_shorter in Hnil. simpl in Hnil. lia.
  - now apply Forall_removelast.
Qed.

(** *** The ordered dictionary, once more *)

Lemma dict_get_none_notin {V} (k : string) (d : list (string * V)) :
  PyDict.get k d = None -> ~ In k (map fst d).
Proof.
  induction d as [|[k' v'] d IH]; simpl; [tauto|].
  destruct (String.eqb_spec k k') as [->|Hne]; [discriminate|].
  intros H [Heq|Hin]; [congruence | now apply IH].
Qed.

Lemma dict_notin_get_none {V} (k : string) (d : list (string * V)) :
  ~ In k (map fst d) -> PyDict.get k d = None.
Proof.
  induction d as [|[k' v'] d IH]; simpl; [reflexivity|].
  intros H. destruct (String.eqb_spec k k') as [->|Hne]; [tauto|].
  apply IH. tauto.
Qed.

Lemma dict_set_keys_new {V} (k : string) (v : V) (d : list (string * V)) :
  PyDict.get k d = None -> map fst (PyDict.set k v d) = map fst d ++ [k].
Proof.
  induction d as [|[k' v'] d IH]; simpl; [reflexivity|].
  destruct (String.eqb k k'); [discriminate|].
  intros H. simpl. now rewrite IH.
Qed.

Lemma dict_set_nodup {V} (k : string) (v : V) (d : list (string * V)) :
  NoDup (map fst d) -> NoDup (map fst (PyDict.set k v d)).
Proof.
  intros Hnd. destruct (PyDict.get k d) as [v0|] eqn:E.
  - now rewrite (dict_set_keys _ _ v0).
  - rewrite dict_set_keys_new by exact E.
    apply NoDup_app. split; [exact Hnd|]. split; [|apply NoDup_singleton].
    intros x Hx Hx'. apply list_elem_of_In in Hx, Hx'.
    destruct Hx' as [<-|[]]. now apply (dict_get_none_notin k d).
Qed.

Lemma extends_refl (d : list (string * Location2Folder)) : extends d d.
Proof. intros k e H. exact H. Qed.

Lemma extends_trans (d1 d2 d3 : list (string * Location2Folder)) :
  extends d1 d2 -> extends d2 d3 -> extends d1 d3.
Proof. intros H12 H23 k e H. now apply H23, H12. Qed.

Lemma extends_set_new (location : string) (v : Location2Folder)
    (d : list (string * Location2Folder)) :
  PyDict.get location d = None -> extends d (PyDict.set location v d).
Proof.
  intros Hnone k e Hk. rewrite dict_get_set_ne; [exact Hk|].
  intros ->. congruence.
Qed.

Lemma rooted_mono (d d' : list (string * Location2Folder)) (location : string) :
  extends d d' -> rooted d location -> rooted d' location.
Proof.
  intros Hext. induction 1 as [loc e Hget Hp|loc parent e Hget Hp _ IH].
  - apply (rooted_top d' loc e); [now apply Hext | exact Hp].
  - apply (rooted_child d' loc parent e); [now apply Hext | exact Hp | exact IH].
Qed.

(** *** The entry of a location *)

Lemma rs_cu_note_entry (location : string) (document : option nat)
    (e : Location2Folder) (rs : Resolver) :
  rs_cu (note_entry location document e rs) = rs_cu rs.
Proof.
  unfold note_entry. destruct document; cbn;
    match goal with |- context [if ?b then _ else _] => destruct b end;
    reflexivity.
Qed.

(** Whatever the state, the entries that the chain holds stay as they
    are when an entry is looked up or made. *)
Lemma lookup_or_create_extends (d0 : list (string * Location2Folder))
    (location : string) :
  keeps (fun rs => extends d0 (l2f_cache (rs_cu rs))) (lookup_or_create location).
Proof.
  intros rs Hrs. unfold lookup_or_create.
  destruct (PyDict.get location (l2f_cache (rs_cu rs))) as [e|] eqn:Hget;
    [exact Hrs|].
  assert (H : extends d0 (PyDict.set location (Location2Folder_of location)
                            (l2f_cache (rs_cu rs)))).
  { apply (extends_trans _ _ _ Hrs). now apply extends_set_new. }
  destruct (sql_insert _ _ _); exact H.
Qed.

Lemma build_location_to_top_extends (d0 : list (string * Location2Folder))
    (fuel : nat) (location : string) (document : option nat) :
  keeps (fun rs => extends d0 (l2f_cache (rs_cu rs)))
    (build_location_to_top fuel location document).
Proof.
  revert location document. induction fuel as [|fuel IH]; intros location document.
  - apply keeps_raise.
  - cbn [build_location_to_top].
    apply keeps_bind; [apply lookup_or_create_extends|]. intros e.
    apply keeps_bind.
    + destruct (l2f_parent_location e); [apply IH | apply keeps_ret].
    + intros _ rs Hrs. unfold modify. cbn [final].
      now rewrite rs_cu_note_entry.
Qed.

Lemma lookup_or_create_spec (location : string) (rs : Resolver) :
  resolver_inv rs ->
  exists e rs0,
    lookup_or_create location rs = Ret e rs0
    /\ resolver_inv rs0
    /\ PyDict.get location (l2f_cache (rs_cu rs0)) = Some e
    /\ l2f_parent_location e = l2f_parent_location (Location2Folder_of location)
    /\ l2f_level e = level_of location
    /\ extends (l2f_cache (rs_cu rs)) (l2f_cache (rs_cu rs0))
    /\ fresh_entries (l2f_cache (rs_cu rs)) (l2f_cache (rs_cu rs0))
    /\ folder_max_level rs0 = folder_max_level rs
    /\ document_folder rs0 = document_folder rs.
Proof.
  intros [[[Hnd Hloc] Hm] Hder]. unfold lookup_or_create.
  destruct (PyDict.get location (l2f_cache (rs_cu rs))) as [e|] eqn:Hget.
  - exists e, rs.
    assert (Hin : In (location, e) (l2f_cache (rs_cu rs))) by now apply dict_get_in.
    assert (He : l2f_location e = location).
    { rewrite List.Forall_forall in Hloc. exact (Hloc _ Hin). }
    assert (Hd : derived e).
    { rewrite List.Forall_forall in Hder. exact (Hder _ Hin). }
    destruct Hd as [Hd1 Hd2]. rewrite He in Hd1, Hd2.
    repeat split; try assumption; try apply extends_refl.
    intros k e' Hk Hk'. congruence.
  - cbn [set_rs_cu rs_cu l2f_cache db_l2f set_l2f_cache].
    unfold sql_insert. rewrite Hm, Hget.
    eexists _, _. split; [reflexivity|].
    cbn [set_rs_cu rs_cu l2f_cache db_l2f set_l2f_cache set_db_l2f
           folder_max_level document_folder].
    repeat split.
    + now apply dict_set_nodup.
    + now apply dict_set_Forall.
    + cbn. intros k. destruct (String.eqb_spec k location) as [->|Hne].
      * now rewrite lookup_insert_eq, dict_get_set_eq.
      * rewrite lookup_insert_ne by congruence.
        rewrite dict_get_set_ne by exact Hne. apply Hm.
    + cbn. apply dict_set_Forall; [exact Hder|]. now split.
    + apply dict_get_set_eq.
    + now apply extends_set_new.
    + intros k e' Hk Hk'.
      destruct (String.eqb_spec k location) as [->|Hne].
      * rewrite dict_get_set_eq in Hk. congruence.
      * rewrite dict_get_set_ne in Hk by exact Hne. congruence.
Qed.

(** *** [build_location_to_top] *)

Lemma note_entry_max (location : string) (document : option nat)
    (e : Location2Folder) (rs : Resolver) :
  folder_max_level (note_entry location document e rs)
  = Z.max (folder_max_level rs) (l2f_level e).
Proof.
  unfold note_entry. destruct document; cbn;
    match goal with |- context [if ?b then _ else _] => destruct b eqn:E end;
    cbn; first [apply Z.ltb_lt in E | apply Z.ltb_ge in E]; lia.
Qed.

Lemma note_entry_folder (location : string) (document : option nat)
    (e : Location2Folder) (rs : Resolver) :
  document_folder (note_entry location document e rs)
  = match document with
    | Some d => <[d := location]> (document_folder rs)
    | None => document_folder rs
    end.
Proof.
  unfold note_entry. destruct document; cbn;
    match goal with |- context [if ?b then _ else _] => destruct b end;
    reflexivity.
Qed.

Lemma resolver_inv_note_entry (location : string) (document : option nat)
    (e : Location2Folder) (rs : Resolver) :
  resolver_inv rs -> resolver_inv (note_entry location document e rs).
Proof. unfold resolver_inv. now rewrite rs_cu_note_entry. Qed.

Lemma fresh_entries_trans (d1 d2 d3 : list (string * Location2Folder)) :
  extends d2 d3 -> fresh_entries d1 d2 -> fresh_entries d2 d3 ->
  fresh_entries d1 d3.
Proof.
  intros Hext H12 H23 k e Hk Hnone.
  destruct (PyDict.get k d2) as [e2|] eqn:E2.
  - pose proof (H12 k e2 E2 Hnone) as He2.
    pose proof (Hext k e2 E2) as H3. congruence.
  - now apply H23.
Qed.

(** The recursion of [build_location_to_top] ends: on a chain whose
    entries are derived from their locations and whose table agrees
    with it, with a depth allowed that exceeds the level of the
    location, it returns; the chain then holds the location and every
    ancestor of it up to a top-level folder; the entries it held before
    are as they were; the entries made have no id; the chain and the
    table still agree; the largest level is at least the level of the
    location; and the document, when one is given, refers to the entry
    of the location. *)
Theorem build_location_to_top_resolves (fuel : nat) (location : string)
    (document : option nat) (rs : Resolver) :
  resolver_inv rs ->
  (Z.to_nat (level_of location) < fuel)%nat ->
  exists rs',
    build_location_to_top fuel location document rs = Ret tt rs'
    /\ resolver_inv rs'
    /\ rooted (l2f_cache (rs_cu rs')) location
    /\ extends (l2f_cache (rs_cu rs)) (l2f_cache (rs_cu rs'))
    /\ fresh_entries (l2f_cache (rs_cu rs)) (l2f_cache (rs_cu rs'))
    /\ folder_max_level rs' = Z.max (folder_max_level rs) (level_of location)
    /\ document_folder rs'
       = match document with
         | Some d => <[d := location]> (document_folder rs)
         | None => document_folder rs
         end.
Proof.
  revert location document rs.
  induction fuel as [|fuel IH]; intros location document rs Hinv Hfuel; [lia|].
  cbn [build_location_to_top]. unfold bind.
  destruct (lookup_or_create_spec location rs Hinv)
    as (e & rs0 & -> & Hinv0 & Hget0 & Hpar & Hlvl & Hext0 & Hfresh0 & Hmax0 & Hdoc0).
  pose proof (level_of_pos location) as Hpos.
  destruct (l2f_parent_location e) as [p|] eqn:Hp.
  - symmetry in Hpar. pose proof (parent_level location p Hpar) as Hpl.
    assert (Hf : (Z.to_nat (level_of p) < fuel)%nat) by lia.
    destruct (IH p None rs0 Hinv0 Hf) as
      (rs1 & Hrun & Hinv1 & Hroot1 & Hext1 & Hfresh1 & Hmax1 & Hdoc1).
    rewrite Hrun.
    eexists. split; [reflexivity|].
    split; [now apply resolver_inv_note_entry|].
    rewrite rs_cu_note_entry, note_entry_max, note_entry_folder.
    split; [|split; [|split; [|split]]].
    + apply (rooted_child _ location p e); [now apply Hext1 | exact Hp | exact Hroot1].
    + now apply (extends_trans _ _ _ Hext0).
    + now apply (fresh_entries_trans _ _ _ Hext1 Hfresh0).
    + rewrite Hmax1, Hmax0, Hlvl. pose proof (level_of_pos p). lia.
    + now rewrite Hdoc1, Hdoc0.
  - eexists. split; [reflexivity|]. unfold ret, modify.
    split; [now apply resolver_inv_note_entry|].
    rewrite rs_cu_note_entry, note_entry_max, note_entry_folder.
    split; [|split; [|split; [|split]]].
    + now apply (rooted_top _ location e).
    + exact Hext0.
    + exact Hfresh0.
    + now rewrite Hmax0, Hlvl.
    + now rewrite Hdoc0.
Qed.

Lemma resolver_inv_empty :
  resolver_inv (mkResolver SimpleTarget.empty_cu 0 ∅).
Proof.
  split; [split; [split|]|]; cbn.
  - apply NoDup_nil_2.
  - constructor.
  - intros k. apply lookup_empty.
  - constructor.
Qed.

Lemma build_location_to_top_resolves_witness :
  exists rs',
    build_location_to_top 3 "/Work/Projects/" (Some 0%nat)
      (mkResolver SimpleTarget.empty_cu 0 ∅) = Ret tt rs'
    /\ resolver_inv rs'
    /\ rooted (l2f_cache (rs_cu rs')) "/Work/Projects/"
    /\ extends [] (l2f_cache (rs_cu rs'))
    /\ fresh_entries [] (l2f_cache (rs_cu rs'))
    /\ folder_max_level rs' = Z.max 0 (level_of "/Work/Projects/")
    /\ document_folder rs' = <[0%nat := "/Work/Projects/"]> ∅.
Proof.
  apply (build_location_to_top_resolves 3 "/Work/Projects/" (Some 0%nat)
           (mkResolver SimpleTarget.empty_cu 0 ∅)).
  - apply resolver_inv_empty.
  - vm_compute. lia.
Defined.

(** *** [convert_l2f] *)

Lemma fold_set_get {V W} (g : string * W -> V) (l : list (string * W))
    (d0 : list (string * V)) (k : string) :
  NoDup (map fst l) ->
  PyDict.get k (fold_left (fun d it => PyDict.set (fst it) (g it) d) l d0)
  = match List.find (fun it => String.eqb k (fst it)) l with
    | Some it => Some (g it)
    | None => PyDict.get k d0
    end.
Proof.
  revert d0. induction l as [|it l IH]; intros d0 Hnd; [reflexivity|].
  cbn [map] in Hnd. apply NoDup_cons in Hnd as [Hnot Hnd].
  cbn [fold_left List.find]. rewrite IH by exact Hnd.
  destruct (String.eqb_spec k (fst it)) as [->|Hne].
  - destruct (List.find _ l) as [it'|] eqn:E; [|apply dict_get_set_eq].
    exfalso. apply List.find_some in E as [Hin Heq].
    apply String.eqb_eq in Heq. apply Hnot. rewrite Heq.
    apply list_elem_of_In. now apply in_map.
  - destruct (List.find _ l); [reflexivity|]. now apply dict_get_set_ne.
Qed.

Lemma fold_set_nodup {V W} (g : string * W -> V) (l : list (string * W))
    (d0 : list (string * V)) :
  NoDup (map fst d0) ->
  NoDup (map fst (fold_left (fun d it => PyDict.set (fst it) (g it) d) l d0)).
Proof.
  revert d0. induction l as [|it l IH]; intros d0 Hnd; [exact Hnd|].
  cbn [fold_left]. apply IH. now apply dict_set_nodup.
Qed.

Lemma fold_set_Forall {V W} (P : string * V -> Prop) (g : string * W -> V)
    (l : list (string * W)) (d0 : list (string * V)) :
  Forall P d0 -> (forall it, In it l -> P (fst it, g it)) ->
  Forall P (fold_left (fun d it => PyDict.set (fst it) (g it) d) l d0).
Proof.
  revert d0. induction l as [|it l IH]; intros d0 Hd Hl; [exact Hd|].
  cbn [fold_left]. apply IH.
  - apply dict_set_Forall; [exact Hd|]. apply Hl. now left.
  - intros it' Hin. apply Hl. now right.
Qed.

(** The chain read back holds every row of the table, under the
    location of the row. *)
Lemma load_l2f_get (c : ConvertUtil) (k : string) :
  PyDict.get k (l2f_cache (load_l2f c))
  = match db_l2f c !! k with
    | Some row =>
        Some (mkL2F k (l2f_title row) (l2f_parent_location row) (l2f_level row)
                (l2f_id row) (l2f_parent_id row))
    | None => None
    end.
Proof.
  unfold load_l2f. cbn [l2f_cache set_l2f_cache].
  rewrite fold_set_get by apply NoDup_fst_map_to_list.
  destruct (List.find _ (map_to_list (db_l2f c))) as [[k' row]|] eqn:E.
  - apply List.find_some in E as [Hin Heq]. cbn in Heq.
    apply String.eqb_eq in Heq. subst k'.
    apply list_elem_of_In, elem_of_map_to_list in Hin. now rewrite Hin.
  - destruct (db_l2f c !! k) as [row|] eqn:Hk; [|reflexivity].
    exfalso. apply elem_of_map_to_list, list_elem_of_In in Hk.
    pose proof (List.find_none _ _ E _ Hk) as H. cbn in H.
    now rewrite String.eqb_refl in H.
Qed.

Lemma l2f_eta (row : Location2Folder) :
  mkL2F (l2f_location row) (l2f_title row) (l2f_parent_location row)
    (l2f_level row) (l2f_id row) (l2f_parent_id row) = row.
Proof. now destruct row. Qed.

(** Whatever documents are given and however [convert_l2f] ends, a row
    that the table held under its own location is in the chain, with
    every attribute of the row: the folder ids that an earlier run
    obtained are read back and are not made anew. *)
Theorem convert_l2f_keeps_table_rows (fuel : nat) (documents : list WizDocument)
    (rs : Resolver) (k : string) (row : Location2Folder) :
  db_l2f (rs_cu rs) !! k = Some row -> l2f_location row = k ->
  PyDict.get k (l2f_cache (rs_cu (final (convert_l2f fuel documents rs))))
  = Some row.
Proof.
  intros Hrow Hk. unfold convert_l2f, bind, modify.
  assert (H0 : PyDict.get k (l2f_cache (rs_cu (set_rs_cu load_l2f rs))) = Some row).
  { cbn [rs_cu set_rs_cu]. rewrite load_l2f_get, Hrow, <- Hk. now rewrite l2f_eta. }
  pose proof (keeps_for_each
                (fun rs' => extends (l2f_cache (rs_cu (set_rs_cu load_l2f rs)))
                              (l2f_cache (rs_cu rs')))
                (fun document =>
                   build_location_to_top fuel (wd_location (snd document))
                     (Some (fst document)))
                (combine (seq 0 (length documents)) documents)) as Hkeep.
  apply Hkeep; [|apply extends_refl | exact H0].
  intros x. apply build_location_to_top_extends.
Qed.

Lemma convert_l2f_keeps_table_rows_witness :
  PyDict.get "/a/"
    (l2f_cache
       (rs_cu
          (final
             (convert_l2f 3
                [mkDocument "g" "t" "/a/b/" None 0 0 "" false [] [] []]
                (mkResolver
                   (SimpleTarget.cu_of_chain
                      [mkL2F "/a/" "a" None 1 (Some "f1") None])
                   0 ∅)))))
  = Some (mkL2F "/a/" "a" None 1 (Some "f1") None).
Proof.
  apply (convert_l2f_keeps_table_rows 3
           [mkDocument "g" "t" "/a/b/" None 0 0 "" false [] [] []]
           (mkResolver
              (SimpleTarget.cu_of_chain [mkL2F "/a/" "a" None 1 (Some "f1") None])
              0 ∅)
           "/a/" (mkL2F "/a/" "a" None 1 (Some "f1") None)).
  - cbn. apply lookup_insert_eq.
  - reflexivity.
Defined.

Lemma load_l2f_inv (rs : Resolver) :
  (forall k row, db_l2f (rs_cu rs) !! k = Some row ->
                 l2f_location row = k /\ derived row) ->
  resolver_inv (set_rs_cu load_l2f rs).
Proof.
  intros Hrows. unfold resolver_inv. cbn [rs_cu set_rs_cu].
  assert (Hin : forall it, In it (map_to_list (db_l2f (rs_cu rs))) ->
                           l2f_location (snd it) = fst it /\ derived (snd it)).
  { intros [k row] H. apply list_elem_of_In, elem_of_map_to_list in H.
    now apply Hrows. }
  split; [split; [split|]|].
  - unfold load_l2f. cbn [l2f_cache set_l2f_cache].
    apply fold_set_nodup. apply NoDup_nil_2.
  - unfold load_l2f. cbn [l2f_cache set_l2f_cache].
    apply fold_set_Forall; [constructor|]. intros it _. reflexivity.
  - intros k. rewrite load_l2f_get.
    change (db_l2f (load_l2f (rs_cu rs))) with (db_l2f (rs_cu rs)).
    destruct (db_l2f (rs_cu rs) !! k) as [row|] eqn:Hk; [|reflexivity].
    destruct (Hrows k row Hk) as [<- _]. now rewrite l2f_eta.
  - unfold load_l2f. cbn [l2f_cache set_l2f_cache].
    apply fold_set_Forall; [constructor|]. intros it Hit.
    destruct (Hin it Hit) as [Hl Hd]. cbn [snd fst Location2Folder_init].
    rewrite <- Hl, l2f_eta. exact Hd.
Qed.

Lemma resolve_documents (fuel : nat) (documents : list WizDocument) :
  forall (a : nat) (rs : Resolver),
    resolver_inv rs ->
    Forall (fun doc => (Z.to_nat (level_of (wd_location doc)) < fuel)%nat)
      documents ->
    exists rs',
      for_each
        (fun document =>
           build_location_to_top fuel (wd_location (snd document))
             (Some (fst document)))
        (combine (seq a (length documents)) documents) rs = Ret tt rs'
      /\ resolver_inv rs'
      /\ extends (l2f_cache (rs_cu rs)) (l2f_cache (rs_cu rs'))
      /\ (folder_max_level rs <= folder_max_level rs')%Z
      /\ (forall j, (j < a)%nat -> document_folder rs' !! j = document_folder rs !! j)
      /\ forall i doc,
           documents !! i = Some doc ->
           rooted (l2f_cache (rs_cu rs')) (wd_location doc)
           /\ document_folder rs' !! (a + i)%nat = Some (wd_location doc)
           /\ (level_of (wd_location doc) <= folder_max_level rs')%Z.
Proof.
  induction documents as [|doc documents IH]; intros a rs Hinv Hfuel.
  - exists rs. split; [reflexivity|]. split; [exact Hinv|].
    split; [apply extends_refl|]. split; [lia|]. split; [reflexivity|].
    intros i doc H. discriminate.
  - inversion Hfuel as [|? ? Hdoc Hrest]; subst.
    cbn [length seq combine for_each fst snd]. unfold bind.
    destruct (build_location_to_top_resolves fuel (wd_location doc) (Some a) rs
                Hinv Hdoc)
      as (rs1 & -> & Hinv1 & Hroot1 & Hext1 & _ & Hmax1 & Hdf1).
    destruct (IH (S a) rs1 Hinv1 Hrest)
      as (rs' & -> & Hinv' & Hext' & Hmax' & Hlow & Hdocs).
    exists rs'. split; [reflexivity|]. split; [exact Hinv'|].
    split; [now apply (extends_trans _ _ _ Hext1)|].
    split; [lia|]. split.
    + intros j Hj. rewrite Hlow by lia. rewrite Hdf1.
      apply lookup_insert_ne. lia.
    + intros [|i] d Hd.
      * cbn in Hd. injection Hd as <-. split; [|split].
        -- now apply (rooted_mono _ _ _ Hext').
        -- rewrite Nat.add_0_r, Hlow by lia. rewrite Hdf1.
           apply lookup_insert_eq.
        -- lia.
      * cbn in Hd. destruct (Hdocs i d Hd) as (H1 & H2 & H3).
        split; [exact H1|]. split; [|exact H3].
        now replace (a + S i)%nat with (S a + i)%nat by lia.
Qed.

(** [convert_l2f] returns for every list of documents whose locations
    are less deep than the recursion allowed, when every row of the
    table is under its own location and has the parent location and
    the level computed from it, as every row that this program wrote
    has.  Then every document has its folder: the chain holds its
    location and every ancestor of it, the document refers to the entry
    of its location, and the largest level is at least its level. *)
Theorem convert_l2f_resolves_documents (fuel : nat) (documents : list WizDocument)
    (rs : Resolver) :
  (forall k row, db_l2f (rs_cu rs) !! k = Some row ->
                 l2f_location row = k /\ derived row) ->
  Forall (fun doc => (Z.to_nat (level_of (wd_location doc)) < fuel)%nat)
    documents ->
  exists rs',
    convert_l2f fuel documents rs = Ret tt rs'
    /\ resolver_inv rs'
    /\ forall i doc,
         documents !! i = Some doc ->
         rooted (l2f_cache (rs_cu rs')) (wd_location doc)
         /\ document_folder rs' !! i = Some (wd_location doc)
         /\ (level_of (wd_location doc) <= folder_max_level rs')%Z.
Proof.
  intros Hrows Hfuel. unfold convert_l2f, bind, modify.
  destruct (resolve_documents fuel documents 0 (set_rs_cu load_l2f rs)
              (load_l2f_inv rs Hrows) Hfuel)
    as (rs' & Hrun & Hinv' & _ & _ & _ & Hdocs).
  exists rs'. split; [exact Hrun|]. split; [exact Hinv'|].
  intros i doc Hi. apply (Hdocs i doc Hi).
Qed.

Lemma convert_l2f_resolves_documents_witness :
  exists rs',
    convert_l2f 4
      [mkDocument "g1" "t1" "/a/b/" None 0 0 "" false [] [] [];
       mkDocument "g2" "t2" "/c/" None 0 0 "" true [] [] []]
      (mkResolver SimpleTarget.empty_cu 0 ∅) = Ret tt rs'
    /\ resolver_inv rs'
    /\ forall i doc,
         [mkDocument "g1" "t1" "/a/b/" None 0 0 "" false [] [] [];
          mkDocument "g2" "t2" "/c/" None 0 0 "" true [] [] []] !! i = Some doc ->
         rooted (l2f_cache (rs_cu rs')) (wd_location doc)
         /\ document_folder rs' !! i = Some (wd_location doc)
         /\ (level_of (wd_location doc) <= folder_max_level rs')%Z.
Proof.
  apply (convert_l2f_resolves_documents 4
           [mkDocument "g1" "t1" "/a/b/" None 0 0 "" false [] [] [];
            mkDocument "g2" "t2" "/c/" None 0 0 "" true [] [] []]
           (mkResolver SimpleTarget.empty_cu 0 ∅)).
  - intros k row H. cbn in H. now rewrite lookup_empty in H.
  - constructor; [vm_compute; lia|]. constructor; [vm_compute; lia|]. constructor.
Defined.

End ResolverFacts.
